(** * text-miner: the Corpus container of [lib/corpus.js]

    A shallow embedding of the Corpus class: JavaScript values and the
    heap of objects they refer to, the string primitives and regular
    expressions the cleaning operations use, the constructor, the
    mutators and the functional operators, followed by the properties
    of the specification that concern them and by further properties
    of the methods.

    Conventions of the embedding.
    - A text is a [string]; its characters are the code units
      U+0000..U+00FF (the Latin-1 part of UTF-16).
    - Objects live in a heap indexed by locations, so that two
      references to one Document are one location.
    - A method is a function of the heap in a state-and-exception
      monad; a [throw] keeps the heap as it was when it was raised.
    - Callbacks are pure total functions of [(text, attributes, i)]. *)

From Stdlib Require Import Ascii String ZArith Lia.
From stdpp Require Import base option list gmap strings pretty.

Local Open Scope string_scope.
Local Open Scope nat_scope.
Local Open Scope list_scope.

(** ** Strings of code units *)

Module JsString.

Definition chars (s : string) : list ascii := list_ascii_of_string s.
Definition str (l : list ascii) : string := string_of_list_ascii l.

(** A function on code-unit sequences, as a function on strings. *)
Definition lift (f : list ascii → list ascii) (s : string) : string :=
  str (f (chars s)).

Definition code (c : ascii) : nat := nat_of_ascii c.

(** The class [\s] (and the characters [String.prototype.trim]
    strips): TAB, LF, VT, FF, CR, SPACE and NO-BREAK SPACE are its
    members below U+0100. *)
Definition isWhiteSpace (c : ascii) : bool :=
  ((9 <=? code c) && (code c <=? 13)) || (code c =? 32) || (code c =? 160).

(** The class [[\s\.]] of [removeWords]. *)
Definition isDelim (c : ascii) : bool :=
  isWhiteSpace c || Ascii.eqb c ".".

(** The class [[\!\?\.,;-]] of [removeInterpunctuation]. *)
Definition isInterpunctuation (c : ascii) : bool :=
  Ascii.eqb c "!" || Ascii.eqb c "?" || Ascii.eqb c "." ||
  Ascii.eqb c "," || Ascii.eqb c ";" || Ascii.eqb c "-".

(** [String.prototype.toLowerCase] on one code unit: A-Z, and the
    Latin-1 capitals U+00C0..U+00DE without the multiplication sign. *)
Definition lowerChar (c : ascii) : ascii :=
  let n := code c in
  if ((65 <=? n) && (n <=? 90)) ||
     ((192 <=? n) && (n <=? 222) && negb (n =? 215))
  then ascii_of_nat (n + 32) else c.

(** [String.prototype.toLowerCase] on a text of these code units: one
    character after the other.  The rule of the method that looks at
    the neighbours of a character (the final sigma) and its mappings
    that change the length of a text concern characters above
    U+00FF. *)
Definition toLowerCase : string → string := lift (map lowerChar).

(** The [Canonicalize] operation of a case-insensitive RegExp: the
    code unit of the upper-case form.  The micro sign and y with
    diaeresis have their capitals above U+00FF; the sharp s has a
    capital of two characters and stays as it is. *)
Definition canonicalize (c : ascii) : nat :=
  let n := code c in
  if ((97 <=? n) && (n <=? 122)) ||
     ((224 <=? n) && (n <=? 254) && negb (n =? 247))
  then n - 32
  else if n =? 181 then 924
  else if n =? 255 then 376
  else n.

(** *** Regular expressions

    The patterns of [corpus.js] are sequences of character classes,
    each taken once or one-or-more times (greedy, with backtracking). *)

Inductive atom :=
| One (p : ascii → bool)
| Many1 (p : ascii → bool).

Definition regex := list atom.

(** [matchLen r s]: the length of the match of [r] at the start of
    [s], if there is one.  [Many1] first tries to take one more
    character and gives it back when the rest then fails. *)
Fixpoint matchLen (r : regex) : list ascii → option nat :=
  match r with
  | [] => fun _ => Some 0
  | One p :: r' => fun s =>
      match s with
      | c :: s' => if p c then S <$> matchLen r' s' else None
      | [] => None
      end
  | Many1 p :: r' =>
      fix many (s : list ascii) : option nat :=
        match s with
        | c :: s' =>
            if p c then
              match many s' with
              | Some n => Some (S n)
              | None => S <$> matchLen r' s'
              end
            else None
        | [] => None
        end
  end.

(** [s.replace(/r/g, rep)]: scan from the left; at a match, emit
    [rep] and resume behind it ([skip] counts the characters of the
    match still to pass over); elsewhere copy the character. *)
Fixpoint replaceFrom (r : regex) (rep : list ascii) (skip : nat)
    (s : list ascii) : list ascii :=
  match s with
  | [] => match matchLen r [] with Some _ => rep | None => [] end
  | c :: s' =>
      match skip with
      | S k => replaceFrom r rep k s'
      | 0 =>
          match matchLen r s with
          | Some (S n) => rep ++ replaceFrom r rep n s'
          | Some 0 => rep ++ c :: replaceFrom r rep 0 s'
          | None => c :: replaceFrom r rep 0 s'
          end
      end
  end.

Definition replaceAll (r : regex) (rep : list ascii) (s : list ascii)
    : list ascii :=
  replaceFrom r rep 0 s.

(** *** underscore.string

    An external package.  Its [trim] strips leading and trailing
    whitespace; its [clean] is [trim( text ).replace( /\s\s+/g, ' ' )]:
    it trims, and the runs of two or more whitespace characters inside
    become single spaces (a single whitespace character stays as it
    is, whichever it is). *)

Fixpoint trimStart (s : list ascii) : list ascii :=
  match s with
  | c :: s' => if isWhiteSpace c then trimStart s' else s
  | [] => []
  end.

Definition trimEnd (s : list ascii) : list ascii :=
  rev (trimStart (rev s)).

(** [_.trim(text)] without a character argument is the native
    [String.prototype.trim]. *)
Definition trimChars (s : list ascii) : list ascii :=
  trimEnd (trimStart s).

Definition trim : string → string := lift trimChars.

(** [_.clean(text)]: trim, then every run of two or more whitespace
    characters becomes one space. *)
Definition cleanChars (s : list ascii) : list ascii :=
  replaceAll [One isWhiteSpace; Many1 isWhiteSpace] [" "%char] (trimChars s).

Definition clean : string → string := lift cleanChars.

(** *** The patterns of the cleaning operations *)

(** [text.replace( /[\!\?\.,;-]/g, ' ' )] *)
Definition stripInterpunctuation : string → string :=
  lift (replaceAll [One isInterpunctuation] [" "%char]).

(** The line terminators below U+0100, LF and CR: the characters a
    period in a pattern does not match. *)
Definition isLineTerminator (c : ascii) : bool :=
  (code c =? 10) || (code c =? 13).

(** One character of a word inside the pattern, under the flags
    ['g'] or ['gi'].  The word is put into the pattern as it is, so a
    period in it is the pattern's period: any character but a line
    terminator. *)
Definition wordChar (ci : bool) (c : ascii) : atom :=
  if Ascii.eqb c "."
  then One (fun x => negb (isLineTerminator x))
  else One (fun x => if ci then canonicalize x =? canonicalize c
                     else Ascii.eqb x c).

(** The characters with a meaning of their own in a pattern.  A word
    without them stands for itself in
    [new RegExp( `[\\s\\.]+${word}[\\s\\.]` )]. *)
Definition isSyntaxChar (c : ascii) : bool :=
  existsb (Ascii.eqb c) (chars "\^$.*+?()[]{}|").

Definition plainWord (w : string) : bool :=
  forallb (fun c => negb (isSyntaxChar c)) (chars w).

(** A word whose only pattern syntax is the period. *)
Definition simpleWord (w : string) : bool :=
  forallb (fun c => Ascii.eqb c "." || negb (isSyntaxChar c)) (chars w).

(** [new RegExp( `[\\s\\.]+${word}[\\s\\.]`, options )] for a [word]
    of plain characters and periods. *)
Definition wordRegExp (ci : bool) (w : string) : regex :=
  Many1 isDelim :: map (wordChar ci) (chars w) ++ [One isDelim].

(** [text.replace( myRegExp, '' )] *)
Definition stripWord (ci : bool) (w : string) : string → string :=
  lift (replaceAll (wordRegExp ci w) []).

(** The class [\d] of [removeDigits]. *)
Definition isDigit (c : ascii) : bool :=
  (48 <=? code c) && (code c <=? 57).

(** [text.replace( /\d/g, '' )] *)
Definition stripDigits : string → string :=
  lift (replaceAll [One isDigit] []).

(** CARRIAGE RETURN and LINE FEED, the [\r] and [\n] of
    [removeNewlines]. *)
Definition isCR (c : ascii) : bool := code c =? 13.
Definition isLF (c : ascii) : bool := code c =? 10.

(** [s.replace( /\r?\n|\r/g, ' ' )].  The pattern is outside the
    sequences of classes above, so its scan is written out: at a CR
    the first alternative takes the CR together with a LF behind it,
    and with no LF there the second alternative takes the CR alone; at
    a LF the first alternative takes it with no CR; each match becomes
    one space, and the scan resumes behind it. *)
Fixpoint newlinesToSpaces (s : list ascii) : list ascii :=
  match s with
  | [] => []
  | c :: s' =>
      if isCR c then
        match s' with
        | c' :: s'' =>
            if isLF c' then " "%char :: newlinesToSpaces s''
            else " "%char :: newlinesToSpaces s'
        | [] => [" "%char]
        end
      else if isLF c then " "%char :: newlinesToSpaces s'
      else c :: newlinesToSpaces s'
  end.

(** [text.replace( /\r?\n|\r/g, ' ' )] *)
Definition stripNewlines : string → string := lift newlinesToSpaces.

End JsString.

(** ** Values, objects and the heap *)

Abbreviation loc := positive.

Inductive value :=
| VUndefined
| VNull
| VBoolean (b : bool)
| VNumber (n : Z)
| VString (s : string)
| VRef (l : loc).

(** A Document: an object with the own properties [text] and
    [attributes]. *)
Record document := Doc { text : string; attributes : value }.

Inductive object :=
| ODoc (d : document)
| OArray (elems : list value)
| OObject (props : gmap string value)   (* any other plain object *)
| OCorpus (documents : value).          (* a Corpus instance *)

Abbreviation heap := (gmap loc object).

Global Instance value_eq_dec : EqDecision value.
Proof. solve_decision. Defined.

(** ** Computations: state and exceptions *)

(** [TypeError] and [Error] are the two constructors [corpus.js]
    throws; the specification calls them InvalidArgument and
    LengthMismatch. *)
Inductive exn := TypeError | Error.

Abbreviation InvalidArgument := TypeError.
Abbreviation LengthMismatch := Error.

(** [Stuck] marks a step on which the embedding is silent: a property
    of the wrong kind of value, the string form of an object, a word
    with pattern syntax other than the period, a new prototype for an
    object. *)
Inductive outcome (A : Type) :=
| Return (a : A)
| Throw (e : exn)
| Stuck.
Arguments Return {A} a.
Arguments Throw {A} e.
Arguments Stuck {A}.

Definition M (A : Type) : Type := heap → outcome A * heap.

Global Instance M_ret : MRet M := λ A a h, (Return a, h).
Global Instance M_bind : MBind M := λ A B k m h,
  match m h with
  | (Return a, h') => k a h'
  | (Throw e, h') => (Throw e, h')
  | (Stuck, h') => (Stuck, h')
  end.

Definition throw {A} (e : exn) : M A := λ h, (Throw e, h).
Definition stuck {A} : M A := λ h, (Stuck, h).
Definition getHeap : M heap := λ h, (Return h, h).
Definition store (l : loc) (o : object) : M unit := λ h, (Return (), <[l:=o]> h).

(** [new]: the object is put at a location not in use. *)
Definition alloc (o : object) : M loc := λ h,
  let l := fresh (dom h) in (Return l, <[l:=o]> h).

Definition load (v : value) : M (loc * object) := λ h,
  match v with
  | VRef l => match h !! l with Some o => (Return (l, o), h) | None => (Stuck, h) end
  | _ => (Stuck, h)
  end.

(** [for ( i = start; i < start + n; i++ ) body].  The loops of
    [corpus.js] run up to [this.nDocs] or [words.length]; neither
    changes while they run, so the bound is read once. *)
Fixpoint forRange (i n : nat) (body : nat → M unit) : M unit :=
  match n with
  | 0 => mret ()
  | S n' => body i ;; forRange (S i) n' body
  end.

(** ** Property access *)

Definition MAX_UINT32 : Z := 4294967295.

(** The elements [v[0] .. v[v.length-1]] of an array-like value: an
    array, a string, or an object whose [length] is an integer between
    0 and 2^32-1. *)
Definition arrayLike (h : heap) (v : value) : option (list value) :=
  match v with
  | VString s => Some ((λ c, VString (String c "")) <$> JsString.chars s)
  | VRef l =>
      match h !! l with
      | Some (OArray xs) => Some xs
      | Some (OObject props) =>
          match props !! "length" with
          | Some (VNumber n) =>
              if bool_decide (0 ≤ n ≤ MAX_UINT32)%Z
              then Some ((λ i, default VUndefined (props !! pretty i)) <$> seq 0 (Z.to_nat n))
              else None
          | _ => None
          end
      | _ => None
      end
  | _ => None
  end.

(** [v.length] *)
Definition lengthOf (v : value) : M nat :=
  h ← getHeap;
  match arrayLike h v with
  | Some xs => mret (length xs)
  | None => stuck
  end.

(** [v[i]] *)
Definition index (v : value) (i : nat) : M value :=
  h ← getHeap;
  match arrayLike h v with
  | Some xs => mret (default VUndefined (xs !! i))
  | None => stuck
  end.

(** [this.documents] *)
Definition documentsOf (self : loc) : M value :=
  '(_, o) ← load (VRef self);
  match o with OCorpus ds => mret ds | _ => stuck end.

(** [this.documents = v] *)
Definition setDocuments (self : loc) (v : value) : M unit :=
  store self (OCorpus v).

(** The getter [nDocs]: [this.documents.length]. *)
Definition nDocs (self : loc) : M nat :=
  ds ← documentsOf self; lengthOf ds.

(** [doc.text] and [doc.attributes] *)
Definition getDoc (v : value) : M (loc * document) :=
  '(l, o) ← load v;
  match o with ODoc d => mret (l, d) | _ => stuck end.

(** [doc.text = s] *)
Definition setText (v : value) (s : string) : M unit :=
  '(l, d) ← getDoc v; store l (ODoc (Doc s (attributes d))).

(** [doc.attributes = a] *)
Definition setAttrs (v : value) (a : value) : M unit :=
  '(l, d) ← getDoc v; store l (ODoc (Doc (text d) a)).

(** [arr[ i ] = x] on an array *)
Definition arraySet (arr : loc) (i : nat) (x : value) : M unit :=
  '(_, o) ← load (VRef arr);
  match o with OArray xs => store arr (OArray (<[i:=x]> xs)) | _ => stuck end.

(** [arr.push( x )] *)
Definition push (arr : value) (x : value) : M unit :=
  '(l, o) ← load arr;
  match o with OArray xs => store l (OArray (xs ++ [x])) | _ => stuck end.

(** [arr.concat( x )]: a new array with the elements of [arr],
    followed by the elements of [x] when [x] is an array and by [x]
    itself when it is any other value. *)
Definition concat (arr : value) (x : value) : M value :=
  '(_, o) ← load arr;
  match o with
  | OArray xs =>
      h ← getHeap;
      let ys :=
        match x with
        | VRef l => match h !! l with Some (OArray ys) => ys | _ => [x] end
        | _ => [x]
        end in
      l ← alloc (OArray (xs ++ ys));
      mret (VRef l)
  | _ => stuck
  end.

(** The truth value of a value in a condition ([ToBoolean]). *)
Definition toBoolean (v : value) : bool :=
  match v with
  | VUndefined | VNull => false
  | VBoolean b => b
  | VNumber n => negb (n =? 0)%Z
  | VString s => negb (String.eqb s EmptyString)
  | VRef _ => true
  end.

(** ** The validators

    [corpus.js] imports them from the validate.io packages, which are
    not part of the repository; each is a total test on values.  The
    two tests on the elements of an array answer [false] for the empty
    array. *)

(** validate.io-string-primitive *)
Definition isString (v : value) : bool :=
  match v with VString _ => true | _ => false end.

(** validate.io-boolean-primitive *)
Definition isBoolean (v : value) : bool :=
  match v with VBoolean _ => true | _ => false end.

(** validate.io-object: an object that is neither [null] nor an array. *)
Definition isObject (h : heap) (v : value) : bool :=
  match v with
  | VRef l =>
      match h !! l with
      | Some (OArray _) | None => false
      | Some _ => true
      end
  | _ => false
  end.

(** validate.io-array-like, imported under the name [isArray]. *)
Definition isArray (h : heap) (v : value) : bool :=
  bool_decide (is_Some (arrayLike h v)).

(** An array proper. *)
Definition arrayElems (h : heap) (v : value) : option (list value) :=
  match v with
  | VRef l => match h !! l with Some (OArray xs) => Some xs | _ => None end
  | _ => None
  end.

(** validate.io-string-array: an array of one or more elements, every
    one of them a string. *)
Definition isStringArray (h : heap) (v : value) : bool :=
  match arrayElems h v with
  | Some (x :: xs) => forallb isString (x :: xs)
  | Some [] | None => false
  end.

(** validate.io-object-array: an array of one or more elements, every
    one of them an object. *)
Definition isObjectArray (h : heap) (v : value) : bool :=
  match arrayElems h v with
  | Some (x :: xs) => forallb (isObject h) (x :: xs)
  | Some [] | None => false
  end.

(** [isDoc]: an object with both a [text] and an [attributes] key;
    these are the objects the heap holds as [ODoc]. *)
Definition isDoc (h : heap) (val : value) : bool :=
  isObject h val &&
  match val with
  | VRef l => match h !! l with Some (ODoc _) => true | _ => false end
  | _ => false
  end.

(** [isDocArray]: array-like, and every element passes [isDoc]. *)
Definition isDocArray (h : heap) (val : value) : bool :=
  if negb (isArray h val) then false
  else match arrayLike h val with
       | Some xs => forallb (isDoc h) xs
       | None => false
       end.

(** ** The Corpus class *)

Module Corpus.

(** Callbacks [func( text, attributes, id )]. *)
Definition callback (A : Type) : Type := string → value → nat → A.

(** Modelled from the spec: the constructor of [document.js], which is
    not among the sources.  [new Doc( text )] is a fresh record
    wrapping the string, with an empty mapping of its own as
    attributes. *)
Definition newDoc (s : string) : M value :=
  a ← alloc (OObject ∅);
  d ← alloc (ODoc (Doc s (VRef a)));
  mret (VRef d).

(** The text of a string value. *)
Definition stringOf (v : value) : M string :=
  match v with VString s => mret s | _ => stuck end.

(** [arr = new Array( len ); for ... arr[ i ] = new Doc( val[ i ] )] *)
Definition wrapStrings (val : value) : M value :=
  len ← lengthOf val;
  arr ← alloc (OArray (replicate len VUndefined));
  forRange 0 len (λ i,
    x ← index val i;
    s ← stringOf x;
    d ← newDoc s;
    arraySet arr i d);;
  mret (VRef arr).

(** [this.init] *)
Definition init (self : loc) (val : value) : M unit :=
  h ← getHeap;
  match val with
  | VUndefined =>
      a ← alloc (OArray []); setDocuments self (VRef a)
  | _ =>
      if isString val then
        s ← stringOf val;
        d ← newDoc s;
        a ← alloc (OArray [d]);
        setDocuments self (VRef a)
      else if isStringArray h val then
        arr ← wrapStrings val;
        setDocuments self arr
      else if isDoc h val then
        a ← alloc (OArray [val]);
        setDocuments self (VRef a)
      else if isDocArray h val then
        setDocuments self val
      else
        throw TypeError
  end.

(** [new Corpus( docs )] *)
Definition newCorpus (docs : value) : M loc :=
  self ← alloc (OCorpus VUndefined);
  init self docs;;
  mret self.

(** [this.addDoc] *)
Definition addDoc (self : loc) (doc : value) : M unit :=
  h ← getHeap;
  if isString doc then
    s ← stringOf doc;
    d ← newDoc s;
    ds ← documentsOf self;
    push ds d
  else if isDoc h doc then
    ds ← documentsOf self;
    push ds doc
  else
    throw TypeError.

(** [this.addDocs] *)
Definition addDocs (self : loc) (docs : value) : M unit :=
  h ← getHeap;
  if isStringArray h docs then
    arr ← wrapStrings docs;
    ds ← documentsOf self;
    ds' ← concat ds arr;
    setDocuments self ds'
  else if isDocArray h docs then
    ds ← documentsOf self;
    ds' ← concat ds docs;
    setDocuments self ds'
  else
    throw TypeError.

(** [this.setAttributes] *)
Definition setAttributes (self : loc) (arr : value) : M value :=
  h ← getHeap;
  if negb (isObjectArray h arr) then throw TypeError else
  len ← lengthOf arr;
  n ← nDocs self;
  if negb (len =? n) then throw Error else
  forRange 0 len (λ i,
    a ← index arr i;
    ds ← documentsOf self;
    d ← index ds i;
    setAttrs d a);;
  mret (VRef self).

(** [Corpus.prototype.apply] *)
Definition apply (self : loc) (func : callback string) : M value :=
  n ← nDocs self;
  forRange 0 n (λ i,
    ds ← documentsOf self;
    doc ← index ds i;
    '(_, d) ← getDoc doc;
    setText doc (func (text d) (attributes d) i);;
    '(a, _) ← load ds;
    arraySet a i doc);;
  mret (VRef self).

(** [Corpus.prototype.map] *)
Definition map (self : loc) (func : callback string) : M value :=
  ret ← newCorpus VUndefined;
  n ← nDocs self;
  forRange 0 n (λ i,
    ds ← documentsOf self;
    doc ← index ds i;
    '(_, d) ← getDoc doc;
    setText doc (func (text d) (attributes d) i);;
    addDoc ret doc);;
  mret (VRef ret).

(** [Corpus.prototype.filter].  The callback may return any value;
    the document is kept when the value is true in a condition. *)
Definition filter (self : loc) (func : callback value) : M value :=
  ret ← newCorpus VUndefined;
  n ← nDocs self;
  forRange 0 n (λ i,
    ds ← documentsOf self;
    doc ← index ds i;
    '(_, d) ← getDoc doc;
    let bool := func (text d) (attributes d) i in
    if toBoolean bool then addDoc ret doc else mret ());;
  mret (VRef ret).

(** [Corpus.prototype.groupBy].  The callback's result is taken as
    the property name it is used as; [corpora] is the plain object
    returned, [props] its own properties.  Two names are not like the
    others.  [corpora.hasOwnProperty] is the method of
    [Object.prototype] only as long as [corpora] has no own property
    of that name: once a group is stored under ["hasOwnProperty"], the
    call finds a Corpus in place of the method and raises a TypeError.
    ["__proto__"] is never an own property: [hasOwnProperty] answers
    [false] for it, and the assignment [corpora[ group ] = ...] gives
    [corpora] a new prototype, on which the embedding is silent. *)
Definition groupBy (self : loc) (func : callback string) : M value :=
  corpora ← alloc (OObject ∅);
  n ← nDocs self;
  forRange 0 n (λ i,
    ds ← documentsOf self;
    doc ← index ds i;
    '(_, d) ← getDoc doc;
    let group := func (text d) (attributes d) i in
    '(_, o) ← load (VRef corpora);
    match o with
    | OObject props =>
        match props !! "hasOwnProperty" with
        | Some _ => throw TypeError
        | None =>
            if String.eqb group "__proto__" then stuck else
            match props !! group with
            | None =>
                c ← newCorpus doc;
                store corpora (OObject (<[group:=VRef c]> props))
            | Some (VRef c) => addDoc c doc
            | Some _ => stuck
            end
        end
    | _ => stuck
    end);;
  mret (VRef corpora).

(** [Corpus.prototype.trim] *)
Definition trim (self : loc) : M value :=
  apply self (λ text _ _, JsString.trim text);;
  mret (VRef self).

(** [Corpus.prototype.clean] *)
Definition clean (self : loc) : M value :=
  apply self (λ text _ _, JsString.clean text);;
  mret (VRef self).

(** [Corpus.prototype.toLower] *)
Definition toLower (self : loc) : M value :=
  apply self (λ text _ _, JsString.toLowerCase text);;
  mret (VRef self).

(** [Corpus.prototype.removeInterpunctuation] *)
Definition removeInterpunctuation (self : loc) : M value :=
  apply self (λ text _ _, JsString.stripInterpunctuation text);;
  mret (VRef self).

(** [Corpus.prototype.removeNewlines] *)
Definition removeNewlines (self : loc) : M value :=
  apply self (λ text _ _, JsString.stripNewlines text);;
  mret (VRef self).

(** [Corpus.prototype.removeDigits] *)
Definition removeDigits (self : loc) : M value :=
  apply self (λ text _ _, JsString.stripDigits text);;
  mret (VRef self).

(** The string a value contributes to a template literal. *)
Definition toStr (v : value) : M string :=
  match v with
  | VUndefined => mret "undefined"
  | VNull => mret "null"
  | VBoolean b => mret (if b then "true" else "false")
  | VNumber n => mret (pretty n)
  | VString s => mret s
  | VRef _ => stuck
  end.

(** [Corpus.prototype.removeWords].  [caseInsensitive] is [None] when
    the call has one argument. *)
Definition removeWords (self : loc) (words : value)
    (caseInsensitive : option value) : M value :=
  h ← getHeap;
  if negb (isArray h words) then throw TypeError else
  match caseInsensitive with
  | Some v => if negb (isBoolean v) then throw TypeError else mret ()
  | None => mret ()
  end;;
  n ← nDocs self;
  forRange 0 n (λ doc,
    len ← lengthOf words;
    forRange 0 len (λ i,
      let options :=
        match caseInsensitive with Some (VBoolean b) => b | _ => false end in
      x ← index words i;
      w ← toStr x;
      if negb (JsString.simpleWord w) then stuck else
      ds ← documentsOf self;
      d ← index ds doc;
      '(_, rec) ← getDoc d;
      setText d (JsString.stripWord options w (text rec))));;
  clean self;;
  mret (VRef self).

End Corpus.

(** ** Observations *)

(** The documents of a corpus, as the list of its references. *)
Definition docsOf (h : heap) (c : loc) : option (list value) :=
  match h !! c with
  | Some (OCorpus ds) => arrayLike h ds
  | _ => None
  end.

Definition docAt (h : heap) (v : value) : option document :=
  match v with
  | VRef l => match h !! l with Some (ODoc d) => Some d | _ => None end
  | _ => None
  end.

(** The texts of the documents of a corpus, in order. *)
Definition textsOf (h : heap) (c : loc) : option (list string) :=
  ds ← docsOf h c; mapM (λ v, text <$> docAt h v) ds.

(** A script is run from the empty heap. *)
Definition corpusOfStrings (ss : list string) : M loc :=
  arr ← alloc (OArray (VString <$> ss));
  Corpus.newCorpus (VRef arr).

Definition textsAfter (ss : list string) (script : loc → M value)
    : option (list string) :=
  match (c ← corpusOfStrings ss; script c;; mret c) ∅ with
  | (Return c, h) => textsOf h c
  | _ => None
  end.

(** A method called on the value another method returned. *)
Definition chain (m : loc → M value) (v : value) : M value :=
  match v with VRef c => m c | _ => throw TypeError end.

(** [removeWords( ws )] with an array of words. *)
Definition removeWordList (ws : list string) (ci : option bool) (c : loc)
    : M value :=
  arr ← alloc (OArray (VString <$> ws));
  Corpus.removeWords c (VRef arr) (VBoolean <$> ci).

Import JsString.

(** ** Notions used by the statements *)

(** A sequence that does not begin with whitespace. *)
Definition headOk (s : list ascii) : Prop :=
  match s with c :: _ => isWhiteSpace c = false | [] => True end.

(** The class of an atom, and of the first and last atom of a pattern. *)
Definition atomClass (a : atom) : ascii → bool :=
  match a with One p | Many1 p => p end.
Definition firstClass (r : regex) : ascii → bool :=
  match r with a :: _ => atomClass a | [] => λ _, false end.
Definition lastClass (r : regex) : ascii → bool :=
  match last r with Some a => atomClass a | None => λ _, false end.
(** No character of [u] belongs to the class [p]. *)
Definition free (p : ascii → bool) (u : list ascii) : Prop :=
  Forall (λ c, p c = false) u.

(** Text that begins, or ends, with a given string. *)
Definition startsWith (u t : string) : Prop := chars u `prefix_of` chars t.
Definition endsWith (u t : string) : Prop := chars u `suffix_of` chars t.

(** A word in the narrow sense: no whitespace and no period in it. *)
Definition delimFree (u : string) : Prop := free isDelim (chars u).

(** [x] stands for the character [c] of a word, under the flag. *)
Definition sameChar (ci : bool) (c x : ascii) : Prop :=
  if ci then canonicalize x = canonicalize c else x = c.

(** [erases ci w s s']: [s'] is [s] without some regions, each of them
    one or more delimiters, a copy of the word, and one delimiter. *)
Inductive erases (ci : bool) (w : list ascii) : list ascii → list ascii → Prop :=
| erases_nil : erases ci w [] []
| erases_keep c s s' : erases ci w s s' → erases ci w (c :: s) (c :: s')
| erases_region ds w' d s s' :
    ds ≠ [] → Forall (λ c, isDelim c = true) ds →
    Forall2 (sameChar ci) w w' →
    isDelim d = true →
    erases ci w s s' →
    erases ci w (ds ++ w' ++ d :: s) s'.

(** A corpus object [c] whose [documents] is the array [a] of the
    Documents [ds]. *)
Record corpusAt (h : heap) (c a : loc) (ds : list loc) : Prop := CorpusAt {
  corpus_self : h !! c = Some (OCorpus (VRef a));
  corpus_array : h !! a = Some (OArray (VRef <$> ds));
  corpus_docs : Forall (λ d, is_Some (docAt h (VRef d))) ds
}.

(** The object [o] with its text, if it is a Document, rewritten by [g]. *)
Definition retext (g : string → value → string) (o : object) : object :=
  match o with
  | ODoc d => ODoc (Doc (g (text d) (attributes d)) (attributes d))
  | _ => o
  end.

(** The text of the Document [l] after the callback ran at the
    positions [i, i+1, ...] holding [ds]: it is rewritten once for
    every position at which [l] is stored. *)
Fixpoint textAfter (f : Corpus.callback string) (l : loc) (i : nat)
    (ds : list loc) (t : string) (a : value) : string :=
  match ds with
  | [] => t
  | d :: ds' => textAfter f l (S i) ds' (if decide (d = l) then f t a i else t) a
  end.

(** The text of the Document at [d]. *)
Definition textOf (h : heap) (d : loc) : string :=
  match h !! d with Some (ODoc doc) => text doc | _ => "" end.

(** All the words of a call, removed one after the other. *)
Definition stripWords (ci : bool) (ws : list string) (t : string) : string :=
  foldl (λ t w, JsString.stripWord ci w t) t ws.

(** The object [o] with its attributes, if it is a Document, replaced. *)
Definition reattr (g : value → value) (o : object) : object :=
  match o with
  | ODoc d => ODoc (Doc (text d) (g (attributes d)))
  | _ => o
  end.

(** The attributes of the Document [l] after [xs] was assigned
    position by position to the documents [ds]. *)
Fixpoint attrsAfter (l : loc) (ds : list loc) (xs : list value) (a0 : value) : value :=
  match ds, xs with
  | d :: ds', x :: xs' => attrsAfter l ds' xs' (if decide (d = l) then x else a0)
  | _, _ => a0
  end.

(** A mapping: an object that is not an array. *)
Definition isMapping (h : heap) (v : value) : Prop :=
  ∃ l o, v = VRef l ∧ h !! l = Some o ∧ ∀ xs, o ≠ OArray xs.

(** [arr] is a sequence of attribute mappings, with the elements [xs]. *)
Definition mappingSeq (h : heap) (arr : value) (xs : list value) : Prop :=
  (∃ l, arr = VRef l ∧ h !! l = Some (OArray xs)) ∧ Forall (isMapping h) xs.





(** The key the callback gives the Document [d] at position [i]. *)
Definition keyOf (h : heap) (f : Corpus.callback string) (i : nat) (d : loc) : string :=
  match h !! d with
  | Some (ODoc doc) => f (text doc) (attributes doc) i
  | _ => ""
  end.

(** A name under which [groupBy] stores a group as an ordinary own
    property: any name but ["__proto__"] and ["hasOwnProperty"]. *)
Definition ordinaryKey (k : string) : Prop :=
  k ≠ "__proto__" ∧ k ≠ "hasOwnProperty".

(** The callback gives every document of [ds] such a name. *)
Definition ordinaryKeys (h : heap) (f : Corpus.callback string)
    (ds : list loc) : Prop :=
  ∀ i d, ds !! i = Some d → ordinaryKey (keyOf h f i d).

(** The positions of [ds] whose key is [k], each with its Document,
    in increasing order; and the documents at these positions. *)
Definition members (h : heap) (f : Corpus.callback string) (k : string)
    (ds : list loc) : list (nat * loc) :=
  filter (λ p, keyOf h f p.1 p.2 = k) (imap pair ds).

Definition groupOf (h : heap) (f : Corpus.callback string) (k : string)
    (ds : list loc) : list loc :=
  (members h f k ds).*2.

(** The groups built so far: [L] gives, for each key, the corpus
    object of the group and its array. *)
Definition groupsAt (h : heap) (f : Corpus.callback string) (ds : list loc)
    (corpora : loc) (H : heap) : Prop :=
  (∀ l, l ∈ dom h → H !! l = h !! l) ∧
  ∃ L : gmap string (loc * loc),
    H !! corpora = Some (OObject ((λ p, VRef p.1) <$> L)) ∧
    (∀ k, L !! k = None → groupOf h f k ds = []) ∧
    (∀ k gc ga, L !! k = Some (gc, ga) →
       H !! gc = Some (OCorpus (VRef ga)) ∧
       H !! ga = Some (OArray (VRef <$> groupOf h f k ds)) ∧
       (gc ∉ dom h) ∧ (ga ∉ dom h) ∧ groupOf h f k ds ≠ []) ∧
    (∀ k1 k2 gc1 gc2 ga,
       L !! k1 = Some (gc1, ga) → L !! k2 = Some (gc2, ga) → k1 = k2).

(** The specification's reading of [removeWords], for comparison with
    the code: a word is deleted where a whitespace or period character
    stands directly before it and directly behind it, the two
    delimiters stay, and the whitespace is normalised at the end. *)
Fixpoint isPrefixOf (w s : list ascii) : bool :=
  match w, s with
  | [], _ => true
  | c :: w', x :: s' => Ascii.eqb c x && isPrefixOf w' s'
  | _ :: _, [] => false
  end.

Definition boundedAt (w s : list ascii) : bool :=
  match w with
  | [] => false
  | _ :: _ =>
      isPrefixOf w s &&
      match drop (length w) s with d :: _ => isDelim d | [] => false end
  end.

Fixpoint specStripFrom (w : list ascii) (prev : bool) (skip : nat)
    (s : list ascii) : list ascii :=
  match s with
  | [] => []
  | c :: s' =>
      match skip with
      | S k => specStripFrom w false k s'
      | 0 =>
          if prev && boundedAt w s
          then specStripFrom w false (length w - 1) s'
          else c :: specStripFrom w (isDelim c) 0 s'
      end
  end.

Definition specRemoveWords (ws : list string) (t : string) : string :=
  clean (foldl (λ t w, lift (specStripFrom (chars w) false 0) t) t ws).

(** What the callback of [filter] answers for the Document [d] at
    position [i]. *)
Definition keeps (h : heap) (f : Corpus.callback value) (i : nat) (d : loc) : bool :=
  match h !! d with
  | Some (ODoc doc) => toBoolean (f (text doc) (attributes doc) i)
  | _ => false
  end.

(** The documents of [ds] the callback keeps, in the order of [ds]. *)
Definition kept (h : heap) (f : Corpus.callback value) (ds : list loc) : list loc :=
  (filter (λ p, keeps h f p.1 p.2 = true) (imap pair ds)).*2.

(** A callback that does not look at the position. *)
Definition positionFree {A} (f : Corpus.callback A) : Prop :=
  ∀ t a i j, f t a i = f t a j.

(** A line break character. *)
Definition isNewline (c : ascii) : bool := isCR c || isLF c.

(** The character [c], or a space in its place when it belongs to [p]. *)
Definition blank (p : ascii → bool) (c : ascii) : ascii :=
  if p c then " "%char else c.

(** The objects at the locations of [dom h] are in [h'] what they
    were in [h]. *)
Definition unchangedOn (h h' : heap) : Prop :=
  ∀ l, l ∈ dom h → h' !! l = h !! l.

(** A heap with a corpus without documents and an empty array. *)
Definition emptyHeap : heap :=
  list_to_map
    [ (1%positive, OCorpus (VRef 2));
      (2%positive, OArray []);
      (3%positive, OArray []) ].

(** A heap whose corpus holds one Document object at two positions. *)
Definition aliasHeap : heap :=
  list_to_map
    [ (1%positive, OCorpus (VRef 2));
      (2%positive, OArray [VRef 3; VRef 3]);
      (3%positive, ODoc (Doc "x" (VRef 4)));
      (4%positive, OObject ∅) ].

(** A heap with one corpus of two documents, an array of words and an
    array of attribute mappings, on which the statements are tried. *)
Definition demoHeap : heap :=
  list_to_map
    [ (1%positive, OCorpus (VRef 2));
      (2%positive, OArray [VRef 3; VRef 4]);
      (3%positive, ODoc (Doc "the cat. sat" (VRef 5)));
      (4%positive, ODoc (Doc "a category item" (VRef 6)));
      (5%positive, OObject ∅);
      (6%positive, OObject ∅);
      (7%positive, OArray [VString "cat"]);
      (8%positive, OArray [VRef 6; VRef 5]) ].

(** The length of the run of characters of a class at the start of a
    text. *)
Fixpoint runLen (p : ascii → bool) (s : list ascii) : nat :=
  match s with
  | c :: s' => if p c then S (runLen p s') else 0
  | [] => 0
  end.

(** A text in which every whitespace character stands alone, with a
    character other than whitespace behind it. *)
Inductive spaced : list ascii → Prop :=
| spaced_nil : spaced []
| spaced_char c s : isWhiteSpace c = false → spaced s → spaced (c :: s)
| spaced_space w c s :
    isWhiteSpace w = true → isWhiteSpace c = false → spaced s →
    spaced (w :: c :: s).

(** A text that does not end with whitespace. *)
Definition endOk (s : list ascii) : Prop := headOk (rev s).

(** A heap with a corpus of three positions, the Document of the
    first stored again at the last; an empty array, an array holding
    a string next to a Document, and an array of strings. *)
Definition sampleHeap : heap :=
  list_to_map
    [ (1%positive, OCorpus (VRef 2));
      (2%positive, OArray [VRef 3; VRef 4; VRef 3]);
      (3%positive, ODoc (Doc "Hello, World! 42" (VRef 5)));
      (4%positive, ODoc (Doc ("line one" +:+ String "013" (String "010" "line 2"))
                             (VRef 6)));
      (5%positive, OObject ∅);
      (6%positive, OObject ∅);
      (7%positive, OArray []);
      (8%positive, OArray [VString "a"; VRef 3]);
      (9%positive, OArray [VString "x"; VString "y"]) ].

(** * Properties *)

(** ** Strings *)

Lemma chars_str l : chars (str l) = l.
Proof. apply list_ascii_of_string_of_list_ascii. Qed.
Lemma str_chars s : str (chars s) = s.
Proof. apply string_of_list_ascii_of_string. Qed.

Lemma trimStart_headOk s : headOk (trimStart s).
Proof. induction s as [|c s IH]; simpl; [done|]. destruct (isWhiteSpace c) eqn:E; [done|]. simpl. done. Qed.

Lemma trimStart_id s : headOk s → trimStart s = s.
Proof. destruct s as [|c s]; simpl; [done|]. intros ->. done. Qed.

Lemma trimStart_suffix s : ∃ ws, s = ws ++ trimStart s ∧ Forall (λ c, isWhiteSpace c = true) ws.
Proof.
  induction s as [|c s (ws & Hs & Hws)]; simpl.
  - exists []. split; [done|constructor].
  - destruct (isWhiteSpace c) eqn:E.
    + exists (c :: ws). split; [simpl; congruence|by constructor].
    + exists []. split; [done|constructor].
Qed.

Lemma trimEnd_prefix s : ∃ ws, s = trimEnd s ++ ws ∧ Forall (λ c, isWhiteSpace c = true) ws.
Proof.
  unfold trimEnd. destruct (trimStart_suffix (rev s)) as (ws & Hs & Hws).
  exists (rev ws). split.
  - rewrite <- rev_app_distr, <- Hs. by rewrite rev_involutive.
  - by apply Forall_rev.
Qed.

Lemma trimEnd_headOk s : headOk s → headOk (trimEnd s).
Proof.
  intros H. destruct (trimEnd_prefix s) as (ws & Hs & _).
  destruct (trimEnd s) as [|c u] eqn:E; [done|].
  rewrite Hs in H. done.
Qed.

Lemma trimEnd_id s : headOk (rev s) → trimEnd s = s.
Proof. intros H. unfold trimEnd. rewrite trimStart_id by done. apply rev_involutive. Qed.

Lemma trimEnd_lastOk s : headOk (rev (trimEnd s)).
Proof. unfold trimEnd. rewrite rev_involutive. apply trimStart_headOk. Qed.

Lemma trimChars_idem s : trimChars (trimChars s) = trimChars s.
Proof.
  unfold trimChars at 1.
  rewrite (trimStart_id (trimChars s)).
  - apply trimEnd_id, trimEnd_lastOk.
  - apply trimEnd_headOk, trimStart_headOk.
Qed.

Lemma trim_idem s : trim (trim s) = trim s.
Proof. unfold trim, lift. by rewrite chars_str, trimChars_idem. Qed.

(** ** Patterns

    The equations of the matcher and of the scan; then what a match
    cannot do: reach into a stretch of text without the characters of
    the class its pattern starts or ends with. *)

Lemma matchLen_nil_eq s : matchLen [] s = Some 0.
Proof. done. Qed.
Lemma matchLen_One_nil p r : matchLen (One p :: r) [] = None.
Proof. done. Qed.
Lemma matchLen_One_cons p r c s :
  matchLen (One p :: r) (c :: s) = if p c then S <$> matchLen r s else None.
Proof. done. Qed.
Lemma matchLen_Many1_nil p r : matchLen (Many1 p :: r) [] = None.
Proof. done. Qed.
Lemma matchLen_Many1_cons p r c s :
  matchLen (Many1 p :: r) (c :: s) =
  if p c then
    match matchLen (Many1 p :: r) s with
    | Some n => Some (S n)
    | None => S <$> matchLen r s
    end
  else None.
Proof. done. Qed.

Lemma matchLen_empty r : r ≠ [] → matchLen r [] = None.
Proof. by destruct r as [|[] r]. Qed.

Lemma matchLen_le r s n : matchLen r s = Some n → n ≤ length s.
Proof.
  revert s n. induction r as [|[p|p] r IH]; intros s n.
  - intros [= <-]. lia.
  - destruct s as [|c s]; [done|]. rewrite matchLen_One_cons.
    destruct (p c); [|done]. destruct (matchLen r s) eqn:E; [|done].
    intros [= <-]. apply IH in E. simpl. lia.
  - revert n. induction s as [|c s IHs]; intros n; [done|].
    rewrite matchLen_Many1_cons. destruct (p c); [|done].
    destruct (matchLen (Many1 p :: r) s) eqn:E1.
    + intros [= <-]. specialize (IHs _ eq_refl). simpl. lia.
    + destruct (matchLen r s) eqn:E; [|done].
      intros [= <-]. apply IH in E. simpl. lia.
Qed.

Lemma matchLen_first r c s :
  r ≠ [] → firstClass r c = false → matchLen r (c :: s) = None.
Proof.
  destruct r as [|[p|p] r]; [done|..]; simpl; intros _ H.
  - by rewrite H.
  - by rewrite H.
Qed.

Lemma lastClass_cons a r : r ≠ [] → lastClass (a :: r) = lastClass r.
Proof. unfold lastClass. destruct r; [done|]. done. Qed.

Lemma matchLen_free r u :
  r ≠ [] → free (lastClass r) u → matchLen r u = None.
Proof.
  revert u. induction r as [|a r IH]; [done|]. intros u _.
  destruct (decide (r = [])) as [->|Hr].
  - intros Hu. destruct a as [p|p]; unfold lastClass in Hu; simpl in Hu.
    + destruct Hu as [|c u Hc _]; [done|]. rewrite matchLen_One_cons. by rewrite Hc.
    + destruct Hu as [|c u Hc _]; [done|]. rewrite matchLen_Many1_cons. by rewrite Hc.
  - rewrite lastClass_cons by done. destruct a as [p|p].
    + destruct 1 as [|c u Hc Hu]; [done|]. rewrite matchLen_One_cons.
      rewrite (IH u) by done. by destruct (p c).
    + induction 1 as [|c u Hc Hu IHu]; [done|]. rewrite matchLen_Many1_cons.
      rewrite IHu, (IH u) by done. by destruct (p c).
Qed.

Lemma matchLen_app r s u :
  r ≠ [] → free (lastClass r) u → matchLen r (s ++ u) = matchLen r s.
Proof.
  intros Hr Hu. revert s Hr Hu. induction r as [|a r IH]; [done|]. intros s _ Hu.
  destruct s as [|c s].
  { change ([] ++ u) with u. rewrite matchLen_free by done. by rewrite matchLen_empty. }
  destruct (decide (r = [])) as [->|Hr].
  - destruct a as [p|p].
    + simpl. done.
    + revert c. induction s as [|c' s IHs]; intros c.
      * simpl app. rewrite !matchLen_Many1_cons. rewrite (matchLen_free _ u) by done. done.
      * change ((c :: c' :: s) ++ u) with (c :: (c' :: s) ++ u).
        rewrite (matchLen_Many1_cons p [] c), (matchLen_Many1_cons p [] c (c' :: s)).
        rewrite IHs. done.
  - rewrite lastClass_cons in Hu by done. destruct a as [p|p].
    + change ((c :: s) ++ u) with (c :: s ++ u). rewrite !matchLen_One_cons.
      by rewrite IH.
    + revert c. induction s as [|c' s IHs]; intros c.
      * simpl app. rewrite !matchLen_Many1_cons.
        rewrite (matchLen_free (Many1 p :: r) u); [|done|by rewrite lastClass_cons].
        rewrite (matchLen_free r u) by done.
        rewrite matchLen_Many1_nil, (matchLen_empty r) by done. done.
      * change ((c :: c' :: s) ++ u) with (c :: (c' :: s) ++ u).
        rewrite (matchLen_Many1_cons p r c), (matchLen_Many1_cons p r c (c' :: s)).
        rewrite IHs. rewrite (IH (c' :: s)) by done. done.
Qed.

(** Equations of the scan. *)
Lemma replaceFrom_skip r rep k c s :
  replaceFrom r rep (S k) (c :: s) = replaceFrom r rep k s.
Proof. done. Qed.
Lemma replaceFrom_cons r rep c s :
  replaceFrom r rep 0 (c :: s) =
  match matchLen r (c :: s) with
  | Some (S n) => rep ++ replaceFrom r rep n s
  | Some 0 => rep ++ c :: replaceFrom r rep 0 s
  | None => c :: replaceFrom r rep 0 s
  end.
Proof. done. Qed.
Lemma replaceFrom_nil r rep k : r ≠ [] → replaceFrom r rep k [] = [].
Proof. intros Hr. simpl. by rewrite matchLen_empty. Qed.

Lemma replaceFrom_prefix r rep u s :
  r ≠ [] → free (firstClass r) u →
  replaceFrom r rep 0 (u ++ s) = u ++ replaceFrom r rep 0 s.
Proof.
  intros Hr. induction 1 as [|c u Hc Hu IH]; [done|].
  change ((c :: u) ++ s) with (c :: u ++ s). rewrite replaceFrom_cons.
  rewrite matchLen_first by done. simpl. by rewrite IH.
Qed.

Lemma replaceFrom_free r rep u :
  r ≠ [] → free (lastClass r) u → replaceFrom r rep 0 u = u.
Proof.
  intros Hr. induction 1 as [|c u Hc Hu IH].
  - by apply replaceFrom_nil.
  - rewrite replaceFrom_cons. rewrite (matchLen_free r (c :: u)); [|done|by constructor].
    by rewrite IH.
Qed.

Lemma replaceFrom_suffix r rep k s u :
  r ≠ [] → free (lastClass r) u → k ≤ length s →
  replaceFrom r rep k (s ++ u) = replaceFrom r rep k s ++ u.
Proof.
  intros Hr Hu. revert k. induction s as [|c s IH]; intros k Hk.
  - simpl in Hk. replace k with 0 by lia. change ([] ++ u) with u.
    rewrite replaceFrom_free, replaceFrom_nil by done. done.
  - change ((c :: s) ++ u) with (c :: s ++ u). destruct k as [|k].
    + rewrite !replaceFrom_cons.
      change (c :: s ++ u) with ((c :: s) ++ u). rewrite matchLen_app by done.
      destruct (matchLen r (c :: s)) as [[|n]|] eqn:E.
      * rewrite IH by lia. by rewrite <- app_assoc.
      * apply matchLen_le in E. simpl in E. rewrite IH by lia. by rewrite <- app_assoc.
      * rewrite IH by lia. done.
    + rewrite !replaceFrom_skip. simpl in Hk. apply IH. lia.
Qed.

Lemma free_delim_white u : free isDelim u → free isWhiteSpace u.
Proof.
  unfold free. intros H. eapply Forall_impl; [exact H|].
  intros c. unfold isDelim. by intros [? _]%orb_false_elim.
Qed.

Lemma wordRegExp_first ci w : firstClass (wordRegExp ci w) = isDelim.
Proof. done. Qed.
Lemma wordRegExp_last ci w : lastClass (wordRegExp ci w) = isDelim.
Proof.
  unfold lastClass, wordRegExp. rewrite app_comm_cons, last_snoc. done.
Qed.
Lemma wordRegExp_nonempty ci w : wordRegExp ci w ≠ [].
Proof. done. Qed.

Lemma stripWord_startsWith ci w u t :
  delimFree u → startsWith u t → startsWith u (stripWord ci w t).
Proof.
  intros Hu [r Hr]. unfold startsWith, stripWord, lift, replaceAll.
  rewrite chars_str, Hr, replaceFrom_prefix; [|done|by rewrite wordRegExp_first].
  by eexists.
Qed.

Lemma stripWord_endsWith ci w u t :
  delimFree u → endsWith u t → endsWith u (stripWord ci w t).
Proof.
  intros Hu [r Hr]. unfold endsWith, stripWord, lift, replaceAll.
  rewrite chars_str, Hr, replaceFrom_suffix; [|done|by rewrite wordRegExp_last|lia].
  by eexists.
Qed.

Lemma trimStart_app a b : headOk b → ∃ a', trimStart (a ++ b) = a' ++ b.
Proof.
  intros Hb. induction a as [|c a [a' IH]].
  - exists []. simpl. by apply trimStart_id.
  - simpl. destruct (isWhiteSpace c).
    + by exists a'.
    + by exists (c :: a).
Qed.

Lemma free_headOk u : free isWhiteSpace u → headOk u.
Proof. by destruct 1. Qed.
Lemma free_rev p u : free p u → free p (rev u).
Proof. apply Forall_rev. Qed.

Lemma trimChars_prefix u r :
  free isWhiteSpace u → ∃ r', trimChars (u ++ r) = u ++ r'.
Proof.
  intros Hu. destruct u as [|c u].
  { by eexists. }
  unfold trimChars. rewrite (trimStart_id ((c :: u) ++ r)).
  2:{ simpl. by inversion Hu. }
  unfold trimEnd. rewrite rev_app_distr.
  destruct (trimStart_app (rev r) (rev (c :: u))) as [a' ->].
  { by apply free_headOk, free_rev. }
  rewrite rev_app_distr, rev_involutive. by eexists.
Qed.

Lemma trimChars_suffix u r :
  free isWhiteSpace u → ∃ r', trimChars (r ++ u) = r' ++ u.
Proof.
  intros Hu. destruct (decide (u = [])) as [->|Hne].
  { exists (trimChars (r ++ [])). symmetry. apply app_nil_r. }
  unfold trimChars.
  destruct (trimStart_app r u) as [a' ->]; [by apply free_headOk|].
  exists a'. apply trimEnd_id. rewrite rev_app_distr.
  pose proof (free_rev _ _ Hu) as Hr.
  destruct (rev u) as [|c ru] eqn:E.
  { apply (f_equal (@rev _)) in E. rewrite rev_involutive in E. done. }
  simpl. by inversion Hr.
Qed.

Lemma clean_startsWith u t :
  delimFree u → startsWith u t → startsWith u (clean t).
Proof.
  intros Hu%free_delim_white [r Hr]. unfold startsWith, clean, lift, cleanChars, replaceAll.
  rewrite chars_str, Hr. destruct (trimChars_prefix _ r Hu) as [r' ->].
  rewrite replaceFrom_prefix by done. by eexists.
Qed.

Lemma clean_endsWith u t :
  delimFree u → endsWith u t → endsWith u (clean t).
Proof.
  intros Hu%free_delim_white [r Hr]. unfold endsWith, clean, lift, cleanChars, replaceAll.
  rewrite chars_str, Hr. destruct (trimChars_suffix _ r Hu) as [r' ->].
  rewrite replaceFrom_suffix; [|done|done|lia]. by eexists.
Qed.

(** *** The regions [removeWords] deletes *)

Lemma matchLen_Many1_inv p r s n :
  matchLen (Many1 p :: r) s = Some n →
  ∃ ds rest m, s = ds ++ rest ∧ ds ≠ [] ∧ Forall (λ c, p c = true) ds ∧
    matchLen r rest = Some m ∧ n = length ds + m.
Proof.
  revert n. induction s as [|c s IH]; intros n; [done|].
  rewrite matchLen_Many1_cons. destruct (p c) eqn:Hc; [|done].
  destruct (matchLen (Many1 p :: r) s) as [k|] eqn:E.
  - intros [= <-]. destruct (IH _ eq_refl) as (ds & rest & m & -> & _ & Hds & Hm & ->).
    exists (c :: ds), rest, m. repeat split; [done|by constructor|done].
  - destruct (matchLen r s) as [m|] eqn:Em; [|done]. intros [= <-].
    exists [c], s, m. repeat split; [done|by repeat constructor|done].
Qed.

(** In a plain word no character is a period. *)
Lemma wordChar_plain ci c :
  isSyntaxChar c = false →
  wordChar ci c = One (λ x, if ci then canonicalize x =? canonicalize c
                            else Ascii.eqb x c).
Proof.
  intros Hc. unfold wordChar. destruct (Ascii.eqb_spec c ".") as [->|_]; [|done].
  by vm_compute in Hc.
Qed.

Lemma plainWord_simpleWord w : plainWord w = true → simpleWord w = true.
Proof.
  unfold plainWord, simpleWord. induction (chars w) as [|c s IH]; [done|].
  simpl. intros [Hc Hs]%andb_true_iff. rewrite Hc, orb_true_r. by apply IH.
Qed.

Lemma matchLen_word_inv ci w s m :
  forallb (λ c, negb (isSyntaxChar c)) w = true →
  matchLen (List.map (wordChar ci) w ++ [One isDelim]) s = Some m →
  ∃ w' d rest, s = w' ++ d :: rest ∧ Forall2 (sameChar ci) w w' ∧
    isDelim d = true ∧ m = length w' + 1.
Proof.
  revert s m. induction w as [|c w IH]; intros s m Hplain.
  - simpl List.map. change ([] ++ [One isDelim]) with [One isDelim].
    destruct s as [|d rest]; [done|]. rewrite matchLen_One_cons.
    destruct (isDelim d) eqn:Hd; [|done]. intros [= <-].
    exists [], d, rest. repeat split; [constructor|done].
  - change (List.map (wordChar ci) (c :: w) ++ [One isDelim])
      with (wordChar ci c :: (List.map (wordChar ci) w ++ [One isDelim])).
    simpl in Hplain. apply andb_true_iff in Hplain as [Hc%negb_true_iff Hplain].
    rewrite (wordChar_plain ci c Hc).
    destruct s as [|x s]; [done|]. rewrite matchLen_One_cons.
    destruct (if ci then canonicalize x =? canonicalize c else Ascii.eqb x c) eqn:Hx; [|done].
    destruct (matchLen _ s) as [k|] eqn:E; [|done]. intros [= <-].
    destruct (IH _ _ Hplain E) as (w' & d & rest & -> & Hw & Hd & ->).
    exists (x :: w'), d, rest. repeat split; [|done].
    constructor; [|done]. unfold sameChar. destruct ci.
    + by apply Nat.eqb_eq.
    + by apply Ascii.eqb_eq.
Qed.

Lemma replaceFrom_drop r rep k s :
  r ≠ [] → k ≤ length s →
  replaceFrom r rep k s = replaceFrom r rep 0 (drop k s).
Proof.
  intros Hr. revert k. induction s as [|c s IH]; intros k Hk.
  - by rewrite drop_nil, !replaceFrom_nil.
  - destruct k as [|k]; [done|]. rewrite replaceFrom_skip. simpl in *. apply IH. lia.
Qed.

Lemma replaceAll_erases ci w s :
  plainWord w = true →
  erases ci (chars w) s (replaceAll (wordRegExp ci w) [] s).
Proof.
  intros Hplain. unfold replaceAll.
  remember (length s) as n eqn:Hn. revert s Hn.
  induction (lt_wf n) as [n _ IH]. intros s Hn.
  destruct s as [|c s].
  { rewrite replaceFrom_nil by done. constructor. }
  rewrite replaceFrom_cons.
  destruct (matchLen (wordRegExp ci w) (c :: s)) as [k|] eqn:E.
  - unfold wordRegExp in E.
    apply matchLen_Many1_inv in E as (ds & rest & m & Hs & Hne & Hds & Hm & ->).
    apply matchLen_word_inv in Hm as (w' & d & rest' & -> & Hw & Hd & ->); [|done].
    destruct (length ds + (length w' + 1)) as [|k] eqn:Hk; [lia|].
    change ([] ++ ?x) with x.
    assert (length (c :: s) = S k + length rest') as Hlen.
    { rewrite Hs, !length_app. simpl. lia. }
    rewrite replaceFrom_drop; [|done|simpl in Hlen; lia].
    change (drop k s) with (drop (S k) (c :: s)).
    rewrite Hs at 2.
    replace (ds ++ w' ++ d :: rest') with ((ds ++ w' ++ [d]) ++ rest')
      by (by rewrite <- !app_assoc).
    rewrite drop_app_length' by (rewrite !length_app; simpl; lia).
    rewrite Hs. apply erases_region; try done.
    eapply IH; [|done]. rewrite Hn, Hlen. lia.
  - constructor. eapply IH; [|done]. subst n. simpl. lia.
Qed.

(** ** Running a method

    A bind steps over a computation whose result is known; a loop is
    followed with an invariant of the heap. *)

Section monad.
Context {A B : Type}.
Implicit Types (m : M A) (k : A → M B) (h : heap).

Lemma bind_Return m k h a h' :
  m h = (Return a, h') → (m ≫= k) h = k a h'.
Proof. unfold mbind, M_bind. by intros ->. Qed.

End monad.

Lemma forRange_inv (Inv : nat → heap → Prop) body i n h :
  Inv i h →
  (∀ j H, i ≤ j < i + n → Inv j H →
     ∃ H', body j H = (Return (), H') ∧ Inv (S j) H') →
  ∃ h', forRange i n body h = (Return (), h') ∧ Inv (i + n) h'.
Proof.
  revert i h. induction n as [|n IH]; intros i h Hi Hstep.
  - exists h. rewrite Nat.add_0_r. done.
  - destruct (Hstep i h) as (H' & Hb & HI); [lia|done|].
    destruct (IH (S i) H') as (h' & Hr & HI'); [done| |].
    { intros j H ? ?. apply Hstep; [lia|done]. }
    exists h'. split.
    + simpl. erewrite bind_Return by exact Hb. done.
    + by replace (i + S n) with (S i + n) by lia.
Qed.

(** What each access does on a heap of the expected form. *)
Section primitives.
Implicit Types (h : heap) (l : loc) (v : value).

Lemma load_run h l o : h !! l = Some o → load (VRef l) h = (Return (l, o), h).
Proof. unfold load. by intros ->. Qed.

Lemma documentsOf_run h c v :
  h !! c = Some (OCorpus v) → documentsOf c h = (Return v, h).
Proof.
  intros Hc. unfold documentsOf. erewrite bind_Return by by apply load_run. done.
Qed.

Lemma lengthOf_run h v xs :
  arrayLike h v = Some xs → lengthOf v h = (Return (length xs), h).
Proof. intros Hv. unfold lengthOf, getHeap, mbind, M_bind. by rewrite Hv. Qed.

Lemma index_run h v xs i :
  arrayLike h v = Some xs → index v i h = (Return (default VUndefined (xs !! i)), h).
Proof. intros Hv. unfold index, getHeap, mbind, M_bind. by rewrite Hv. Qed.

Lemma arrayLike_array h l xs :
  h !! l = Some (OArray xs) → arrayLike h (VRef l) = Some xs.
Proof. unfold arrayLike. by intros ->. Qed.

Lemma nDocs_run h c v xs :
  h !! c = Some (OCorpus v) → arrayLike h v = Some xs →
  nDocs c h = (Return (length xs), h).
Proof.
  intros Hc Hv. unfold nDocs.
  erewrite bind_Return by by apply documentsOf_run.
  by apply lengthOf_run.
Qed.

Lemma getDoc_run h l d :
  h !! l = Some (ODoc d) → getDoc (VRef l) h = (Return (l, d), h).
Proof. intros Hl. unfold getDoc. erewrite bind_Return by by apply load_run. done. Qed.

Lemma setText_run h l d s :
  h !! l = Some (ODoc d) →
  setText (VRef l) s h = (Return (), <[l:=ODoc (Doc s (attributes d))]> h).
Proof. intros Hl. unfold setText. erewrite bind_Return by by apply getDoc_run. done. Qed.

Lemma setAttrs_run h l d a :
  h !! l = Some (ODoc d) →
  setAttrs (VRef l) a h = (Return (), <[l:=ODoc (Doc (text d) a)]> h).
Proof. intros Hl. unfold setAttrs. erewrite bind_Return by by apply getDoc_run. done. Qed.

Lemma arraySet_run h l xs i x :
  h !! l = Some (OArray xs) →
  arraySet l i x h = (Return (), <[l:=OArray (<[i:=x]> xs)]> h).
Proof. intros Hl. unfold arraySet. erewrite bind_Return by by apply load_run. done. Qed.

Lemma push_run h l xs x :
  h !! l = Some (OArray xs) →
  push (VRef l) x h = (Return (), <[l:=OArray (xs ++ [x])]> h).
Proof. intros Hl. unfold push. erewrite bind_Return by by apply load_run. done. Qed.

Lemma alloc_run h o :
  alloc o h = (Return (fresh (dom h)), <[fresh (dom h):=o]> h).
Proof. done. Qed.

Lemma fresh_lookup h : h !! fresh (dom h) = None.
Proof. apply not_elem_of_dom, is_fresh. Qed.

Lemma docAt_Some h l d : docAt h (VRef l) = Some d ↔ h !! l = Some (ODoc d).
Proof.
  unfold docAt. destruct (h !! l) as [[]|]; split; intros; simplify_eq; done.
Qed.
Lemma getHeap_run h : getHeap h = (Return h, h).
Proof. done. Qed.

Lemma toStr_run h s : Corpus.toStr (VString s) h = (Return s, h).
Proof. done. Qed.

Lemma isDoc_true h l d : h !! l = Some (ODoc d) → isDoc h (VRef l) = true.
Proof. intros Hl. unfold isDoc, isObject. by rewrite Hl. Qed.

Lemma docsOf_run h c v xs :
  h !! c = Some (OCorpus v) → arrayLike h v = Some xs → docsOf h c = Some xs.
Proof. unfold docsOf. by intros ->. Qed.

Lemma fresh_ne (h : heap) l : l ∈ dom h → fresh (dom h) ≠ l.
Proof. intros Hl E. rewrite <- E in Hl. by apply is_fresh in Hl. Qed.

Lemma not_elem_of_dom_ne (h : heap) l l' o : l ∉ dom h → h !! l' = Some o → l ≠ l'.
Proof. intros Hl Hl' ->. apply Hl. by apply elem_of_dom. Qed.

End primitives.

Lemma corpusAt_lookup h c a ds i d :
  corpusAt h c a ds → ds !! i = Some d → ∃ doc, h !! d = Some (ODoc doc).
Proof.
  intros [_ _ Hd] Hi. rewrite Forall_lookup in Hd.
  destruct (Hd _ _ Hi) as [doc Hdoc]. exists doc. by apply docAt_Some.
Qed.

Lemma corpusAt_nDocs h c a ds :
  corpusAt h c a ds → nDocs c h = (Return (length ds), h).
Proof.
  intros [Hc Ha _]. erewrite nDocs_run; [|done|by apply arrayLike_array].
  by rewrite length_fmap.
Qed.

Lemma newCorpus_empty_run h :
  let ret := fresh (dom h) in
  let ra := fresh (dom (<[ret:=OCorpus VUndefined]> h)) in
  Corpus.newCorpus VUndefined h =
    (Return ret, <[ret:=OCorpus (VRef ra)]> (<[ra:=OArray []]> (<[ret:=OCorpus VUndefined]> h))).
Proof. done. Qed.

Lemma newDoc_run (h : heap) s :
  let a := fresh (dom h) in
  let d := fresh (dom (<[a:=OObject ∅]> h)) in
  Corpus.newDoc s h =
    (Return (VRef d), <[d:=ODoc (Doc s (VRef a))]> (<[a:=OObject ∅]> h)).
Proof. done. Qed.

(** ** apply and the operations built on it *)

Lemma textAfter_snoc f l i ds d t a :
  textAfter f l i (ds ++ [d]) t a =
  if decide (d = l) then f (textAfter f l i ds t a) a (i + length ds)
  else textAfter f l i ds t a.
Proof.
  revert i t. induction ds as [|d' ds IH]; intros i t; simpl.
  - by rewrite Nat.add_0_r.
  - rewrite IH. by replace (S i + length ds) with (i + S (length ds)) by lia.
Qed.

Lemma textAfter_notin f l i ds t a : l ∉ ds → textAfter f l i ds t a = t.
Proof.
  revert i t. induction ds as [|d ds IH]; intros i t Hl; simpl; [done|].
  apply not_elem_of_cons in Hl as [? ?]. rewrite decide_False by done. by apply IH.
Qed.

Lemma retext_id o : retext (λ t _, t) o = o.
Proof. by destruct o as [[]| | |]. Qed.

Lemma corpusAt_retext h h' c a ds (g : loc → string → value → string) :
  corpusAt h c a ds →
  (∀ l, h' !! l = retext (g l) <$> h !! l) →
  corpusAt h' c a ds.
Proof.
  intros [Hc Ha Hd] Hh. split.
  - by rewrite Hh, Hc.
  - by rewrite Hh, Ha.
  - eapply Forall_impl; [exact Hd|]. intros d [doc Hdoc%docAt_Some].
    eexists. apply docAt_Some. rewrite Hh, Hdoc. done.
Qed.

(** One step of a loop that rewrites the text of [documents[j]]: the
    heap stays the initial one with the texts rewritten at the
    positions passed so far. *)
Lemma retext_step_on (On : loc → Prop) f (h : heap) c a ds j d (H : heap) :
  corpusAt h c a ds → ds !! j = Some d → On d →
  (∀ l, On l → H !! l = retext (textAfter f l 0 (take j ds)) <$> h !! l) →
  ∃ doc, H !! d = Some (ODoc doc) ∧
    ∀ l, On l →
      <[d:=ODoc (Doc (f (text doc) (attributes doc) j) (attributes doc))]> H !! l
      = retext (textAfter f l 0 (take (S j) ds)) <$> h !! l.
Proof.
  intros Hwf Hd HSd Hinv.
  destruct (corpusAt_lookup _ _ _ _ _ _ Hwf Hd) as [doc Hdoc].
  eexists. split; [by rewrite Hinv, Hdoc|].
  intros l HSl. rewrite (take_S_r _ _ _ Hd).
  assert (j < length ds) by by eapply lookup_lt_Some.
  destruct (decide (d = l)) as [->|Hdl].
  - rewrite lookup_insert_eq, Hdoc. simpl. rewrite textAfter_snoc.
    rewrite decide_True by done. rewrite length_take_le by lia. done.
  - rewrite lookup_insert_ne, Hinv by done.
    destruct (h !! l) as [[]|]; simpl; try done.
    rewrite textAfter_snoc. by rewrite decide_False.
Qed.

Lemma retext_step f (h : heap) c a ds j d (H : heap) :
  corpusAt h c a ds → ds !! j = Some d →
  (∀ l, H !! l = retext (textAfter f l 0 (take j ds)) <$> h !! l) →
  ∃ doc, H !! d = Some (ODoc doc) ∧
    ∀ l, <[d:=ODoc (Doc (f (text doc) (attributes doc) j) (attributes doc))]> H !! l
         = retext (textAfter f l 0 (take (S j) ds)) <$> h !! l.
Proof.
  intros Hwf Hd Hinv.
  destruct (retext_step_on (λ _, True) f h c a ds j d H Hwf Hd I)
    as (doc & HHd & Hnext); [by intros l _|].
  exists doc. split; [done|]. intros l. by apply Hnext.
Qed.

Lemma retext_take0 f (ds : list loc) (h : heap) l :
  h !! l = retext (textAfter f l 0 (take 0 ds)) <$> h !! l.
Proof. simpl. destruct (h !! l) as [o|]; [|done]. simpl. by rewrite retext_id. Qed.

Lemma apply_spec f h c a ds :
  corpusAt h c a ds →
  ∃ h', Corpus.apply c f h = (Return (VRef c), h') ∧
        ∀ l, h' !! l = retext (textAfter f l 0 ds) <$> h !! l.
Proof.
  intros Hwf.
  remember (Corpus.apply c f h) as r eqn:Hr. unfold Corpus.apply in Hr.
  erewrite bind_Return in Hr by by eapply corpusAt_nDocs.
  edestruct (forRange_inv
    (λ j H, ∀ l, H !! l = retext (textAfter f l 0 (take j ds)) <$> h !! l))
    as (h' & Hrun & Hinv);
    [by apply retext_take0| |erewrite bind_Return in Hr by exact Hrun].
  - intros j H [_ Hj] Hinv. simpl in Hj.
    destruct (lookup_lt_is_Some_2 ds j Hj) as [d Hd].
    destruct (retext_step f _ _ _ _ _ _ _ Hwf Hd Hinv) as (doc & HHd & Hnext).
    pose proof (corpusAt_retext _ _ _ _ _ _ Hwf Hinv) as [Hc Ha _].
    assert (a ≠ d) as Had by (intros ->; congruence).
    erewrite bind_Return by by apply documentsOf_run.
    erewrite bind_Return by by eapply index_run, arrayLike_array.
    rewrite list_lookup_fmap, Hd.
    change (default VUndefined (VRef <$> Some d)) with (VRef d).
    rewrite (bind_Return _ _ _ _ _ (getDoc_run _ _ _ HHd)).
    erewrite bind_Return by by eapply setText_run.
    erewrite bind_Return by (apply load_run; by rewrite lookup_insert_ne).
    eexists. split.
    { apply arraySet_run. by rewrite lookup_insert_ne. }
    (* [this.documents[ i ] = doc] writes back what was read *)
    rewrite list_insert_id by by rewrite list_lookup_fmap, Hd.
    rewrite insert_id by by rewrite lookup_insert_ne.
    exact Hnext.
  - simpl in Hinv. rewrite take_ge in Hinv by lia.
    exists h'. by subst r.
Qed.

Lemma textsOf_corpusAt h c a ds :
  corpusAt h c a ds → textsOf h c = Some (textOf h <$> ds).
Proof.
  intros [Hc Ha Hd]. unfold textsOf, docsOf. rewrite Hc.
  erewrite arrayLike_array by done. simpl.
  apply mapM_Some_2, Forall2_fmap, Forall_Forall2_diag.
  eapply Forall_impl; [exact Hd|]. intros d [doc Hdoc].
  rewrite Hdoc. apply docAt_Some in Hdoc. unfold textOf. by rewrite Hdoc.
Qed.

Lemma textAfter_idem (g : string → string) l i ds t a :
  (∀ s, g (g s) = g s) → l ∈ ds →
  textAfter (λ s _ _, g s) l i ds t a = g t.
Proof.
  intros Hg. revert i t. induction ds as [|d ds IH]; intros i t Hl.
  { by apply elem_of_nil in Hl. }
  simpl. destruct (decide (d = l)) as [->|Hne].
  - destruct (decide (l ∈ ds)) as [Hin|Hnin].
    + by rewrite IH, Hg.
    + by rewrite textAfter_notin.
  - apply elem_of_cons in Hl as [->|Hl]; [done|]. by apply IH.
Qed.

(** An operation built on [apply] with a function of the text alone. *)
Lemma apply_text_spec (g : string → string) h c a ds :
  corpusAt h c a ds →
  ∃ h', Corpus.apply c (λ t _ _, g t) h = (Return (VRef c), h') ∧
        corpusAt h' c a ds ∧
        ∀ l, h' !! l = retext (textAfter (λ t _ _, g t) l 0 ds) <$> h !! l.
Proof.
  intros Hwf. destruct (apply_spec (λ t _ _, g t) _ _ _ _ Hwf) as (h' & Hrun & Hh').
  exists h'. split; [done|]. split; [|done].
  by eapply (corpusAt_retext _ _ _ _ _ (λ l, textAfter (λ t _ _, g t) l 0 ds)).
Qed.

Lemma apply_idem_texts (g : string → string) h h' c a ds :
  (∀ s, g (g s) = g s) →
  corpusAt h c a ds →
  (∀ l, h' !! l = retext (textAfter (λ t _ _, g t) l 0 ds) <$> h !! l) →
  textOf h' <$> ds = g <$> (textOf h <$> ds).
Proof.
  intros Hg Hwf Hh'. rewrite <- list_fmap_compose.
  apply list_fmap_ext. intros i d Hd. simpl.
  destruct (corpusAt_lookup _ _ _ _ _ _ Hwf Hd) as [doc Hdoc].
  unfold textOf. rewrite Hh', Hdoc. simpl.
  apply textAfter_idem; [done|]. by eapply list_elem_of_lookup_2.
Qed.

Lemma trim_run h c a ds :
  corpusAt h c a ds →
  ∃ h', Corpus.trim c h = (Return (VRef c), h') ∧ corpusAt h' c a ds ∧
        textsOf h' c = Some (JsString.trim <$> (textOf h <$> ds)).
Proof.
  intros Hwf. destruct (apply_text_spec JsString.trim _ _ _ _ Hwf) as (h' & Hrun & Hwf' & Hh').
  exists h'. split; [|split; [done|]].
  - unfold Corpus.trim. erewrite bind_Return by exact Hrun. done.
  - erewrite textsOf_corpusAt by done. f_equal.
    eapply apply_idem_texts; [apply trim_idem|done..].
Qed.

(** C8. [trim] is idempotent: on every corpus, [corpus.trim().trim()]
    leaves the documents with exactly the texts that a single
    [corpus.trim()] leaves, each the trimmed original. *)
Theorem trim_idempotent h c a ds :
  corpusAt h c a ds →
  ∃ h1 h2 ts,
    textsOf h c = Some ts ∧
    Corpus.trim c h = (Return (VRef c), h1) ∧
    Corpus.trim c h1 = (Return (VRef c), h2) ∧
    textsOf h1 c = Some (JsString.trim <$> ts) ∧
    textsOf h2 c = textsOf h1 c.
Proof.
  intros Hwf.
  destruct (trim_run _ _ _ _ Hwf) as (h1 & Hrun1 & Hwf1 & Ht1).
  destruct (trim_run _ _ _ _ Hwf1) as (h2 & Hrun2 & Hwf2 & Ht2).
  exists h1, h2, (textOf h <$> ds). repeat split; try done.
  - by eapply textsOf_corpusAt.
  - pose proof (textsOf_corpusAt _ _ _ _ Hwf1) as E.
    rewrite Ht1 in E. injection E as E.
    rewrite Ht2, Ht1, <- E. f_equal.
    rewrite <- list_fmap_compose. apply list_fmap_ext. intros ? ? _. simpl.
    apply trim_idem.
Qed.

(** ** removeWords *)

Lemma removeWords_spec h c a ds w ws ci :
  corpusAt h c a ds →
  h !! w = Some (OArray (VString <$> ws)) →
  Forall (λ s, JsString.plainWord s = true) ws →
  let b := default false ci in
  ∃ h1 h' : heap,
    Corpus.removeWords c (VRef w) (VBoolean <$> ci) h = (Return (VRef c), h') ∧
    corpusAt h' c a ds ∧
    (∀ l, h1 !! l = retext (textAfter (λ t _ _, stripWords b ws t) l 0 ds) <$> h !! l) ∧
    (∀ l, h' !! l = retext (textAfter (λ t _ _, JsString.clean t) l 0 ds) <$> h1 !! l).
Proof.
  intros Hwf Hw Hplain b.
  remember (Corpus.removeWords c (VRef w) (VBoolean <$> ci) h) as r eqn:Hr.
  unfold Corpus.removeWords in Hr.
  erewrite bind_Return in Hr by apply getHeap_run.
  assert (isArray h (VRef w) = true) as Harr.
  { unfold isArray. erewrite arrayLike_array by done. by apply bool_decide_eq_true. }
  rewrite Harr in Hr. change (negb true) with false in Hr. cbv iota in Hr.
  erewrite (bind_Return _ _ h ()) in Hr; [|by destruct ci].
  erewrite bind_Return in Hr by by eapply corpusAt_nDocs.
  set (g := λ (t : string) (_ : value) (_ : nat), stripWords b ws t).
  edestruct (forRange_inv
    (λ j H, ∀ l, H !! l = retext (textAfter g l 0 (take j ds)) <$> h !! l))
    as (h1 & Hrun & Hinv); [by apply retext_take0| |erewrite bind_Return in Hr by exact Hrun].
  - intros j H [_ Hj] Hinv. simpl in Hj.
    destruct (lookup_lt_is_Some_2 ds j Hj) as [d Hd].
    destruct (retext_step g _ _ _ _ _ _ _ Hwf Hd Hinv) as (doc & HHd & Hnext).
    pose proof (corpusAt_retext _ _ _ _ _ _ Hwf Hinv) as [Hc Ha _].
    assert (H !! w = Some (OArray (VString <$> ws))) as HHw by by rewrite Hinv, Hw.
    assert (c ≠ d) as Hcd by (intros ->; congruence).
    assert (a ≠ d) as Had by (intros ->; congruence).
    assert (w ≠ d) as Hwd by (intros ->; congruence).
    erewrite bind_Return by by eapply lengthOf_run, arrayLike_array.
    rewrite length_fmap.
    edestruct (forRange_inv
      (λ i H2, H2 = <[d:=ODoc (Doc (stripWords b (take i ws) (text doc)) (attributes doc))]> H))
      as (H' & Hrun' & Hinv'); [| |exists H'; split; [exact Hrun'|]].
    + simpl. destruct doc. by rewrite insert_id.
    + intros i H2 [_ Hi] ->. simpl in Hi.
      destruct (lookup_lt_is_Some_2 ws i Hi) as [wi Hwi].
      erewrite bind_Return
        by (eapply index_run, arrayLike_array; by rewrite lookup_insert_ne).
      rewrite list_lookup_fmap, Hwi.
      change (default VUndefined (VString <$> Some wi)) with (VString wi).
      erewrite bind_Return by apply toStr_run.
      rewrite Forall_lookup in Hplain.
      rewrite (plainWord_simpleWord _ (Hplain _ _ Hwi)). change (negb true) with false. cbv iota.
      erewrite bind_Return by (apply documentsOf_run; by rewrite lookup_insert_ne).
      erewrite bind_Return
        by (eapply index_run, arrayLike_array; by rewrite lookup_insert_ne).
      rewrite list_lookup_fmap, Hd.
      change (default VUndefined (VRef <$> Some d)) with (VRef d).
      pose proof (getDoc_run _ d _ (lookup_insert_eq H d
        (ODoc (Doc (stripWords b (take i ws) (text doc)) (attributes doc))))) as Hg.
      rewrite (bind_Return _ _ _ _ _ Hg).
      eexists. split; [by eapply setText_run, lookup_insert_eq|].
      rewrite insert_insert_eq. simpl.
      rewrite (take_S_r _ _ _ Hwi). unfold stripWords at 2. rewrite foldl_app. simpl.
      replace (match VBoolean <$> ci with Some (VBoolean b0) => b0 | _ => false end)
        with b by by destruct ci.
      done.
    + simpl in Hinv'. rewrite take_ge in Hinv' by lia. subst H'. exact Hnext.
  - simpl in Hinv. rewrite take_ge in Hinv by lia.
    pose proof (corpusAt_retext _ _ _ _ _ _ Hwf Hinv) as Hwf1.
    destruct (apply_text_spec JsString.clean _ _ _ _ Hwf1) as (h' & Hrun2 & Hwf' & Hh').
    exists h1, h'. split; [|done].
    unfold Corpus.clean in Hr.
    erewrite (bind_Return _ _ h1 (VRef c) h') in Hr; [done|].
    erewrite bind_Return by exact Hrun2. done.
Qed.

Lemma textAfter_preserves (P : string → Prop) (g : string → string) l i ds t a :
  P t → (∀ s, P s → P (g s)) → P (textAfter (λ s _ _, g s) l i ds t a).
Proof.
  intros Ht Hg. revert i t Ht. induction ds as [|d ds IH]; intros i t Ht; simpl; [done|].
  apply IH. destruct (decide (d = l)); auto.
Qed.

Lemma textAfter_fix (g : string → string) l i ds t t1 a :
  l ∈ ds → g t = t1 → g t1 = t1 → textAfter (λ s _ _, g s) l i ds t a = t1.
Proof.
  intros Hl Ht Ht1. revert i t Ht Hl. induction ds as [|d ds IH]; intros i t Ht Hl.
  { by apply elem_of_nil in Hl. }
  simpl. destruct (decide (d = l)) as [->|Hne].
  - rewrite Ht. apply (textAfter_preserves (λ s, s = t1)); [done|]. by intros s ->.
  - apply elem_of_cons in Hl as [->|Hl]; [done|]. by apply IH.
Qed.

Lemma stripWords_startsWith ci ws u t :
  delimFree u → startsWith u t → startsWith u (stripWords ci ws t).
Proof.
  intros Hu. unfold stripWords. revert t. induction ws as [|w ws IH]; intros t Ht; simpl; [done|].
  by apply IH, stripWord_startsWith.
Qed.

Lemma stripWords_endsWith ci ws u t :
  delimFree u → endsWith u t → endsWith u (stripWords ci ws t).
Proof.
  intros Hu. unfold stripWords. revert t. induction ws as [|w ws IH]; intros t Ht; simpl; [done|].
  by apply IH, stripWord_endsWith.
Qed.

(** The text [removeWords] leaves in a Document of the corpus. *)
Lemma removeWords_text h c a ds w ws ci :
  corpusAt h c a ds →
  h !! w = Some (OArray (VString <$> ws)) →
  Forall (λ s, JsString.plainWord s = true) ws →
  ∃ h' : heap,
    Corpus.removeWords c (VRef w) (VBoolean <$> ci) h = (Return (VRef c), h') ∧
    corpusAt h' c a ds ∧
    ∀ d doc, h !! d = Some (ODoc doc) →
      textOf h' d =
        textAfter (λ t _ _, JsString.clean t) d 0 ds
          (textAfter (λ t _ _, stripWords (default false ci) ws t) d 0 ds
             (text doc) (attributes doc))
          (attributes doc).
Proof.
  intros Hwf Hw Hplain.
  destruct (removeWords_spec _ _ _ _ _ _ ci Hwf Hw Hplain) as (h1 & h' & Hrun & Hwf' & H1 & H2).
  exists h'. split; [done|]. split; [done|].
  intros d doc Hd. unfold textOf. rewrite H2, H1, Hd. done.
Qed.

(** C2. On every corpus, [removeWords( ['cat'] )] turns the text
    "the cat. sat" of a document into "the sat", and leaves the text
    "a category item" of a document as it is. *)
Theorem removeWords_cat h c a ds w d doc :
  corpusAt h c a ds →
  h !! w = Some (OArray [VString "cat"]) →
  d ∈ ds → h !! d = Some (ODoc doc) →
  ∃ h' : heap,
    Corpus.removeWords c (VRef w) None h = (Return (VRef c), h') ∧
    (text doc = "the cat. sat" → textOf h' d = "the sat") ∧
    (text doc = "a category item" → textOf h' d = "a category item").
Proof.
  intros Hwf Hw Hd Hdoc.
  destruct (removeWords_text _ _ _ _ _ ["cat"] None Hwf Hw) as (h' & Hrun & _ & Htext).
  { by repeat constructor. }
  exists h'. split; [done|]. rewrite (Htext _ _ Hdoc).
  change (default false None) with false. split; intros ->.
  - rewrite (textAfter_fix (stripWords false ["cat"]) _ _ _ _ "the sat");
      [|done|by vm_compute..].
    apply textAfter_fix; [done|by vm_compute..].
  - rewrite (textAfter_fix (stripWords false ["cat"]) _ _ _ _ "a category item");
      [|done|by vm_compute..].
    apply textAfter_fix; [done|by vm_compute..].
Qed.

Lemma erases_absent w s s' x :
  x ∈ w → x ∉ s → erases false w s s' → s' = s.
Proof.
  intros Hw Hs He. induction He as [|c s s' He IH|ds w' d s s' Hne Hds Hww Hd He IH].
  - done.
  - f_equal. apply IH. intros Hin. apply Hs. by apply list_elem_of_further.
  - destruct Hs. apply Forall2_same_length_lookup in Hww as [Hlen Hww].
    apply list_elem_of_lookup in Hw as [i Hi].
    destruct (lookup_lt_is_Some_2 w' i) as [y Hy].
    { rewrite <- Hlen. by eapply lookup_lt_Some. }
    rewrite (Hww _ _ _ Hi Hy : y = x) in Hy.
    apply elem_of_app. right. apply elem_of_app. left.
    by eapply list_elem_of_lookup_2.
Qed.

(** C9. The match of [removeWords] takes its delimiters with it, for
    words without pattern syntax of their own.
    (1) What the pattern of such a word deletes from a text are
    regions made of one or more whitespace or period characters, the
    word, and one whitespace or period character.  (2) On every corpus
    and every list of such words, a text that begins with a string
    free of whitespace and periods still begins with it afterwards,
    and likewise at the end: a word at the very start or end is never
    removed.  (3) [removeWords( ['cat'] )] turns "the cat sat" into
    "thesat". *)
Theorem removeWords_consumes_delimiters :
  (∀ ci w t,
     JsString.plainWord w = true →
     erases ci (JsString.chars w) (JsString.chars t)
       (JsString.chars (JsString.stripWord ci w t))) ∧
  (∀ h c a ds w ws ci u d doc,
     corpusAt h c a ds →
     h !! w = Some (OArray (VString <$> ws)) →
     Forall (λ s, JsString.plainWord s = true) ws →
     delimFree u →
     h !! d = Some (ODoc doc) →
     ∃ h' : heap,
       Corpus.removeWords c (VRef w) (VBoolean <$> ci) h = (Return (VRef c), h') ∧
       (startsWith u (text doc) → startsWith u (textOf h' d)) ∧
       (endsWith u (text doc) → endsWith u (textOf h' d))) ∧
  textsAfter ["the cat sat"] (removeWordList ["cat"] None) = Some ["thesat"].
Proof.
  split; [|split].
  - intros ci w t Hplain. unfold JsString.stripWord, JsString.lift.
    rewrite chars_str. by apply replaceAll_erases.
  - intros h c a ds w ws ci u d doc Hwf Hw Hplain Hu Hdoc.
    destruct (removeWords_text _ _ _ _ _ _ ci Hwf Hw Hplain) as (h' & Hrun & _ & Htext).
    exists h'. split; [done|]. rewrite (Htext _ _ Hdoc). split; intros Ht.
    + apply (textAfter_preserves (startsWith u)); [|by intros; apply clean_startsWith].
      apply (textAfter_preserves (startsWith u)); [done|].
      by intros; apply stripWords_startsWith.
    + apply (textAfter_preserves (endsWith u)); [|by intros; apply clean_endsWith].
      apply (textAfter_preserves (endsWith u)); [done|].
      by intros; apply stripWords_endsWith.
  - vm_compute. reflexivity.
Qed.

(** ** map *)

Lemma map_spec f h c a ds :
  corpusAt h c a ds →
  ∃ (ret ra : loc) (h' : heap),
    Corpus.map c f h = (Return (VRef ret), h') ∧
    (ret ∉ dom h) ∧ (ra ∉ dom h) ∧
    h' !! ret = Some (OCorpus (VRef ra)) ∧
    h' !! ra = Some (OArray (VRef <$> ds)) ∧
    ∀ l, l ∈ dom h → h' !! l = retext (textAfter f l 0 ds) <$> h !! l.
Proof.
  intros Hwf.
  remember (Corpus.map c f h) as r eqn:Hr. unfold Corpus.map in Hr.
  erewrite bind_Return in Hr by apply newCorpus_empty_run.
  set (ret := fresh (dom h)) in *.
  set (h0 := <[ret:=OCorpus VUndefined]> h) in *.
  set (ra := fresh (dom h0)) in *.
  set (h1 := <[ret:=OCorpus (VRef ra)]> (<[ra:=OArray []]> h0)) in *.
  assert (ret ∉ dom h) as Hret by apply is_fresh.
  assert (ra ∉ dom h0) as Hra0 by apply is_fresh.
  assert (ra ≠ ret) as Hne.
  { intros E. apply Hra0. rewrite E. subst h0. rewrite dom_insert. set_solver. }
  assert (ra ∉ dom h) as Hra.
  { intros E. apply Hra0. subst h0. rewrite dom_insert. set_solver. }
  assert (∀ l, l ∈ dom h → h1 !! l = h !! l) as Hold.
  { intros l Hl. subst h1 h0.
    rewrite !lookup_insert_ne; [done|intros ->; done..]. }
  destruct Hwf as [Hc Ha Hds].
  assert (c ∈ dom h ∧ a ∈ dom h) as [Hcd Had] by (split; by apply elem_of_dom).
  erewrite bind_Return in Hr.
  2:{ eapply nDocs_run; [by rewrite Hold|]. eapply arrayLike_array. by rewrite Hold. }
  rewrite length_fmap in Hr.
  pose (Hwf := CorpusAt _ _ _ _ Hc Ha Hds).
  edestruct (forRange_inv
    (λ j H, H !! ret = Some (OCorpus (VRef ra)) ∧
            H !! ra = Some (OArray (VRef <$> take j ds)) ∧
            ∀ l, l ∈ dom h → H !! l = retext (textAfter f l 0 (take j ds)) <$> h !! l))
    as (h' & Hrun & Hinv); [| |erewrite bind_Return in Hr by exact Hrun].
  - split; [|split].
    + subst h1. by rewrite lookup_insert_eq.
    + subst h1. rewrite lookup_insert_ne by done. by rewrite lookup_insert_eq.
    + intros l Hl. rewrite Hold by done. pose proof (retext_take0 f ds h l) as E. done.
  - intros j H [_ Hj] (Hr1 & Hr2 & Hinv). simpl in Hj.
    destruct (lookup_lt_is_Some_2 ds j Hj) as [d Hd].
    destruct (corpusAt_lookup _ _ _ _ _ _ Hwf Hd) as [doc0 Hdoc0].
    assert (d ∈ dom h) as Hdd by by apply elem_of_dom.
    destruct (retext_step_on (λ l, l ∈ dom h) f _ _ _ _ _ _ _ Hwf Hd Hdd Hinv)
      as (doc & HHd & Hnext).
    assert (ret ≠ d ∧ ra ≠ d) as [Hretd Hrad] by (split; intros ->; done).
    erewrite bind_Return by (apply documentsOf_run; by rewrite Hinv, Hc).
    erewrite bind_Return by (eapply index_run, arrayLike_array; by rewrite Hinv, Ha).
    rewrite list_lookup_fmap, Hd.
    change (default VUndefined (VRef <$> Some d)) with (VRef d).
    rewrite (bind_Return _ _ _ _ _ (getDoc_run _ _ _ HHd)).
    erewrite bind_Return by by eapply setText_run.
    unfold Corpus.addDoc.
    erewrite bind_Return by apply getHeap_run.
    change (isString (VRef d)) with false. cbv iota.
    erewrite isDoc_true by by rewrite lookup_insert_eq.
    erewrite bind_Return by (apply documentsOf_run; by rewrite lookup_insert_ne).
    eexists. split; [apply push_run; by rewrite lookup_insert_ne|].
    split; [|split].
    + by rewrite !lookup_insert_ne.
    + rewrite lookup_insert_eq, (take_S_r _ _ _ Hd), fmap_app. done.
    + intros l Hl. rewrite lookup_insert_ne by (intros ->; done). by apply Hnext.
  - simpl in Hinv. rewrite take_ge in Hinv by lia.
    destruct Hinv as (Hr1 & Hr2 & Hinv).
    exists ret, ra, h'. by subst r.
Qed.

Lemma textAfter_once f d k ds i t a :
  ds !! i = Some d → (∀ j, j ≠ i → ds !! j ≠ Some d) →
  textAfter f d k ds t a = f t a (k + i).
Proof.
  revert k i t. induction ds as [|d0 ds IH]; intros k i t Hi Hother; [done|].
  destruct i as [|i]; simpl in *.
  - injection Hi as ->. rewrite decide_True by done. rewrite Nat.add_0_r.
    apply textAfter_notin. intros (j & Hj)%list_elem_of_lookup_1.
    by apply (Hother (S j)).
  - rewrite decide_False.
    2:{ intros ->. by apply (Hother 0). }
    rewrite (IH (S k) i); [f_equal; lia|done|].
    intros j Hj. apply (Hother (S j)). lia.
Qed.

(** C5. [map( fn )] returns a new Corpus object, distinct from the
    receiver, with the receiver's Document objects in the receiver's
    order (so the same [nDocs]); the callback's result is written into
    the [text] of each Document in place, one position after the
    other, so the receiver's documents carry the new texts too.  A
    Document stored at one position [i] only ends with
    [fn( text, attributes, i )]. *)
Theorem map_shares_documents f h c a ds :
  corpusAt h c a ds →
  ∃ (ret ra : loc) (h' : heap),
    Corpus.map c f h = (Return (VRef ret), h') ∧
    ret ≠ c ∧ (ret ∉ dom h) ∧
    corpusAt h' ret ra ds ∧ corpusAt h' c a ds ∧
    nDocs ret h' = nDocs c h' ∧
    docsOf h' ret = Some (VRef <$> ds) ∧
    textsOf h' c = textsOf h' ret ∧
    (∀ d doc, h !! d = Some (ODoc doc) →
       h' !! d = Some (ODoc (Doc (textAfter f d 0 ds (text doc) (attributes doc))
                                 (attributes doc)))) ∧
    (∀ i d doc, ds !! i = Some d → h !! d = Some (ODoc doc) →
       (∀ j, j ≠ i → ds !! j ≠ Some d) →
       textOf h' d = f (text doc) (attributes doc) i).
Proof.
  intros Hwf.
  destruct (map_spec f _ _ _ _ Hwf) as (ret & ra & h' & Hrun & Hret & Hra & Hr1 & Hr2 & Hh').
  assert (∀ d doc, h !! d = Some (ODoc doc) →
    h' !! d = Some (ODoc (Doc (textAfter f d 0 ds (text doc) (attributes doc))
                              (attributes doc)))) as Htext.
  { intros d doc Hd. rewrite Hh' by by apply elem_of_dom. by rewrite Hd. }
  assert (Forall (λ d, is_Some (docAt h' (VRef d))) ds) as Hdocs.
  { apply Forall_forall. intros d [i Hi]%list_elem_of_lookup_1.
    destruct (corpusAt_lookup _ _ _ _ _ _ Hwf Hi) as [doc Hdoc].
    eexists. apply docAt_Some. by apply Htext. }
  assert (corpusAt h' ret ra ds) as Hwf1 by done.
  assert (corpusAt h' c a ds) as Hwf2.
  { destruct Hwf as [Hc Ha _]. split; [| |done].
    - rewrite Hh' by by apply elem_of_dom. by rewrite Hc.
    - rewrite Hh' by by apply elem_of_dom. by rewrite Ha. }
  exists ret, ra, h'. split; [done|]. split.
  { eapply not_elem_of_dom_ne; [done|]. apply Hwf. }
  split; [done|]. split; [done|]. split; [done|]. split.
  { by rewrite (corpusAt_nDocs _ _ _ _ Hwf1), (corpusAt_nDocs _ _ _ _ Hwf2). }
  split.
  { unfold docsOf. rewrite Hr1. by apply arrayLike_array. }
  split.
  { by rewrite (textsOf_corpusAt _ _ _ _ Hwf1), (textsOf_corpusAt _ _ _ _ Hwf2). }
  split; [done|].
  intros i d doc Hi Hd Hother. unfold textOf. rewrite (Htext _ _ Hd). simpl.
  by rewrite (textAfter_once _ _ _ _ i).
Qed.

(** ** setAttributes *)

Lemma attrsAfter_snoc l ds xs d x a0 :
  length ds = length xs →
  attrsAfter l (ds ++ [d]) (xs ++ [x]) a0 =
  if decide (d = l) then x else attrsAfter l ds xs a0.
Proof.
  revert xs a0. induction ds as [|d' ds IH]; intros [|x' xs] a0 Hlen; simplify_eq/=; [done|].
  by apply IH.
Qed.

Lemma attrsAfter_notin l ds xs a0 : l ∉ ds → attrsAfter l ds xs a0 = a0.
Proof.
  revert xs a0. induction ds as [|d ds IH]; intros [|x xs] a0 Hl; simpl; try done.
  apply not_elem_of_cons in Hl as [? ?]. rewrite decide_False by done. by apply IH.
Qed.

Lemma attrsAfter_last d ds xs i x a0 :
  ds !! i = Some d → xs !! i = Some x →
  (∀ j, i < j → ds !! j ≠ Some d) →
  attrsAfter d ds xs a0 = x.
Proof.
  revert xs i a0. induction ds as [|d0 ds IH]; intros [|x0 xs] i a0 Hi Hx Hlater; try done.
  destruct i as [|i]; simpl in *.
  - simplify_eq. rewrite decide_True by done. apply attrsAfter_notin.
    intros (j & Hj)%list_elem_of_lookup_1. apply (Hlater (S j)); [lia|done].
  - apply (IH xs i); [done..|]. intros j Hj. apply (Hlater (S j)). lia.
Qed.

Lemma isObject_iff h v : isObject h v = true ↔ isMapping h v.
Proof.
  unfold isObject, isMapping. split.
  - destruct v as [| | | | |l]; try done.
    destruct (h !! l) as [o|] eqn:E; [|done].
    destruct o; try done; intros _; eexists _, _; by repeat split.
  - intros (l & o & -> & -> & Ho). destruct o; try done. by destruct (Ho elems).
Qed.

Lemma arrayElems_Some h v xs :
  arrayElems h v = Some xs ↔ ∃ l, v = VRef l ∧ h !! l = Some (OArray xs).
Proof.
  unfold arrayElems. split.
  - destruct v as [| | | | |l]; try done.
    destruct (h !! l) as [[]|] eqn:E; try done. intros [= ->]. by eexists.
  - by intros (l & -> & ->).
Qed.

Lemma isObjectArray_iff h arr :
  isObjectArray h arr = true ↔ ∃ xs, mappingSeq h arr xs ∧ xs ≠ [].
Proof.
  unfold isObjectArray, mappingSeq. split.
  - destruct (arrayElems h arr) as [[|x xs]|] eqn:E; [done| |done]. intros Hall.
    exists (x :: xs). split; [|done]. split; [by apply arrayElems_Some|].
    apply Forall_forall. intros y Hy. apply isObject_iff.
    rewrite forallb_forall in Hall. apply Hall. by apply list_elem_of_In.
  - intros (xs & [Harr%arrayElems_Some Hall] & Hne). rewrite Harr.
    destruct xs as [|x xs]; [done|].
    apply forallb_forall. intros y Hy%list_elem_of_In. apply isObject_iff.
    rewrite Forall_forall in Hall. by apply Hall.
Qed.

(** The empty array is no array of objects for the test. *)
Lemma setAttributes_empty h c arr :
  mappingSeq h arr [] →
  Corpus.setAttributes c arr h = (Throw InvalidArgument, h).
Proof.
  intros [Harr%arrayElems_Some _]. unfold Corpus.setAttributes.
  erewrite bind_Return by apply getHeap_run.
  unfold isObjectArray. by rewrite Harr.
Qed.

Lemma corpusAt_reattr h h' c a ds (g : loc → value → value) :
  corpusAt h c a ds →
  (∀ l, h' !! l = reattr (g l) <$> h !! l) →
  corpusAt h' c a ds.
Proof.
  intros [Hc Ha Hd] Hh. split.
  - by rewrite Hh, Hc.
  - by rewrite Hh, Ha.
  - eapply Forall_impl; [exact Hd|]. intros d [doc Hdoc%docAt_Some].
    eexists. apply docAt_Some. rewrite Hh, Hdoc. done.
Qed.

Lemma setAttributes_spec h c a ds arr xs :
  corpusAt h c a ds → mappingSeq h arr xs → xs ≠ [] →
  (length xs ≠ length ds →
     Corpus.setAttributes c arr h = (Throw LengthMismatch, h)) ∧
  (length xs = length ds →
     ∃ h' : heap, Corpus.setAttributes c arr h = (Return (VRef c), h') ∧
       ∀ l, h' !! l = reattr (attrsAfter l ds xs) <$> h !! l).
Proof.
  intros Hwf Hseq Hne.
  assert (isObjectArray h arr = true) as Hoa by (apply isObjectArray_iff; eauto).
  destruct Hseq as [(w & -> & Hw) Hxs].
  remember (Corpus.setAttributes c (VRef w) h) as r eqn:Hr.
  unfold Corpus.setAttributes in Hr.
  erewrite bind_Return in Hr by apply getHeap_run.
  rewrite Hoa in Hr. change (negb true) with false in Hr. cbv iota in Hr.
  erewrite bind_Return in Hr by by eapply lengthOf_run, arrayLike_array.
  erewrite bind_Return in Hr by by eapply corpusAt_nDocs.
  split; intros Hlen.
  - apply Nat.eqb_neq in Hlen. rewrite Hlen in Hr. done.
  - rewrite Hlen, Nat.eqb_refl in Hr. change (negb true) with false in Hr. cbv iota in Hr.
    edestruct (forRange_inv
      (λ j H, ∀ l, H !! l = reattr (attrsAfter l (take j ds) (take j xs)) <$> h !! l))
      as (h' & Hrun & Hinv); [| |erewrite bind_Return in Hr by exact Hrun].
    + intros l. simpl. by destruct (h !! l) as [[[]| | |]|].
    + intros j H [_ Hj] Hinv. simpl in Hj.
      destruct (lookup_lt_is_Some_2 ds j Hj) as [d Hd].
      destruct (lookup_lt_is_Some_2 xs j) as [x Hx]; [lia|].
      destruct (corpusAt_lookup _ _ _ _ _ _ Hwf Hd) as [doc Hdoc].
      pose proof (corpusAt_reattr _ _ _ _ _ _ Hwf Hinv) as [Hc Ha _].
      erewrite bind_Return
        by (eapply index_run, arrayLike_array; by rewrite Hinv, Hw).
      rewrite Hx. change (default VUndefined (Some x)) with x.
      erewrite bind_Return by by apply documentsOf_run.
      erewrite bind_Return by by eapply index_run, arrayLike_array.
      rewrite list_lookup_fmap, Hd.
      change (default VUndefined (VRef <$> Some d)) with (VRef d).
      eexists. split.
      { eapply setAttrs_run. by rewrite Hinv, Hdoc. }
      intros l. rewrite (take_S_r _ _ _ Hd), (take_S_r _ _ _ Hx).
      destruct (decide (d = l)) as [->|Hdl].
      * rewrite lookup_insert_eq, Hdoc. simpl. rewrite attrsAfter_snoc.
        -- by rewrite decide_True.
        -- rewrite !length_take. lia.
      * rewrite lookup_insert_ne, Hinv by done.
        destruct (h !! l) as [[]|]; simpl; try done.
        rewrite attrsAfter_snoc; [by rewrite decide_False|].
        rewrite !length_take. lia.
    + simpl in Hinv.
      rewrite (take_ge ds), (take_ge xs) in Hinv by lia.
      exists h'. by subst r.
Qed.

(** C3. [setAttributes( arr )] with a sequence of attribute mappings.
    The empty sequence raises InvalidArgument, whatever the corpus
    holds.  A sequence of one or more mappings whose length is not
    [nDocs] raises LengthMismatch.  In both cases nothing has changed.
    A sequence of one or more mappings of length [nDocs] returns the
    same corpus, and [arr[i]] has been assigned, for every position
    [i] in turn, as the whole [attributes] of [documents[i]] (the old
    attributes are gone, not merged), the texts left as they were.  So
    [documents[i].attributes] is [arr[i]] afterwards, unless the same
    Document object is stored again at a later position and was
    assigned that position's entry. *)
Theorem setAttributes_positional h c a ds arr xs :
  corpusAt h c a ds → mappingSeq h arr xs →
  (xs = [] →
     Corpus.setAttributes c arr h = (Throw InvalidArgument, h)) ∧
  (xs ≠ [] → length xs ≠ length ds →
     Corpus.setAttributes c arr h = (Throw LengthMismatch, h)) ∧
  (xs ≠ [] → length xs = length ds →
     ∃ h' : heap,
       Corpus.setAttributes c arr h = (Return (VRef c), h') ∧
       corpusAt h' c a ds ∧
       (∀ d doc, h !! d = Some (ODoc doc) →
          h' !! d = Some (ODoc (Doc (text doc)
                                    (attrsAfter d ds xs (attributes doc))))) ∧
       (∀ i d x, ds !! i = Some d → xs !! i = Some x →
          (∀ j, i < j → ds !! j ≠ Some d) →
          ∃ doc, h !! d = Some (ODoc doc) ∧
                 h' !! d = Some (ODoc (Doc (text doc) x))) ∧
       (∀ l, l ∉ ds → h' !! l = h !! l)).
Proof.
  intros Hwf Hseq. split; [|split].
  { intros ->. by apply setAttributes_empty. }
  { intros Hne. by apply (setAttributes_spec _ _ _ _ _ _ Hwf Hseq Hne). }
  intros Hne Hlen.
  destruct (setAttributes_spec _ _ _ _ _ _ Hwf Hseq Hne) as [_ Heq].
  destruct (Heq Hlen) as (h' & Hrun & Hh').
  exists h'. split; [done|]. split.
  { by apply (corpusAt_reattr h h' c a ds (λ l, attrsAfter l ds xs)). }
  split.
  { intros d doc Hd. by rewrite Hh', Hd. }
  split.
  - intros i d x Hd Hx Hlater.
    destruct (corpusAt_lookup _ _ _ _ _ _ Hwf Hd) as [doc Hdoc].
    exists doc. split; [done|]. rewrite Hh', Hdoc. simpl.
    by rewrite (attrsAfter_last _ _ _ i x).
  - intros l Hl. rewrite Hh'. destruct (h !! l) as [[[]| | |]|]; simpl; try done.
    by rewrite attrsAfter_notin.
Qed.

(** C10. [setAttributes( arr )] raises InvalidArgument whenever [arr]
    is not a sequence whose every element is a mapping; the test comes
    first, whatever the corpus and whatever the length, and the heap
    is left as it was. *)
Theorem setAttributes_type_check h c arr :
  (¬ ∃ xs, mappingSeq h arr xs) →
  Corpus.setAttributes c arr h = (Throw InvalidArgument, h).
Proof.
  intros Hno. unfold Corpus.setAttributes.
  erewrite bind_Return by apply getHeap_run.
  destruct (isObjectArray h arr) eqn:E; [|done].
  destruct Hno. apply isObjectArray_iff in E as (xs & Hseq & _). by exists xs.
Qed.

(** ** The constructor *)

Lemma forallb_pointwise {A} (f g : A → bool) l :
  (∀ x, f x = g x) → forallb f l = forallb g l.
Proof. intros E. induction l as [|x l IH]; simpl; [done|]. by rewrite E, IH. Qed.

Section fresh_corpus.
Variables (h : heap) (ret : loc) (u : value).
Hypothesis Hret : h !! ret = None.
Let h0 : heap := <[ret:=OCorpus u]> h.

Lemma arrayLike_fresh_corpus v : arrayLike h0 v = arrayLike h v.
Proof.
  destruct v as [| | | | |l]; try done. unfold arrayLike, h0.
  destruct (decide (l = ret)) as [->|Hne].
  - by rewrite lookup_insert_eq, Hret.
  - by rewrite lookup_insert_ne.
Qed.

Lemma arrayElems_fresh_corpus v : arrayElems h0 v = arrayElems h v.
Proof.
  destruct v as [| | | | |l]; try done. unfold arrayElems, h0.
  destruct (decide (l = ret)) as [->|Hne].
  - by rewrite lookup_insert_eq, Hret.
  - by rewrite lookup_insert_ne.
Qed.

Lemma isDoc_fresh_corpus v : isDoc h0 v = isDoc h v.
Proof.
  destruct v as [| | | | |l]; try done. unfold isDoc, isObject, h0.
  destruct (decide (l = ret)) as [->|Hne].
  - by rewrite lookup_insert_eq, Hret.
  - by rewrite lookup_insert_ne.
Qed.

Lemma isStringArray_fresh_corpus v : isStringArray h0 v = isStringArray h v.
Proof. unfold isStringArray. by rewrite arrayElems_fresh_corpus. Qed.

Lemma isDocArray_fresh_corpus v : isDocArray h0 v = isDocArray h v.
Proof.
  unfold isDocArray, isArray. rewrite arrayLike_fresh_corpus.
  destruct (arrayLike h v) as [xs|]; [|done].
  destruct (negb _); [done|].
  apply forallb_pointwise. intros x. apply isDoc_fresh_corpus.
Qed.
End fresh_corpus.

Lemma forallb_isString xs :
  forallb isString xs = true → ∃ ss, xs = VString <$> ss.
Proof.
  induction xs as [|x xs IH]; [by exists []|].
  simpl. intros [Hx Hall]%andb_true_iff.
  destruct (IH Hall) as [ss ->]. destruct x; try done. by exists (s :: ss).
Qed.

Lemma isStringArray_true h v :
  isStringArray h v = true →
  ∃ l ss, v = VRef l ∧ h !! l = Some (OArray (VString <$> ss)) ∧ ss ≠ [].
Proof.
  unfold isStringArray. destruct (arrayElems h v) as [[|x xs]|] eqn:E; [done| |done].
  apply arrayElems_Some in E as (l & -> & Hl). intros [ss Hss]%forallb_isString.
  exists l, ss. rewrite <- Hss. split; [done|]. split; [done|]. by intros ->.
Qed.

Lemma forallb_strings ss : forallb isString (VString <$> ss) = true.
Proof.
  apply forallb_forall. by intros x (s & -> & _)%list_elem_of_In%list_elem_of_fmap.
Qed.

Lemma isStringArray_strings h l ss :
  h !! l = Some (OArray (VString <$> ss)) → ss ≠ [] →
  isStringArray h (VRef l) = true.
Proof.
  intros Hl Hne. unfold isStringArray, arrayElems. rewrite Hl.
  destruct ss as [|s ss]; [done|]. exact (forallb_strings (s :: ss)).
Qed.

(** An array of references, and the empty array, are no arrays of
    strings for the test. *)
Lemma isStringArray_refs h w (xs : list loc) :
  h !! w = Some (OArray (VRef <$> xs)) → isStringArray h (VRef w) = false.
Proof.
  intros Hw. unfold isStringArray, arrayElems. rewrite Hw. by destruct xs.
Qed.

Lemma isDocArray_true h v :
  isDocArray h v = true ↔
  ∃ xs, arrayLike h v = Some xs ∧ Forall (λ x, isDoc h x = true) xs.
Proof.
  unfold isDocArray, isArray. split.
  - destruct (arrayLike h v) as [xs|]; [|by case_bool_decide].
    destruct (negb _); [done|]. intros Hall. exists xs. split; [done|].
    apply Forall_forall. intros x Hx. rewrite forallb_forall in Hall.
    apply Hall. by apply list_elem_of_In.
  - intros (xs & -> & Hall). rewrite bool_decide_eq_true_2 by done. simpl.
    apply forallb_forall. intros x Hx%list_elem_of_In.
    rewrite Forall_forall in Hall. by apply Hall.
Qed.


(** The paths of [init], taken after [this] was allocated. *)
Section paths.
Variable h : heap.
Let ret : loc := fresh (dom h).
Let h0 : heap := <[ret:=OCorpus VUndefined]> h.

Local Lemma ret_fresh : h !! ret = None.
Proof. apply fresh_lookup. Qed.

Local Lemma old_h0 l : l ∈ dom h → h0 !! l = h !! l.
Proof.
  intros Hl. unfold h0. rewrite lookup_insert_ne; [done|]. by apply fresh_ne.
Qed.


Lemma newCorpus_document l doc :
  h !! l = Some (ODoc doc) →
  ∃ (ga : loc) (h' : heap), Corpus.newCorpus (VRef l) h = (Return ret, h') ∧
    (∀ l, l ∈ dom h → h' !! l = h !! l) ∧
    (ga ∉ dom h) ∧
    h' !! ret = Some (OCorpus (VRef ga)) ∧
    h' !! ga = Some (OArray [VRef l]).
Proof.
  intros Hl.
  set (arr := fresh (dom h0)).
  set (h1 := <[arr:=OArray [VRef l]]> h0).
  exists arr, (<[ret:=OCorpus (VRef arr)]> h1).
  assert (l ∈ dom h) as Hld by by apply elem_of_dom.
  assert (arr ∉ dom h0) as Harr by apply is_fresh.
  assert (arr ≠ ret ∧ (arr ∉ dom h)) as [H1 H2].
  { unfold h0 in Harr. rewrite dom_insert in Harr. set_solver. }
  split.
  { unfold Corpus.newCorpus.
    erewrite bind_Return by apply alloc_run. fold ret h0.
    erewrite (bind_Return _ _ h0 () (<[ret:=OCorpus (VRef arr)]> h1)); [reflexivity|].
    unfold Corpus.init. erewrite bind_Return by apply getHeap_run.
    change (isString (VRef l)) with false. cbv iota.
    assert (isStringArray h0 (VRef l) = false) as ->.
    { unfold h0. rewrite isStringArray_fresh_corpus by apply ret_fresh.
      unfold isStringArray, arrayElems. by rewrite Hl. }
    assert (isDoc h0 (VRef l) = true) as ->.
    { unfold h0. rewrite isDoc_fresh_corpus by apply ret_fresh. by eapply isDoc_true. }
    done. }
  split; [|split; [done|split]].
  - intros l' Hl'. unfold h1. rewrite lookup_insert_ne by by apply fresh_ne.
    rewrite lookup_insert_ne; [by apply old_h0|]. by intros <-.
  - by rewrite lookup_insert_eq.
  - rewrite lookup_insert_ne by done. unfold h1. by rewrite lookup_insert_eq.
Qed.


End paths.





(** ** groupBy *)

Lemma groupOf_snoc h f k ds d :
  groupOf h f k (ds ++ [d]) =
  groupOf h f k ds ++ (if decide (keyOf h f (length ds) d = k) then [d] else []).
Proof.
  unfold groupOf, members. rewrite imap_app, filter_app, fmap_app. f_equal.
  simpl. rewrite Nat.add_0_r, filter_cons, filter_nil. simpl.
  by destruct (decide _).
Qed.

Lemma groupOf_elem h f k ds d :
  d ∈ groupOf h f k ds ↔ ∃ i, ds !! i = Some d ∧ keyOf h f i d = k.
Proof.
  unfold groupOf, members. rewrite list_elem_of_fmap. split.
  - intros ([i d'] & -> & [Hk Hin]%list_elem_of_filter).
    apply elem_of_lookup_imap in Hin as (j & x & [= -> ->] & Hj). by exists j.
  - intros (i & Hi & Hk). exists (i, d). split; [done|].
    apply list_elem_of_filter. split; [done|]. by apply elem_of_lookup_imap_2.
Qed.

Lemma imap_pair_snd {A} (g : nat → nat) (l : list A) :
  (imap (λ i x, (g i, x)) l).*2 = l.
Proof.
  revert g. induction l as [|x l IH]; intros g; [done|].
  simpl. f_equal. exact (IH (g ∘ S)).
Qed.

Lemma groupOf_sublist h f k ds : groupOf h f k ds `sublist_of` ds.
Proof.
  unfold groupOf, members. rewrite <- (imap_pair_snd id ds) at 2.
  apply fmap_sublist, sublist_filter.
Qed.

Lemma addDoc_document (H : heap) gc ga xs d doc :
  H !! gc = Some (OCorpus (VRef ga)) → H !! ga = Some (OArray xs) →
  H !! d = Some (ODoc doc) →
  Corpus.addDoc gc (VRef d) H = (Return (), <[ga:=OArray (xs ++ [VRef d])]> H).
Proof.
  intros Hgc Hga Hd. unfold Corpus.addDoc.
  erewrite bind_Return by apply getHeap_run.
  change (isString (VRef d)) with false. cbv iota.
  erewrite isDoc_true by done.
  erewrite bind_Return by by apply documentsOf_run.
  by apply push_run.
Qed.

Lemma groupBy_step h f c a ds corpora j d (H : heap) :
  corpusAt h c a ds → ordinaryKeys h f ds → corpora ∉ dom h → ds !! j = Some d →
  groupsAt h f (take j ds) corpora H →
  ∃ H' : heap,
    (ds0 ← documentsOf c;
     doc ← index ds0 j;
     '(_, d0) ← getDoc doc;
     let group := f (text d0) (attributes d0) j in
     '(_, o) ← load (VRef corpora);
     match o with
     | OObject props =>
         match props !! "hasOwnProperty" with
         | Some _ => throw TypeError
         | None =>
             if String.eqb group "__proto__" then stuck else
             match props !! group with
             | None =>
                 c0 ← Corpus.newCorpus doc;
                 store corpora (OObject (<[group:=VRef c0]> props))
             | Some (VRef c0) => Corpus.addDoc c0 doc
             | Some _ => stuck
             end
         end
     | _ => stuck
     end) H = (Return (), H') ∧
    groupsAt h f (take (S j) ds) corpora H'.
Proof.
  intros Hwf Hord Hcorp Hd (Hold & L & HL & Hnone & Hsome & Hinj).
  destruct (corpusAt_lookup _ _ _ _ _ _ Hwf Hd) as [doc Hdoc].
  destruct Hwf as [Hc Ha _].
  assert (∀ l o, h !! l = Some o → H !! l = Some o) as Hold'.
  { intros l o Hl. rewrite Hold; [done|]. by eapply elem_of_dom_2. }
  assert (j < length ds) as Hj by by eapply lookup_lt_Some.
  assert (length (take j ds) = j) as Hlen by (rewrite length_take; lia).
  set (k0 := f (text doc) (attributes doc) j).
  assert (keyOf h f j d = k0) as Hk0 by (unfold keyOf; by rewrite Hdoc).
  assert (∀ k, groupOf h f k (take (S j) ds) =
    groupOf h f k (take j ds) ++ (if decide (k0 = k) then [d] else [])) as Hsnoc.
  { intros k. by rewrite (take_S_r _ _ _ Hd), groupOf_snoc, Hlen, Hk0. }
  erewrite bind_Return by (apply documentsOf_run; eauto).
  erewrite bind_Return by (eapply index_run, arrayLike_array; eauto).
  rewrite list_lookup_fmap, Hd.
  change (default VUndefined (VRef <$> Some d)) with (VRef d).
  rewrite (bind_Return _ _ _ _ _ (getDoc_run _ _ _ (Hold' _ _ Hdoc))).
  rewrite (bind_Return _ _ _ _ _ (load_run _ _ _ HL)).
  cbv zeta. fold k0.
  assert (L !! "hasOwnProperty" = None) as Hown.
  { destruct (L !! "hasOwnProperty") as [[gc ga]|] eqn:E; [|done].
    destruct (Hsome _ _ _ E) as (_ & _ & _ & _ & Hne).
    destruct (groupOf h f "hasOwnProperty" (take j ds)) as [|x xs] eqn:Eg; [done|].
    assert (x ∈ groupOf h f "hasOwnProperty" (take j ds)) as Hx
      by (rewrite Eg; apply list_elem_of_here).
    apply groupOf_elem in Hx as (i & Hi & Hk).
    apply lookup_take_Some in Hi as [Hi _].
    destruct (Hord _ _ Hi) as [_ Hno]. by destruct Hno. }
  rewrite !lookup_fmap, Hown. simpl.
  assert (String.eqb k0 "__proto__" = false) as ->.
  { apply String.eqb_neq. rewrite <- Hk0. by destruct (Hord _ _ Hd). }
  destruct (L !! k0) as [[gc ga]|] eqn:HLk; simpl.
  - (* the group exists: the document is pushed *)
    destruct (Hsome _ _ _ HLk) as (Hgc & Hga & Hgcd & Hgad & Hne).
    erewrite addDoc_document by eauto. eexists. split; [done|].
    assert (∀ l o, H !! l = Some o → (∀ xs, o ≠ OArray xs) →
      <[ga:=OArray ((VRef <$> groupOf h f k0 (take j ds)) ++ [VRef d])]> H !! l = Some o)
      as Hkeep.
    { intros l o Hl Ho. rewrite lookup_insert_ne; [done|]. intros <-.
      rewrite Hga in Hl. injection Hl as <-. by eapply Ho. }
    split.
    { intros l Hl. rewrite lookup_insert_ne; [by apply Hold|]. by intros <-. }
    exists L. split; [by apply Hkeep|]. split; [|split; [|done]].
    + intros k Hk. rewrite Hsnoc, (Hnone _ Hk).
      rewrite decide_False; [done|]. intros <-. congruence.
    + intros k gc' ga' Hk. destruct (Hsome _ _ _ Hk) as (Hgc' & Hga' & ? & ? & Hne').
      split; [by apply Hkeep|]. split; [|split; [done|split; [done|]]].
      * rewrite Hsnoc. destruct (decide (k0 = k)) as [<-|Hkk].
        -- rewrite HLk in Hk. injection Hk as <- <-.
           by rewrite lookup_insert_eq, fmap_app.
        -- rewrite app_nil_r, lookup_insert_ne; [done|].
           intros <-. by destruct (Hkk (Hinj _ _ _ _ _ HLk Hk)).
      * rewrite Hsnoc. intros [E _]%app_eq_nil. done.
  - (* a new group *)
    destruct (newCorpus_document H d doc (Hold' _ _ Hdoc))
      as (ga & H1 & Hrun & Hold1 & Hga & Hgc1 & Hga1).
    set (gc := fresh (dom H)) in *.
    assert (gc ∉ dom H) as Hgc by apply is_fresh.
    erewrite bind_Return by exact Hrun.
    eexists. split; [done|].
    assert (corpora ∈ dom H) as HcorpH by by eapply elem_of_dom_2.
    assert (∀ l, l ∈ dom h → l ∈ dom H) as Hsub.
    { intros l Hl. apply elem_of_dom. rewrite Hold by done. by apply elem_of_dom. }
    assert (∀ l o, H !! l = Some o → l ≠ corpora →
      <[corpora:=OObject (<[k0:=VRef gc]> ((λ p, VRef p.1) <$> L))]> H1 !! l = Some o)
      as Hkeep.
    { intros l o Hl Hne. rewrite lookup_insert_ne by done.
      rewrite Hold1; [done|]. by eapply elem_of_dom_2. }
    split.
    { intros l Hl. rewrite lookup_insert_ne by (intros <-; done).
      rewrite Hold1 by auto. by apply Hold. }
    exists (<[k0:=(gc, ga)]> L). split; [|split; [|split]].
    + by rewrite lookup_insert_eq, fmap_insert.
    + intros k Hk. apply lookup_insert_None in Hk as [Hk Hne].
      rewrite Hsnoc, (Hnone _ Hk). by rewrite decide_False.
    + intros k gc' ga' Hk. rewrite Hsnoc.
      apply lookup_insert_Some in Hk as [(<- & [= <- <-])|(Hne & Hk)].
      * rewrite decide_True by done. rewrite (Hnone _ HLk). simpl.
        split; [|split; [|split; [|split; [|done]]]].
        -- rewrite lookup_insert_ne by (intros <-; done). done.
        -- rewrite lookup_insert_ne by (intros <-; done). done.
        -- intros E. by apply Hgc, Hsub.
        -- intros E. by apply Hga, Hsub.
      * rewrite decide_False, app_nil_r by done.
        destruct (Hsome _ _ _ Hk) as (Hgc' & Hga' & ? & ? & Hne').
        split; [|split; [|done]].
        -- apply Hkeep; [done|]. intros ->. congruence.
        -- apply Hkeep; [done|]. intros ->. congruence.
    + intros k1 k2 gc1 gc2 ga' [(<- & [= <- <-])|(Hne1 & Hk1)]%lookup_insert_Some
        [(<- & E2)|(Hne2 & Hk2)]%lookup_insert_Some; try done.
      * destruct (Hsome _ _ _ Hk2) as (_ & Hga' & _). destruct Hga. by eapply elem_of_dom_2.
      * injection E2 as <- <-.
        destruct (Hsome _ _ _ Hk1) as (_ & Hga' & _). destruct Hga. by eapply elem_of_dom_2.
      * by eapply Hinj.
Qed.

Lemma groupBy_spec f h c a ds :
  corpusAt h c a ds → ordinaryKeys h f ds →
  ∃ (corpora : loc) (h' : heap),
    Corpus.groupBy c f h = (Return (VRef corpora), h') ∧
    (corpora ∉ dom h) ∧
    groupsAt h f ds corpora h'.
Proof.
  intros Hwf Hord.
  remember (Corpus.groupBy c f h) as r eqn:Hr. unfold Corpus.groupBy in Hr.
  erewrite bind_Return in Hr by apply alloc_run.
  set (corpora := fresh (dom h)) in *.
  set (h0 := <[corpora:=OObject ∅]> h) in *.
  assert (corpora ∉ dom h) as Hcorp by apply is_fresh.
  assert (∀ l, l ∈ dom h → h0 !! l = h !! l) as Hold.
  { intros l Hl. unfold h0. rewrite lookup_insert_ne; [done|]. by intros <-. }
  pose proof Hwf as [Hc Ha _].
  erewrite bind_Return in Hr.
  2:{ eapply nDocs_run.
      - rewrite Hold; [done|]. by eapply elem_of_dom_2.
      - apply arrayLike_array. rewrite Hold; [done|]. by eapply elem_of_dom_2. }
  rewrite length_fmap in Hr.
  edestruct (forRange_inv (λ j H, groupsAt h f (take j ds) corpora H))
    as (h' & Hrun & Hinv); [| |erewrite bind_Return in Hr by exact Hrun].
  - split; [done|]. exists ∅. split; [|split; [|split]]; try done.
    unfold h0. by rewrite lookup_insert_eq, fmap_empty.
  - intros j H [_ Hj] Hinv. simpl in Hj.
    destruct (lookup_lt_is_Some_2 ds j Hj) as [d Hd].
    by eapply groupBy_step.
  - simpl in Hinv. rewrite take_ge in Hinv by lia.
    exists corpora, h'. by subst r.
Qed.

Lemma members_elem h f k ds i d :
  ds !! i = Some d → (i, d) ∈ members h f k ds ↔ k = keyOf h f i d.
Proof.
  intros Hi. unfold members. rewrite list_elem_of_filter. simpl. split.
  - by intros [<- _].
  - intros ->. split; [done|]. by apply elem_of_lookup_imap_2.
Qed.

(** C6. [groupBy( fn )] partitions the documents of the receiver, for
    a callback whose keys are neither ["__proto__"] nor
    ["hasOwnProperty"].  It returns a new object whose properties are
    the groups.  The group
    of a key is a corpus holding exactly the receiver's Document
    objects at the positions with that key, in the receiver's order;
    a position belongs to the group of its key and to no other; every
    document is in the group of its key, every member of a group is a
    document of the receiver, and among pairwise distinct Document
    objects none is in two groups.  No object of the receiver is
    changed. *)
Theorem groupBy_partition f h c a ds :
  corpusAt h c a ds → ordinaryKeys h f ds →
  ∃ (corpora : loc) (props : gmap string value) (h' : heap),
    Corpus.groupBy c f h = (Return (VRef corpora), h') ∧
    (corpora ∉ dom h) ∧
    h' !! corpora = Some (OObject props) ∧
    (∀ l, l ∈ dom h → h' !! l = h !! l) ∧
    corpusAt h' c a ds ∧
    (∀ k, match props !! k with
          | Some v => ∃ gc ga, v = VRef gc ∧
                        corpusAt h' gc ga (groupOf h f k ds) ∧
                        groupOf h f k ds ≠ []
          | None => groupOf h f k ds = []
          end) ∧
    (∀ k, groupOf h f k ds `sublist_of` ds) ∧
    (∀ i d k, ds !! i = Some d →
       (i, d) ∈ members h f k ds ↔ k = keyOf h f i d) ∧
    (∀ i d, ds !! i = Some d → d ∈ groupOf h f (keyOf h f i d) ds) ∧
    (∀ k d, d ∈ groupOf h f k ds → d ∈ ds) ∧
    (NoDup ds → ∀ k1 k2 d,
       d ∈ groupOf h f k1 ds → d ∈ groupOf h f k2 ds → k1 = k2).
Proof.
  intros Hwf Hord.
  destruct (groupBy_spec f _ _ _ _ Hwf Hord)
    as (corpora & h' & Hrun & Hnew & Hold & L & HL & Hnone & Hsome & _).
  assert (∀ l o, h !! l = Some o → h' !! l = Some o) as Hold'.
  { intros l o Hl. rewrite Hold; [done|]. by eapply elem_of_dom_2. }
  exists corpora, ((λ p, VRef p.1) <$> L), h'.
  split; [done|]. split; [done|]. split; [done|]. split; [done|]. split.
  { destruct Hwf as [Hc Ha Hd]. split; [by apply Hold'..|].
    eapply Forall_impl; [exact Hd|]. intros d [doc Hdoc%docAt_Some].
    exists doc. apply docAt_Some. by apply Hold'. }
  split.
  { intros k. rewrite lookup_fmap. destruct (L !! k) as [[gc ga]|] eqn:Hk; simpl.
    - destruct (Hsome _ _ _ Hk) as (Hgc & Hga & _ & _ & Hne).
      exists gc, ga. split; [done|]. split; [|done]. split; [done..|].
      apply Forall_forall. intros d (i & Hi & _)%groupOf_elem.
      destruct (corpusAt_lookup _ _ _ _ _ _ Hwf Hi) as [doc Hdoc].
      exists doc. apply docAt_Some. by apply Hold'.
    - by apply Hnone. }
  split; [intros k; apply groupOf_sublist|].
  split; [intros i d k Hi; by apply members_elem|].
  split.
  { intros i d Hi. apply groupOf_elem. by exists i. }
  split.
  { intros k d (i & Hi & _)%groupOf_elem. by eapply list_elem_of_lookup_2. }
  intros Hnd k1 k2 d (i1 & Hi1 & <-)%groupOf_elem (i2 & Hi2 & <-)%groupOf_elem.
  by rewrite (NoDup_lookup _ _ _ _ Hnd Hi1 Hi2).
Qed.

(** ** Scenarios *)

(** C7. [new Corpus( ['Hello World!', 'Foo, Bar; Baz-Qux'] )
    .toLower().removeInterpunctuation().clean()] leaves exactly two
    documents, with the texts "hello world" and "foo bar baz qux";
    before [clean] the first text is "hello world ", each of
    [! ? . , ; -] having become one space. *)
Theorem lower_interpunctuation_clean_scenario :
  textsAfter ["Hello World!"; "Foo, Bar; Baz-Qux"]
    (λ c, r ← Corpus.toLower c; chain Corpus.removeInterpunctuation r)
  = Some ["hello world "; "foo  bar  baz qux"] ∧
  textsAfter ["Hello World!"; "Foo, Bar; Baz-Qux"]
    (λ c, r ← Corpus.toLower c;
          r ← chain Corpus.removeInterpunctuation r;
          chain Corpus.clean r)
  = Some ["hello world"; "foo bar baz qux"].
Proof. split; vm_compute; reflexivity. Qed.

(** C1. [removeWords] does not leave the text with the bounded words
    removed and the whitespace normalised: the delimiters around a
    removed word go with it.  On "the cat sat" and the word "cat" the
    code gives "thesat", where the specified result is "the sat"; of
    two occurrences that share a delimiter, as in "a cat cat b", the
    second stays. *)
Theorem removeWords_fuses_neighbours :
  textsAfter ["the cat sat"; "a cat cat b"] (removeWordList ["cat"] None)
    = Some ["thesat"; "acat b"] ∧
  specRemoveWords ["cat"] "the cat sat" = "the sat" ∧
  specRemoveWords ["cat"] "a cat cat b" = "a b".
Proof. repeat split; vm_compute; reflexivity. Qed.

(** ** The statements on a concrete heap *)

Ltac demo_lookup := vm_compute; reflexivity.

Ltac demo_corpus :=
  split; [demo_lookup | demo_lookup | repeat constructor; eexists; demo_lookup].

Ltac demo_mappings :=
  split;
  [ eexists; split; [reflexivity | demo_lookup]
  | repeat constructor; eexists _, _;
    (split; [reflexivity | split; [demo_lookup | discriminate]]) ].

Lemma trim_idempotent_witness :
  corpusAt demoHeap 1 2 [3; 4]%positive ∧
  ∃ h1 h2 ts,
    textsOf demoHeap 1 = Some ts ∧
    Corpus.trim 1 demoHeap = (Return (VRef 1), h1) ∧
    Corpus.trim 1 h1 = (Return (VRef 1), h2) ∧
    textsOf h1 1 = Some (JsString.trim <$> ts) ∧
    textsOf h2 1 = textsOf h1 1.
Proof.
  split; [demo_corpus|].
  apply (trim_idempotent demoHeap 1 2 [3; 4]%positive). demo_corpus.
Defined.

Lemma removeWords_cat_witness :
  (corpusAt demoHeap 1 2 [3; 4]%positive ∧
   demoHeap !! 7%positive = Some (OArray [VString "cat"]) ∧
   3%positive ∈ [3; 4]%positive ∧
   demoHeap !! 3%positive = Some (ODoc (Doc "the cat. sat" (VRef 5)))) ∧
  ∃ h' : heap,
    Corpus.removeWords 1 (VRef 7) None demoHeap = (Return (VRef 1), h') ∧
    ("the cat. sat" = "the cat. sat" → textOf h' 3 = "the sat") ∧
    ("the cat. sat" = "a category item" → textOf h' 3 = "a category item").
Proof.
  split.
  - split; [demo_corpus|]. split; [demo_lookup|]. split; [apply list_elem_of_here|demo_lookup].
  - apply (removeWords_cat demoHeap 1 2 [3; 4]%positive 7 3
             (Doc "the cat. sat" (VRef 5))).
    + demo_corpus.
    + demo_lookup.
    + apply list_elem_of_here.
    + demo_lookup.
Defined.

Lemma removeWords_consumes_delimiters_witness :
  (corpusAt demoHeap 1 2 [3; 4]%positive ∧
   demoHeap !! 7%positive = Some (OArray (VString <$> ["cat"])) ∧
   Forall (λ s, JsString.plainWord s = true) ["cat"] ∧
   delimFree "the" ∧
   demoHeap !! 3%positive = Some (ODoc (Doc "the cat. sat" (VRef 5)))) ∧
  ∃ h' : heap,
    Corpus.removeWords 1 (VRef 7) (VBoolean <$> None) demoHeap
      = (Return (VRef 1), h') ∧
    (startsWith "the" "the cat. sat" → startsWith "the" (textOf h' 3)) ∧
    (endsWith "the" "the cat. sat" → endsWith "the" (textOf h' 3)).
Proof.
  assert (Forall (λ s, JsString.plainWord s = true) ["cat"]) as Hplain
    by (repeat constructor).
  assert (delimFree "the") as Hfree by (repeat constructor).
  split.
  - split; [demo_corpus|]. split; [demo_lookup|]. split; [exact Hplain|].
    split; [exact Hfree|demo_lookup].
  - apply (proj1 (proj2 removeWords_consumes_delimiters)
             demoHeap 1%positive 2%positive [3; 4]%positive 7%positive
             ["cat"] None "the" 3%positive (Doc "the cat. sat" (VRef 5))).
    + demo_corpus.
    + demo_lookup.
    + exact Hplain.
    + exact Hfree.
    + demo_lookup.
Defined.

Lemma map_shares_documents_witness :
  corpusAt demoHeap 1 2 [3; 4]%positive ∧
  ∃ (ret ra : loc) (h' : heap),
    Corpus.map 1 (λ t _ i, t +:+ pretty i) demoHeap = (Return (VRef ret), h') ∧
    ret ≠ 1%positive ∧ (ret ∉ dom demoHeap) ∧
    corpusAt h' ret ra [3; 4]%positive ∧ corpusAt h' 1 2 [3; 4]%positive ∧
    nDocs ret h' = nDocs 1 h' ∧
    docsOf h' ret = Some (VRef <$> [3; 4]%positive) ∧
    textsOf h' 1 = textsOf h' ret ∧
    (∀ d doc, demoHeap !! d = Some (ODoc doc) →
       h' !! d = Some (ODoc (Doc (textAfter (λ t _ i, t +:+ pretty i) d 0
                                    [3; 4]%positive (text doc) (attributes doc))
                                 (attributes doc)))) ∧
    (∀ i d doc, [3; 4]%positive !! i = Some d → demoHeap !! d = Some (ODoc doc) →
       (∀ j, j ≠ i → [3; 4]%positive !! j ≠ Some d) →
       textOf h' d = text doc +:+ pretty i).
Proof.
  split; [demo_corpus|].
  apply (map_shares_documents (λ t _ i, t +:+ pretty i) demoHeap 1 2 [3; 4]%positive).
  demo_corpus.
Defined.

Lemma setAttributes_positional_witness :
  (corpusAt demoHeap 1 2 [3; 4]%positive ∧
   mappingSeq demoHeap (VRef 8) [VRef 6; VRef 5] ∧
   [VRef 6; VRef 5] ≠ [] ∧
   length [VRef 6; VRef 5] = length [3; 4]%positive) ∧
  ∃ h' : heap,
    Corpus.setAttributes 1 (VRef 8) demoHeap = (Return (VRef 1), h') ∧
    corpusAt h' 1 2 [3; 4]%positive ∧
    (∀ d doc, demoHeap !! d = Some (ODoc doc) →
       h' !! d = Some (ODoc (Doc (text doc)
                   (attrsAfter d [3; 4]%positive [VRef 6; VRef 5] (attributes doc))))) ∧
    (∀ i d x, [3; 4]%positive !! i = Some d → [VRef 6; VRef 5] !! i = Some x →
       (∀ j, i < j → [3; 4]%positive !! j ≠ Some d) →
       ∃ doc, demoHeap !! d = Some (ODoc doc) ∧
              h' !! d = Some (ODoc (Doc (text doc) x))) ∧
    (∀ l, l ∉ [3; 4]%positive → h' !! l = demoHeap !! l).
Proof.
  assert (corpusAt demoHeap 1 2 [3; 4]%positive) as Hwf by demo_corpus.
  assert (mappingSeq demoHeap (VRef 8) [VRef 6; VRef 5]) as Hseq by demo_mappings.
  split; [split; [exact Hwf|split; [exact Hseq|split; [discriminate|reflexivity]]]|].
  apply (proj2 (proj2 (setAttributes_positional demoHeap 1 2 [3; 4]%positive (VRef 8)
                         [VRef 6; VRef 5] Hwf Hseq))).
  - discriminate.
  - reflexivity.
Defined.

(** The empty array is no sequence of attribute mappings for
    [setAttributes]: on a corpus without documents, where the lengths
    agree, and on a corpus of three, where they differ, the call
    [setAttributes( [] )] raises InvalidArgument. *)
Lemma setAttributes_empty_array :
  (corpusAt emptyHeap 1 2 [] ∧
   mappingSeq emptyHeap (VRef 3) [] ∧
   nDocs 1 emptyHeap = (Return 0, emptyHeap) ∧
   Corpus.setAttributes 1 (VRef 3) emptyHeap = (Throw InvalidArgument, emptyHeap)) ∧
  (corpusAt sampleHeap 1 2 [3; 4; 3]%positive ∧
   mappingSeq sampleHeap (VRef 7) [] ∧
   nDocs 1 sampleHeap = (Return 3, sampleHeap) ∧
   Corpus.setAttributes 1 (VRef 7) sampleHeap = (Throw InvalidArgument, sampleHeap)).
Proof.
  split.
  - split; [demo_corpus|]. split; [demo_mappings|].
    split; vm_compute; reflexivity.
  - split; [demo_corpus|]. split; [demo_mappings|].
    split; vm_compute; reflexivity.
Qed.

Lemma setAttributes_type_check_witness :
  (¬ ∃ xs, mappingSeq demoHeap (VRef 7) xs) ∧
  Corpus.setAttributes 1 (VRef 7) demoHeap = (Throw InvalidArgument, demoHeap).
Proof.
  assert (¬ ∃ xs, mappingSeq demoHeap (VRef 7) xs) as Hno.
  { intros (xs & (l & [= <-] & Hl) & Hall).
    vm_compute in Hl. injection Hl as <-.
    inversion Hall as [|x xs' (l' & o & Hx & _) _]. discriminate Hx. }
  split; [exact Hno|].
  apply (setAttributes_type_check demoHeap 1 (VRef 7) Hno).
Defined.


Lemma groupBy_partition_witness :
  (corpusAt demoHeap 1 2 [3; 4]%positive ∧
   ordinaryKeys demoHeap (λ t _ _, t) [3; 4]%positive) ∧
  ∃ (corpora : loc) (props : gmap string value) (h' : heap),
    Corpus.groupBy 1 (λ t _ _, t) demoHeap = (Return (VRef corpora), h') ∧
    (corpora ∉ dom demoHeap) ∧
    h' !! corpora = Some (OObject props) ∧
    (∀ l, l ∈ dom demoHeap → h' !! l = demoHeap !! l) ∧
    corpusAt h' 1 2 [3; 4]%positive ∧
    (∀ k, match props !! k with
          | Some v => ∃ gc ga, v = VRef gc ∧
              corpusAt h' gc ga (groupOf demoHeap (λ t _ _, t) k [3; 4]%positive) ∧
              groupOf demoHeap (λ t _ _, t) k [3; 4]%positive ≠ []
          | None => groupOf demoHeap (λ t _ _, t) k [3; 4]%positive = []
          end) ∧
    (∀ k, groupOf demoHeap (λ t _ _, t) k [3; 4]%positive
            `sublist_of` [3; 4]%positive) ∧
    (∀ i d k, [3; 4]%positive !! i = Some d →
       (i, d) ∈ members demoHeap (λ t _ _, t) k [3; 4]%positive
       ↔ k = keyOf demoHeap (λ t _ _, t) i d) ∧
    (∀ i d, [3; 4]%positive !! i = Some d →
       d ∈ groupOf demoHeap (λ t _ _, t)
             (keyOf demoHeap (λ t _ _, t) i d) [3; 4]%positive) ∧
    (∀ k d, d ∈ groupOf demoHeap (λ t _ _, t) k [3; 4]%positive
            → d ∈ [3; 4]%positive) ∧
    (NoDup [3; 4]%positive → ∀ k1 k2 d,
       d ∈ groupOf demoHeap (λ t _ _, t) k1 [3; 4]%positive →
       d ∈ groupOf demoHeap (λ t _ _, t) k2 [3; 4]%positive → k1 = k2).
Proof.
  assert (ordinaryKeys demoHeap (λ t _ _, t) [3; 4]%positive) as Hord.
  { intros [|[|i]] d [= <-]; split; vm_compute; discriminate. }
  split; [split; [demo_corpus|exact Hord]|].
  apply (groupBy_partition (λ t _ _, t) demoHeap 1 2 [3; 4]%positive).
  - demo_corpus.
  - exact Hord.
Defined.

(** A period in a word is the period of the pattern and stands for
    any character.  With the word "c.t", [removeWords] deletes " cat "
    from "a cat b", a region that does not hold the word.  With the
    word ".", it deletes ". a " from ". a b": the text began with the
    word and no longer does. *)
Lemma removeWords_period_in_word :
  textsAfter ["a cat b"] (removeWordList ["c.t"] None) = Some ["ab"] ∧
  JsString.stripWord false "c.t" "a cat b" = "ab" ∧
  ¬ erases false (JsString.chars "c.t") (JsString.chars "a cat b")
      (JsString.chars (JsString.stripWord false "c.t" "a cat b")) ∧
  textsAfter [". a b"] (removeWordList ["."] None) = Some ["b"] ∧
  startsWith "." ". a b" ∧ ¬ startsWith "." "b".
Proof.
  split; [vm_compute; reflexivity|]. split; [vm_compute; reflexivity|].
  split; [|split; [vm_compute; reflexivity|split]].
  - intros He. apply (erases_absent _ _ _ "."%char) in He.
    + vm_compute in He. discriminate He.
    + apply list_elem_of_In. vm_compute. right. left. reflexivity.
    + intros Hin%list_elem_of_In. vm_compute in Hin.
      repeat (destruct Hin as [Hin|Hin]; [discriminate Hin|]). exact Hin.
  - by exists (JsString.chars " a b").
  - intros [k Hk]. discriminate Hk.
Qed.

(** A Document stored at two positions of the receiver, grouped by the
    position: [groupBy( ( text, attributes, i ) => i )] on
    [new Corpus( [ d, d ] )] puts the one object [d] into the group
    "0" and into the group "1". *)
Lemma groupBy_document_in_two_groups :
  corpusAt aliasHeap 1 2 [3; 3]%positive ∧
  ∃ (corpora g0 g1 : loc) (props : gmap string value) (h' : heap),
    Corpus.groupBy 1 (λ _ _ i, pretty i) aliasHeap = (Return (VRef corpora), h') ∧
    h' !! corpora = Some (OObject props) ∧
    props !! "0" = Some (VRef g0) ∧
    props !! "1" = Some (VRef g1) ∧
    g0 ≠ g1 ∧
    docsOf h' g0 = Some [VRef 3] ∧
    docsOf h' g1 = Some [VRef 3].
Proof.
  split; [demo_corpus|].
  eexists _, _, _, _, _.
  split; [vm_compute; reflexivity|].
  split; [vm_compute; reflexivity|].
  split; [vm_compute; reflexivity|].
  split; [vm_compute; reflexivity|].
  split; [discriminate|].
  split; vm_compute; reflexivity.
Qed.

(** A group stored under the name "hasOwnProperty" stands where the
    loop looks for the method of that name: with this key for both
    documents of a corpus, the second round raises a TypeError. *)
Lemma groupBy_key_hasOwnProperty :
  corpusAt demoHeap 1 2 [3; 4]%positive ∧
  ∃ h' : heap,
    Corpus.groupBy 1 (λ _ _ _, "hasOwnProperty") demoHeap = (Throw TypeError, h').
Proof.
  split; [demo_corpus|]. eexists. vm_compute. reflexivity.
Qed.

(** * Further properties of the class

    The methods in the order of their work: the functions of a text,
    the operations that rewrite the texts in place, the ones that add
    documents, and the ones that return new corpora. *)

(** ** Character-wise patterns *)

(** A pattern of one class, replaced everywhere: every character is
    looked at on its own. *)
Lemma replaceAll_One p rep s :
  replaceAll [One p] rep s = s ≫= (λ c, if p c then rep else [c]).
Proof.
  unfold replaceAll. induction s as [|c s IH]; [done|].
  rewrite replaceFrom_cons, matchLen_One_cons. simpl.
  destruct (p c); simpl; by rewrite IH.
Qed.

Lemma bind_blank (p : ascii → bool) (s : list ascii) :
  s ≫= (λ c, if p c then [" "%char] else [c]) = blank p <$> s.
Proof.
  induction s as [|c s IH]; [done|].
  rewrite bind_cons, fmap_cons, IH. unfold blank. by destruct (p c).
Qed.

Lemma bind_filter (p : ascii → bool) (s : list ascii) :
  s ≫= (λ c, if p c then [] else [c]) = filter (λ c, p c = false) s.
Proof.
  induction s as [|c s IH]; [done|].
  rewrite bind_cons, filter_cons, IH. destruct (p c) eqn:E.
  - by rewrite decide_False.
  - by rewrite decide_True.
Qed.

Lemma stripInterpunctuation_chars t :
  chars (stripInterpunctuation t) = blank isInterpunctuation <$> chars t.
Proof.
  unfold stripInterpunctuation, lift. by rewrite chars_str, replaceAll_One, bind_blank.
Qed.

Lemma stripDigits_chars t :
  chars (stripDigits t) = filter (λ c, isDigit c = false) (chars t).
Proof.
  unfold stripDigits, lift. by rewrite chars_str, replaceAll_One, bind_filter.
Qed.

Lemma chars_inj s t : chars s = chars t → s = t.
Proof. intros E. by rewrite <- (str_chars s), <- (str_chars t), E. Qed.

Lemma chars_length s : length (chars s) = String.length s.
Proof. induction s as [|c s IH]; simpl; [done|]. by rewrite IH. Qed.

Lemma chars_app s t : chars (s +:+ t) = chars s ++ chars t.
Proof. induction s as [|c s IH]; simpl; [done|]. by rewrite IH. Qed.

Lemma blank_idem p c : p " "%char = false → blank p (blank p c) = blank p c.
Proof. intros Hp. unfold blank. destruct (p c) eqn:E; [by rewrite Hp|by rewrite E]. Qed.

Lemma stripInterpunctuation_idem t :
  stripInterpunctuation (stripInterpunctuation t) = stripInterpunctuation t.
Proof.
  apply chars_inj. rewrite !stripInterpunctuation_chars, <- list_fmap_compose.
  apply list_fmap_ext. intros _ c _. simpl. by apply blank_idem.
Qed.

Lemma stripDigits_idem t : stripDigits (stripDigits t) = stripDigits t.
Proof.
  apply chars_inj. rewrite !stripDigits_chars.
  induction (chars t) as [|c s IH]; [done|].
  rewrite filter_cons. destruct (decide _) as [E|E]; [|done].
  rewrite filter_cons, decide_True by done. by rewrite IH.
Qed.

(** ** Line breaks *)

Lemma newlinesToSpaces_cons c s :
  newlinesToSpaces (c :: s) =
  if isCR c then
    " "%char :: newlinesToSpaces
      (match s with c' :: s'' => if isLF c' then s'' else s | [] => [] end)
  else blank isLF c :: newlinesToSpaces s.
Proof.
  simpl. unfold blank. destruct (isCR c); [|by destruct (isLF c)].
  destruct s as [|c' s'']; [done|]. by destruct (isLF c').
Qed.

(** The scan resumes at most two characters further; properties of
    its result follow by induction on the length of the text. *)
Lemma newlinesToSpaces_ind (P : list ascii → list ascii → Prop) :
  P [] [] →
  (∀ c s r, isCR c = false → P s r → P (c :: s) (blank isLF c :: r)) →
  (∀ c, isCR c = true → P [c] [" "%char]) →
  (∀ c c' s r, isCR c = true → isLF c' = true → P s r →
     P (c :: c' :: s) (" "%char :: r)) →
  (∀ c c' s r, isCR c = true → isLF c' = false → P (c' :: s) r →
     P (c :: c' :: s) (" "%char :: r)) →
  ∀ s, P s (newlinesToSpaces s).
Proof.
  intros Hnil Hplain Hlast Hpair Hlone s.
  remember (length s) as n eqn:Hn. revert s Hn.
  induction (lt_wf n) as [n _ IH]. intros s ->.
  destruct s as [|c s]; [done|]. rewrite newlinesToSpaces_cons.
  destruct (isCR c) eqn:Ec.
  - destruct s as [|c' s]; [by apply Hlast|].
    destruct (isLF c') eqn:El.
    + apply Hpair; [done..|]. eapply IH; [|done]. simpl. lia.
    + apply Hlone; [done..|]. eapply IH; [|done]. simpl. lia.
  - apply Hplain; [done|]. eapply IH; [|done]. simpl. lia.
Qed.

Lemma isNewline_blank c : isCR c = false → isNewline (blank isLF c) = false.
Proof.
  intros Ec. unfold blank, isNewline. destruct (isLF c) eqn:El; [done|].
  by rewrite Ec, El.
Qed.

Lemma newlinesToSpaces_free s : free isNewline (newlinesToSpaces s).
Proof.
  apply (newlinesToSpaces_ind (λ _ r, free isNewline r)); unfold free.
  - constructor.
  - intros c s' r Ec Hr. constructor; [by apply isNewline_blank|done].
  - intros c _. by repeat constructor.
  - intros c c' s' r _ _ Hr. by constructor.
  - intros c c' s' r _ _ Hr. by constructor.
Qed.

Lemma newlinesToSpaces_length s : length (newlinesToSpaces s) ≤ length s.
Proof.
  apply (newlinesToSpaces_ind (λ s r, length r ≤ length s)); simpl; intros; lia.
Qed.

Lemma newlinesToSpaces_id s : free isNewline s → newlinesToSpaces s = s.
Proof.
  induction 1 as [|c s Hc Hs IH]; [done|].
  unfold isNewline in Hc. apply orb_false_elim in Hc as [Ec El].
  rewrite newlinesToSpaces_cons, Ec, IH. unfold blank. by rewrite El.
Qed.

Lemma newlinesToSpaces_idem s :
  newlinesToSpaces (newlinesToSpaces s) = newlinesToSpaces s.
Proof. apply newlinesToSpaces_id, newlinesToSpaces_free. Qed.

(** A CR LF pair is one match wherever it stands. *)
Lemma newlinesToSpaces_crlf u v :
  newlinesToSpaces (u ++ "013"%char :: "010"%char :: v) =
  newlinesToSpaces u ++ " "%char :: newlinesToSpaces v.
Proof.
  remember (length u) as n eqn:Hn. revert u Hn.
  induction (lt_wf n) as [n _ IH]. intros u ->.
  destruct u as [|c u]; [done|].
  change ((c :: u) ++ ?x) with (c :: u ++ x).
  rewrite !newlinesToSpaces_cons. destruct (isCR c) eqn:Ec.
  - destruct u as [|c' u].
    + done.
    + change ((c' :: u) ++ ?x) with (c' :: u ++ x). cbv iota.
      destruct (isLF c') eqn:El.
      * rewrite <- app_comm_cons. f_equal. eapply IH; [|done]. simpl. lia.
      * rewrite <- app_comm_cons. f_equal.
        change (c' :: u ++ ?x) with ((c' :: u) ++ x).
        eapply IH; [|done]. simpl. lia.
  - rewrite <- app_comm_cons. f_equal. eapply IH; [|done]. simpl. lia.
Qed.

Lemma stripNewlines_idem t : stripNewlines (stripNewlines t) = stripNewlines t.
Proof. unfold stripNewlines, lift. by rewrite chars_str, newlinesToSpaces_idem. Qed.

(** ** Lower case *)

Lemma lowerChar_idem c : lowerChar (lowerChar c) = lowerChar c.
Proof. destruct c as [[] [] [] [] [] [] [] []]; vm_compute; reflexivity. Qed.

Lemma lowerChar_blank c :
  lowerChar (blank isInterpunctuation c) = blank isInterpunctuation (lowerChar c).
Proof. destruct c as [[] [] [] [] [] [] [] []]; vm_compute; reflexivity. Qed.

(** The capital letters A to Z. *)
Lemma lowerChar_capital c : (65 <=? code (lowerChar c)) && (code (lowerChar c) <=? 90) = false.
Proof. destruct c as [[] [] [] [] [] [] [] []]; vm_compute; reflexivity. Qed.

Lemma toLowerCase_chars t : chars (toLowerCase t) = lowerChar <$> chars t.
Proof. unfold toLowerCase, lift. by rewrite chars_str. Qed.

Lemma toLowerCase_idem t : toLowerCase (toLowerCase t) = toLowerCase t.
Proof.
  apply chars_inj. rewrite !toLowerCase_chars, <- list_fmap_compose.
  apply list_fmap_ext. intros _ c _. apply lowerChar_idem.
Qed.

Lemma toLowerCase_stripInterpunctuation t :
  toLowerCase (stripInterpunctuation t) = stripInterpunctuation (toLowerCase t).
Proof.
  apply chars_inj.
  rewrite toLowerCase_chars, !stripInterpunctuation_chars, toLowerCase_chars.
  rewrite <- !list_fmap_compose. apply list_fmap_ext. intros _ c _. apply lowerChar_blank.
Qed.

(** ** Operations built on apply with an idempotent function *)

(** With an idempotent function of the text, a Document ends with the
    function of its text however often the corpus holds it. *)
Lemma apply_idem_docs (g : string → string) h c a ds :
  (∀ s, g (g s) = g s) → corpusAt h c a ds →
  ∃ h' : heap,
    Corpus.apply c (λ t _ _, g t) h = (Return (VRef c), h') ∧
    corpusAt h' c a ds ∧
    (∀ d doc, d ∈ ds → h !! d = Some (ODoc doc) →
       h' !! d = Some (ODoc (Doc (g (text doc)) (attributes doc)))) ∧
    (∀ l, l ∉ ds → h' !! l = h !! l).
Proof.
  intros Hg Hwf.
  destruct (apply_text_spec g _ _ _ _ Hwf) as (h' & Hrun & Hwf' & Hh').
  exists h'. split; [done|]. split; [done|]. split.
  - intros d doc Hd Hdoc. rewrite Hh', Hdoc. simpl. by rewrite textAfter_idem.
  - intros l Hl. rewrite Hh'. destruct (h !! l) as [[[]| | |]|]; simpl; try done.
    by rewrite textAfter_notin.
Qed.

Lemma then_self (m : M value) (c : loc) h h' :
  m h = (Return (VRef c), h') → (m ;; mret (VRef c)) h = (Return (VRef c), h').
Proof. intros Hm. by erewrite bind_Return by exact Hm. Qed.

Lemma apply_idem_again (g : string → string) h h' c a ds :
  (∀ s, g (g s) = g s) → corpusAt h c a ds →
  Corpus.apply c (λ t _ _, g t) h = (Return (VRef c), h') →
  Corpus.apply c (λ t _ _, g t) h' = (Return (VRef c), h').
Proof.
  intros Hg Hwf Hrun.
  destruct (apply_idem_docs g _ _ _ _ Hg Hwf) as (h1 & Hrun1 & Hwf1 & Hin1 & Hout1).
  rewrite Hrun in Hrun1. injection Hrun1 as <-.
  destruct (apply_idem_docs g _ _ _ _ Hg Hwf1) as (h2 & Hrun2 & _ & Hin2 & Hout2).
  rewrite Hrun2. f_equal. apply map_eq. intros l.
  destruct (decide (l ∈ ds)) as [Hl|Hl]; [|by apply Hout2].
  apply list_elem_of_lookup_1 in Hl as Hi. destruct Hi as [i Hi].
  destruct (corpusAt_lookup _ _ _ _ _ _ Hwf Hi) as [doc Hdoc].
  pose proof (Hin1 _ _ Hl Hdoc) as E1.
  rewrite (Hin2 _ _ Hl E1), E1. simpl. by rewrite Hg.
Qed.

Lemma apply_idem_commute (g1 g2 : string → string) h c a ds :
  (∀ s, g1 (g1 s) = g1 s) → (∀ s, g2 (g2 s) = g2 s) →
  (∀ s, g1 (g2 s) = g2 (g1 s)) →
  corpusAt h c a ds →
  ∃ h1 h2 h' : heap,
    Corpus.apply c (λ t _ _, g1 t) h = (Return (VRef c), h1) ∧
    Corpus.apply c (λ t _ _, g2 t) h1 = (Return (VRef c), h') ∧
    Corpus.apply c (λ t _ _, g2 t) h = (Return (VRef c), h2) ∧
    Corpus.apply c (λ t _ _, g1 t) h2 = (Return (VRef c), h').
Proof.
  intros Hg1 Hg2 Hc Hwf.
  destruct (apply_idem_docs g1 _ _ _ _ Hg1 Hwf) as (h1 & Hrun1 & Hwf1 & Hin1 & Hout1).
  destruct (apply_idem_docs g2 _ _ _ _ Hg2 Hwf1) as (h12 & Hrun12 & _ & Hin12 & Hout12).
  destruct (apply_idem_docs g2 _ _ _ _ Hg2 Hwf) as (h2 & Hrun2 & Hwf2 & Hin2 & Hout2).
  destruct (apply_idem_docs g1 _ _ _ _ Hg1 Hwf2) as (h21 & Hrun21 & _ & Hin21 & Hout21).
  exists h1, h2, h12. split; [done|]. split; [done|]. split; [done|].
  rewrite Hrun21. f_equal. apply map_eq. intros l.
  destruct (decide (l ∈ ds)) as [Hl|Hl].
  - apply list_elem_of_lookup_1 in Hl as Hi. destruct Hi as [i Hi].
    destruct (corpusAt_lookup _ _ _ _ _ _ Hwf Hi) as [doc Hdoc].
    rewrite (Hin21 _ _ Hl (Hin2 _ _ Hl Hdoc)), (Hin12 _ _ Hl (Hin1 _ _ Hl Hdoc)).
    simpl. by rewrite Hc.
  - by rewrite Hout21, Hout12, Hout2, Hout1.
Qed.

(** X1. [removeInterpunctuation()] returns the receiver and writes a
    space over every exclamation mark, question mark, period, comma,
    semicolon and hyphen of every document, whether a Document is
    stored once or several times: each text keeps its length and all
    its other characters, and no object outside the documents is
    touched. *)
Theorem removeInterpunctuation_blanks h c a ds :
  corpusAt h c a ds →
  ∃ h' : heap,
    Corpus.removeInterpunctuation c h = (Return (VRef c), h') ∧
    corpusAt h' c a ds ∧
    (∀ d doc, d ∈ ds → h !! d = Some (ODoc doc) →
       ∃ t', h' !! d = Some (ODoc (Doc t' (attributes doc))) ∧
         chars t' = blank isInterpunctuation <$> chars (text doc) ∧
         String.length t' = String.length (text doc)) ∧
    (∀ l, l ∉ ds → h' !! l = h !! l).
Proof.
  intros Hwf.
  destruct (apply_idem_docs stripInterpunctuation _ _ _ _ stripInterpunctuation_idem Hwf)
    as (h' & Hrun & Hwf' & Hin & Hout).
  exists h'. split; [by apply then_self|]. split; [done|]. split; [|done].
  intros d doc Hd Hdoc. eexists. split; [by apply Hin|].
  split; [apply stripInterpunctuation_chars|].
  by rewrite <- !chars_length, stripInterpunctuation_chars, length_fmap.
Qed.

(** X2. [removeDigits()] returns the receiver and leaves of every text
    exactly its characters other than 0 to 9, in their order. *)
Theorem removeDigits_filters h c a ds :
  corpusAt h c a ds →
  ∃ h' : heap,
    Corpus.removeDigits c h = (Return (VRef c), h') ∧
    corpusAt h' c a ds ∧
    (∀ d doc, d ∈ ds → h !! d = Some (ODoc doc) →
       ∃ t', h' !! d = Some (ODoc (Doc t' (attributes doc))) ∧
         chars t' = filter (λ x, isDigit x = false) (chars (text doc))) ∧
    (∀ l, l ∉ ds → h' !! l = h !! l).
Proof.
  intros Hwf.
  destruct (apply_idem_docs stripDigits _ _ _ _ stripDigits_idem Hwf)
    as (h' & Hrun & Hwf' & Hin & Hout).
  exists h'. split; [by apply then_self|]. split; [done|]. split; [|done].
  intros d doc Hd Hdoc. eexists. split; [by apply Hin|]. apply stripDigits_chars.
Qed.

(** X3. After [removeNewlines()] no text holds a carriage return or a
    line feed, and none has grown.  A text without line breaks is left
    as it is; in a text [u CR LF v] the pair becomes one space, not
    two, between what the operation makes of [u] and of [v]. *)
Theorem removeNewlines_no_line_break h c a ds :
  corpusAt h c a ds →
  ∃ h' : heap,
    Corpus.removeNewlines c h = (Return (VRef c), h') ∧
    corpusAt h' c a ds ∧
    (∀ d doc, d ∈ ds → h !! d = Some (ODoc doc) →
       ∃ t', h' !! d = Some (ODoc (Doc t' (attributes doc))) ∧
         free isNewline (chars t') ∧
         String.length t' ≤ String.length (text doc) ∧
         (free isNewline (chars (text doc)) → t' = text doc) ∧
         (∀ u v, text doc = u +:+ String "013" (String "010" v) →
            t' = stripNewlines u +:+ String " " (stripNewlines v))) ∧
    (∀ l, l ∉ ds → h' !! l = h !! l).
Proof.
  intros Hwf.
  destruct (apply_idem_docs stripNewlines _ _ _ _ stripNewlines_idem Hwf)
    as (h' & Hrun & Hwf' & Hin & Hout).
  exists h'. split; [by apply then_self|]. split; [done|]. split; [|done].
  intros d doc Hd Hdoc. eexists. split; [by apply Hin|].
  unfold stripNewlines, lift. rewrite chars_str.
  split; [apply newlinesToSpaces_free|]. split; [|split].
  - rewrite <- !chars_length, chars_str. apply newlinesToSpaces_length.
  - intros Hfree. rewrite newlinesToSpaces_id by done. apply str_chars.
  - intros u v ->. apply chars_inj.
    rewrite chars_str, !chars_app. simpl. rewrite !chars_str.
    apply (newlinesToSpaces_crlf (chars u) (chars v)).
Qed.

(** X4. [toLower()] returns the receiver with every text in lower
    case, character by character: no capital letter A to Z is left,
    and a second [toLower()] changes nothing at all. *)
Theorem toLower_idempotent h c a ds :
  corpusAt h c a ds →
  ∃ h' : heap,
    Corpus.toLower c h = (Return (VRef c), h') ∧
    corpusAt h' c a ds ∧
    (∀ d doc, d ∈ ds → h !! d = Some (ODoc doc) →
       ∃ t', h' !! d = Some (ODoc (Doc t' (attributes doc))) ∧
         chars t' = lowerChar <$> chars (text doc) ∧
         Forall (λ x, (65 <=? code x) && (code x <=? 90) = false) (chars t')) ∧
    (∀ l, l ∉ ds → h' !! l = h !! l) ∧
    Corpus.toLower c h' = (Return (VRef c), h').
Proof.
  intros Hwf.
  destruct (apply_idem_docs toLowerCase _ _ _ _ toLowerCase_idem Hwf)
    as (h' & Hrun & Hwf' & Hin & Hout).
  exists h'. split; [by apply then_self|]. split; [done|]. split; [|split; [done|]].
  - intros d doc Hd Hdoc. eexists. split; [by apply Hin|].
    rewrite toLowerCase_chars. split; [done|].
    apply Forall_fmap, Forall_true. intros x. apply lowerChar_capital.
  - apply then_self. eapply apply_idem_again; [apply toLowerCase_idem|exact Hwf|exact Hrun].
Qed.

(** X5. On texts of characters up to U+00FF, the texts of this
    development, [toLower()] and [removeInterpunctuation()] commute:
    called in either order on a corpus they end in the same state.
    Either operation works on such a text one character at a time,
    and lower case turns no character into one of [! ? . , ; -] or
    back.  (The statement does not extend to texts with a capital
    sigma, which [toLowerCase] maps by looking at the characters
    around it.) *)
Theorem toLower_removeInterpunctuation_commute h c a ds :
  corpusAt h c a ds →
  ∃ h1 h2 h' : heap,
    Corpus.toLower c h = (Return (VRef c), h1) ∧
    Corpus.removeInterpunctuation c h1 = (Return (VRef c), h') ∧
    Corpus.removeInterpunctuation c h = (Return (VRef c), h2) ∧
    Corpus.toLower c h2 = (Return (VRef c), h').
Proof.
  intros Hwf.
  destruct (apply_idem_commute toLowerCase stripInterpunctuation _ _ _ _
              toLowerCase_idem stripInterpunctuation_idem
              toLowerCase_stripInterpunctuation Hwf)
    as (h1 & h2 & h' & H1 & H2 & H3 & H4).
  exists h1, h2, h'. repeat split; by apply then_self.
Qed.

(** ** clean and trim *)

(** A one-or-more pattern on its own takes the whole run. *)
Lemma matchLen_run p c s :
  p c = true → matchLen [Many1 p] (c :: s) = Some (S (runLen p s)).
Proof.
  revert c. induction s as [|c' s IH]; intros c Hc; rewrite matchLen_Many1_cons, Hc.
  - done.
  - simpl runLen. destruct (p c') eqn:Hc'.
    + by rewrite (IH _ Hc').
    + by rewrite (matchLen_first [Many1 p] c' s).
Qed.

(** Two or more: one character of the class and a run behind it. *)
Lemma matchLen_run2 p c s :
  p c = true →
  matchLen [One p; Many1 p] (c :: s) =
  match runLen p s with 0 => None | S n => Some (S (S n)) end.
Proof.
  intros Hc. rewrite matchLen_One_cons, Hc. destruct s as [|c' s]; [done|].
  simpl runLen. destruct (p c') eqn:Hc'.
  - by rewrite (matchLen_run _ _ _ Hc').
  - by rewrite (matchLen_first [Many1 p] c' s).
Qed.

Lemma drop_runLen p s :
  match drop (runLen p s) s with c :: _ => p c = false | [] => True end.
Proof.
  induction s as [|c s IH]; simpl; [done|]. destruct (p c) eqn:E; [done|]. by simpl.
Qed.

Lemma endOk_cons c s : s ≠ [] → endOk (c :: s) → endOk s.
Proof.
  unfold endOk. simpl. intros Hs. destruct (rev s) as [|x r] eqn:E; [|done].
  apply (f_equal (@rev _)) in E. rewrite rev_involutive in E. done.
Qed.

Lemma endOk_drop n s : n < length s → endOk s → endOk (drop n s).
Proof.
  revert s. induction n as [|n IH]; intros s Hn Hs; [done|].
  destruct s as [|c s]; [simpl in Hn; lia|]. simpl in *. apply IH; [lia|].
  apply (endOk_cons c); [|done]. intros ->. simpl in Hn. lia.
Qed.

Lemma endOk_all_white s :
  s ≠ [] → endOk s → runLen isWhiteSpace s < length s.
Proof.
  induction s as [|c s IH]; [done|]. intros _ Hs. simpl.
  destruct (isWhiteSpace c) eqn:E; [|lia].
  destruct (decide (s = [])) as [->|Hne].
  - unfold endOk in Hs. simpl in Hs. congruence.
  - specialize (IH Hne (endOk_cons _ _ Hne Hs)). lia.
Qed.

Lemma collapse_spaced s :
  endOk s →
  spaced (replaceFrom [One isWhiteSpace; Many1 isWhiteSpace] [" "%char] 0 s).
Proof.
  remember (length s) as n eqn:Hn. revert s Hn.
  induction (lt_wf n) as [n _ IH]. intros s -> Hs.
  destruct s as [|c s].
  { rewrite replaceFrom_nil by done. constructor. }
  rewrite replaceFrom_cons. destruct (isWhiteSpace c) eqn:Hc.
  - rewrite matchLen_run2 by done.
    assert (s ≠ []) as Hne.
    { intros ->. unfold endOk in Hs. simpl in Hs. congruence. }
    pose proof (endOk_all_white s Hne (endOk_cons _ _ Hne Hs)) as Hrun.
    pose proof (drop_runLen isWhiteSpace s) as Hhd.
    pose proof (endOk_drop _ _ Hrun (endOk_cons _ _ Hne Hs)) as Hend.
    pose proof (length_drop s (runLen isWhiteSpace s)) as Hlen.
    destruct (runLen isWhiteSpace s) as [|k] eqn:Ek.
    + (* a whitespace character on its own stays *)
      rewrite drop_0 in Hhd, Hend.
      destruct s as [|c2 rest]; [done|].
      rewrite replaceFrom_cons, (matchLen_first _ c2 rest) by done.
      apply spaced_space; [done..|].
      destruct (decide (rest = [])) as [->|Hrest].
      * rewrite replaceFrom_nil by done. constructor.
      * eapply IH; [|done|by eapply endOk_cons]. simpl in *. lia.
    + (* a run of two or more becomes one space *)
      rewrite replaceFrom_drop by (done || lia).
      destruct (drop (S k) s) as [|c2 rest] eqn:E.
      { simpl in Hlen. lia. }
      rewrite replaceFrom_cons, (matchLen_first _ c2 rest) by done.
      apply spaced_space; [done..|].
      destruct (decide (rest = [])) as [->|Hrest].
      * rewrite replaceFrom_nil by done. constructor.
      * eapply IH; [|done|by eapply endOk_cons]. simpl in *. lia.
  - rewrite (matchLen_first _ c s) by done. apply spaced_char; [done|].
    destruct (decide (s = [])) as [->|Hne].
    + rewrite replaceFrom_nil by done. constructor.
    + eapply IH; [|done|by eapply endOk_cons]. simpl. lia.
Qed.

Lemma spaced_collapse s :
  spaced s →
  replaceFrom [One isWhiteSpace; Many1 isWhiteSpace] [" "%char] 0 s = s.
Proof.
  assert (∀ c s, isWhiteSpace c = false →
    replaceFrom [One isWhiteSpace; Many1 isWhiteSpace] [" "%char] 0 (c :: s) =
    c :: replaceFrom [One isWhiteSpace; Many1 isWhiteSpace] [" "%char] 0 s) as Hplain.
  { intros c s' Hc. by rewrite replaceFrom_cons, (matchLen_first _ c s'). }
  induction 1 as [|c s Hc Hs IH|w c s Hw Hc Hs IH].
  - by rewrite replaceFrom_nil.
  - by rewrite Hplain, IH.
  - rewrite replaceFrom_cons, matchLen_run2 by done. simpl runLen. rewrite Hc.
    by rewrite Hplain, IH.
Qed.

Lemma spaced_endOk s : spaced s → endOk s.
Proof.
  unfold endOk. induction 1 as [|c s Hc Hs IH|w c s Hw Hc Hs IH]; [done|..].
  - simpl. destruct (rev s) as [|x r]; [done|]. done.
  - simpl. destruct (rev s) as [|x r]; [done|]. done.
Qed.

Lemma collapse_headOk s :
  headOk s →
  headOk (replaceFrom [One isWhiteSpace; Many1 isWhiteSpace] [" "%char] 0 s).
Proof.
  destruct s as [|c s]; intros Hc.
  - by rewrite replaceFrom_nil.
  - simpl in Hc. by rewrite replaceFrom_cons, (matchLen_first _ c s).
Qed.

(** What [clean] returns is trimmed and has no two whitespace
    characters in a row. *)
Lemma cleanChars_tidy s :
  headOk (cleanChars s) ∧ endOk (cleanChars s) ∧ spaced (cleanChars s).
Proof.
  unfold cleanChars, replaceAll.
  assert (endOk (trimChars s)) as He by apply trimEnd_lastOk.
  assert (headOk (trimChars s)) as Hh by apply trimEnd_headOk, trimStart_headOk.
  pose proof (collapse_spaced _ He) as Hsp.
  split; [by apply collapse_headOk|]. split; [by apply spaced_endOk|done].
Qed.

Lemma trimChars_tidy s : headOk s → endOk s → trimChars s = s.
Proof.
  intros Hh He. unfold trimChars. rewrite (trimStart_id s) by done. by apply trimEnd_id.
Qed.

Lemma clean_idem t : clean (clean t) = clean t.
Proof.
  unfold clean, lift. rewrite chars_str. f_equal.
  destruct (cleanChars_tidy (chars t)) as (Hh & He & Hsp).
  unfold cleanChars at 1, replaceAll.
  rewrite trimChars_tidy by done. by apply spaced_collapse.
Qed.

Lemma clean_trim t : clean (trim t) = clean t.
Proof.
  unfold clean, trim, lift. rewrite chars_str. unfold cleanChars.
  by rewrite trimChars_idem.
Qed.

Lemma trim_clean t : trim (clean t) = clean t.
Proof.
  unfold clean, trim, lift. rewrite chars_str. f_equal.
  destruct (cleanChars_tidy (chars t)) as (Hh & He & _). by apply trimChars_tidy.
Qed.

(** [g2] after [g1] is [g2], on every document. *)
Lemma apply_idem_absorb (g1 g2 : string → string) h c a ds :
  (∀ s, g1 (g1 s) = g1 s) → (∀ s, g2 (g2 s) = g2 s) →
  (∀ s, g2 (g1 s) = g2 s) →
  corpusAt h c a ds →
  ∃ h1 h' : heap,
    Corpus.apply c (λ t _ _, g1 t) h = (Return (VRef c), h1) ∧
    Corpus.apply c (λ t _ _, g2 t) h1 = (Return (VRef c), h') ∧
    Corpus.apply c (λ t _ _, g2 t) h = (Return (VRef c), h').
Proof.
  intros Hg1 Hg2 Hab Hwf.
  destruct (apply_idem_docs g1 _ _ _ _ Hg1 Hwf) as (h1 & Hrun1 & Hwf1 & Hin1 & Hout1).
  destruct (apply_idem_docs g2 _ _ _ _ Hg2 Hwf1) as (h12 & Hrun12 & _ & Hin12 & Hout12).
  destruct (apply_idem_docs g2 _ _ _ _ Hg2 Hwf) as (h2 & Hrun2 & _ & Hin2 & Hout2).
  exists h1, h12. split; [done|]. split; [done|].
  rewrite Hrun2. f_equal. apply map_eq. intros l.
  destruct (decide (l ∈ ds)) as [Hl|Hl].
  - apply list_elem_of_lookup_1 in Hl as Hi. destruct Hi as [i Hi].
    destruct (corpusAt_lookup _ _ _ _ _ _ Hwf Hi) as [doc Hdoc].
    rewrite (Hin2 _ _ Hl Hdoc), (Hin12 _ _ Hl (Hin1 _ _ Hl Hdoc)). simpl.
    by rewrite Hab.
  - by rewrite Hout2, Hout12, Hout1.
Qed.

(** X6. [clean()] is idempotent and includes [trim()]: from any state
    of a corpus, [clean().clean()], [trim().clean()] and
    [clean().trim()] each end in the state a single [clean()] ends
    in. *)
Theorem clean_absorbs_trim h c a ds :
  corpusAt h c a ds →
  ∃ h1 h' : heap,
    Corpus.clean c h = (Return (VRef c), h') ∧
    Corpus.clean c h' = (Return (VRef c), h') ∧
    Corpus.trim c h' = (Return (VRef c), h') ∧
    Corpus.trim c h = (Return (VRef c), h1) ∧
    Corpus.clean c h1 = (Return (VRef c), h').
Proof.
  intros Hwf.
  destruct (apply_idem_absorb trim clean _ _ _ _ trim_idem clean_idem clean_trim Hwf)
    as (h1 & h' & Ht & Htc & Hc).
  destruct (apply_idem_docs clean _ _ _ _ clean_idem Hwf) as (h2 & Hrun & Hwf' & Hin & _).
  rewrite Hc in Hrun. injection Hrun as <-.
  exists h1, h'. split; [by apply then_self|]. split; [|split; [|split; by apply then_self]].
  - apply then_self. eapply apply_idem_again; [apply clean_idem|exact Hwf|exact Hc].
  - apply then_self.
    destruct (apply_idem_docs trim _ _ _ _ trim_idem Hwf') as (h3 & Hrun3 & _ & Hin3 & Hout3).
    rewrite Hrun3. f_equal. apply map_eq. intros l.
    destruct (decide (l ∈ ds)) as [Hl|Hl]; [|by apply Hout3].
    apply list_elem_of_lookup_1 in Hl as Hi. destruct Hi as [i Hi].
    destruct (corpusAt_lookup _ _ _ _ _ _ Hwf Hi) as [doc Hdoc].
    pose proof (Hin _ _ Hl Hdoc) as E.
    rewrite (Hin3 _ _ Hl E), E. simpl. by rewrite trim_clean.
Qed.

(** ** apply and map on the caller's objects *)

(** X7. [apply( fn )] works in place.  It returns the receiver, keeps
    its documents array with the same Document objects in the same
    order, creates no object, leaves every attribute and every object
    other than the documents as it was, and writes into each Document
    the callback's result, position after position: a Document stored
    at one position [i] only ends with [fn( text, attributes, i )]. *)
Theorem apply_in_place f h c a ds :
  corpusAt h c a ds →
  ∃ h' : heap,
    Corpus.apply c f h = (Return (VRef c), h') ∧
    corpusAt h' c a ds ∧
    dom h' = dom h ∧
    (∀ d doc, h !! d = Some (ODoc doc) →
       h' !! d = Some (ODoc (Doc (textAfter f d 0 ds (text doc) (attributes doc))
                                 (attributes doc)))) ∧
    (∀ i d doc, ds !! i = Some d → h !! d = Some (ODoc doc) →
       (∀ j, j ≠ i → ds !! j ≠ Some d) →
       textOf h' d = f (text doc) (attributes doc) i) ∧
    (∀ l, l ∉ ds → h' !! l = h !! l).
Proof.
  intros Hwf. destruct (apply_spec f _ _ _ _ Hwf) as (h' & Hrun & Hh').
  exists h'. split; [done|]. split.
  { by apply (corpusAt_retext h h' c a ds (λ l, textAfter f l 0 ds)). }
  split.
  { apply set_eq. intros l. by rewrite !elem_of_dom, Hh', fmap_is_Some. }
  split; [|split].
  - intros d doc Hd. by rewrite Hh', Hd.
  - intros i d doc Hi Hd Hother. unfold textOf. rewrite Hh', Hd. simpl.
    by rewrite (textAfter_once _ _ _ _ i).
  - intros l Hl. rewrite Hh'. destruct (h !! l) as [[[]| | |]|]; simpl; try done.
    by rewrite textAfter_notin.
Qed.

(** X8. [map( fn )] does to the objects of the caller exactly what
    [apply( fn )] does: from the same state, every object that existed
    before the call is the same after [map] as after [apply].  The
    corpus [map] returns is new and shows the texts the receiver shows
    after [apply]. *)
Theorem map_agrees_with_apply f h c a ds :
  corpusAt h c a ds →
  ∃ (ret : loc) (hm ha : heap),
    Corpus.map c f h = (Return (VRef ret), hm) ∧
    Corpus.apply c f h = (Return (VRef c), ha) ∧
    (ret ∉ dom h) ∧
    (∀ l, l ∈ dom h → hm !! l = ha !! l) ∧
    textsOf hm ret = textsOf ha c.
Proof.
  intros Hwf.
  destruct (map_spec f _ _ _ _ Hwf) as (ret & ra & hm & Hrun & Hret & Hra & Hr1 & Hr2 & Hhm).
  destruct (apply_spec f _ _ _ _ Hwf) as (ha & Hruna & Hha).
  exists ret, hm, ha. split; [done|]. split; [done|]. split; [done|].
  assert (∀ l, l ∈ dom h → hm !! l = ha !! l) as Hagree.
  { intros l Hl. by rewrite Hhm, Hha. }
  split; [done|].
  assert (corpusAt ha c a ds) as Hwfa.
  { by apply (corpusAt_retext h ha c a ds (λ l, textAfter f l 0 ds)). }
  assert (corpusAt hm ret ra ds) as Hwfm.
  { split; [done..|]. apply Forall_forall. intros d [i Hi]%list_elem_of_lookup_1.
    destruct (corpusAt_lookup _ _ _ _ _ _ Hwf Hi) as [doc Hdoc].
    eexists. apply docAt_Some. rewrite Hhm by by eapply elem_of_dom_2.
    by rewrite Hdoc. }
  rewrite (textsOf_corpusAt _ _ _ _ Hwfm), (textsOf_corpusAt _ _ _ _ Hwfa). f_equal.
  apply list_fmap_ext. intros i d Hi.
  destruct (corpusAt_lookup _ _ _ _ _ _ Hwf Hi) as [doc Hdoc].
  unfold textOf. rewrite Hagree; [done|]. by eapply elem_of_dom_2.
Qed.

(** ** removeWords: its argument checks and what it cannot do *)

(** A replacement no longer than any match does not lengthen a text. *)
Lemma replaceFrom_length r rep k s :
  r ≠ [] → (∀ u n, matchLen r u = Some n → length rep ≤ n) →
  k ≤ length s →
  length (replaceFrom r rep k s) + k ≤ length s.
Proof.
  intros Hr Hrep. revert k. induction s as [|c s IH]; intros k Hk.
  - rewrite replaceFrom_nil by done. simpl in *. lia.
  - destruct k as [|k].
    + rewrite replaceFrom_cons.
      destruct (matchLen r (c :: s)) as [[|n]|] eqn:E.
      * apply Hrep in E. specialize (IH 0). rewrite length_app. simpl. lia.
      * pose proof (matchLen_le _ _ _ E) as Hle. apply Hrep in E.
        specialize (IH n). rewrite length_app. simpl in *. lia.
      * specialize (IH 0). simpl. lia.
    + rewrite replaceFrom_skip. specialize (IH k). simpl in *. lia.
Qed.

Lemma stripWord_length ci w t :
  String.length (stripWord ci w t) ≤ String.length t.
Proof.
  rewrite <- !chars_length. unfold stripWord, lift, replaceAll. rewrite chars_str.
  pose proof (replaceFrom_length (wordRegExp ci w) [] 0 (chars t)) as H.
  rewrite Nat.add_0_r in H. apply H; [done| |lia]. intros; simpl; lia.
Qed.

Lemma stripWords_length ci ws t :
  String.length (stripWords ci ws t) ≤ String.length t.
Proof.
  unfold stripWords. revert t. induction ws as [|w ws IH]; intros t; simpl; [done|].
  etrans; [apply IH|]. apply stripWord_length.
Qed.

Lemma trimChars_length s : length (trimChars s) ≤ length s.
Proof.
  unfold trimChars.
  destruct (trimStart_suffix s) as (ws & Hs & _).
  destruct (trimEnd_prefix (trimStart s)) as (ws' & Hs' & _).
  rewrite Hs at 2. rewrite Hs' at 2. rewrite !length_app. lia.
Qed.

Lemma clean_length t : String.length (clean t) ≤ String.length t.
Proof.
  rewrite <- !chars_length. unfold clean, lift, cleanChars, replaceAll. rewrite chars_str.
  etrans; [|apply trimChars_length].
  pose proof (replaceFrom_length [One isWhiteSpace; Many1 isWhiteSpace] [" "%char] 0
                (trimChars (chars t))) as H.
  rewrite Nat.add_0_r in H. apply H; [done| |lia].
  intros [|c u] n; [done|]. rewrite matchLen_One_cons.
  destruct (isWhiteSpace c); [|done].
  destruct (matchLen [Many1 isWhiteSpace] u); [|done]. intros [= <-]. simpl. lia.
Qed.

(** A text without whitespace and periods offers no match. *)
Lemma stripWord_delimFree ci w t : delimFree t → stripWord ci w t = t.
Proof.
  intros Ht. unfold stripWord, lift, replaceAll.
  rewrite replaceFrom_free; [apply str_chars|done|by rewrite wordRegExp_last].
Qed.

Lemma stripWords_delimFree ci ws t : delimFree t → stripWords ci ws t = t.
Proof.
  intros Ht. unfold stripWords. induction ws as [|w ws IH]; simpl; [done|].
  by rewrite stripWord_delimFree.
Qed.

Lemma clean_delimFree t : delimFree t → clean t = t.
Proof.
  intros Ht%free_delim_white. unfold clean, lift, cleanChars, replaceAll, trimChars.
  rewrite (trimStart_id (chars t)) by by apply free_headOk.
  rewrite trimEnd_id by by apply free_headOk, free_rev.
  rewrite replaceFrom_free by done. apply str_chars.
Qed.

Lemma textAfter_text_only (g : string → string) l i ds t a :
  (∀ s, g s = s) → textAfter (λ s _ _, g s) l i ds t a = t.
Proof.
  intros Hg. apply (textAfter_preserves (λ s, s = t)); [done|]. by intros s ->.
Qed.

(** X9. [removeWords] checks its arguments before it touches a
    document.  A [words] value that is not array-like (undefined,
    null, a number, a boolean, an object without a length), or a
    second argument that is given and is not a boolean, raises
    InvalidArgument (a TypeError) and leaves every object as it was,
    whatever the corpus holds. *)
Theorem removeWords_argument_checks h c words ci :
  arrayLike h words = None ∨ (∃ v, ci = Some v ∧ ∀ b, v ≠ VBoolean b) →
  Corpus.removeWords c words ci h = (Throw InvalidArgument, h).
Proof.
  intros Hbad. unfold Corpus.removeWords.
  erewrite bind_Return by apply getHeap_run.
  unfold isArray. destruct (arrayLike h words) as [xs|] eqn:E.
  - destruct Hbad as [|(v & -> & Hv)]; [done|].
    rewrite bool_decide_eq_true_2 by done. change (negb true) with false. cbv iota.
    destruct v; try done. by destruct (Hv b).
  - rewrite bool_decide_eq_false_2; [done|]. by intros [? ?].
Qed.

(** X10. With an empty array of words [removeWords] is [clean()]: the
    two calls return the same value and end in the same state. *)
Theorem removeWords_no_words h c a ds w ci :
  corpusAt h c a ds → h !! w = Some (OArray []) →
  Corpus.removeWords c (VRef w) (VBoolean <$> ci) h = Corpus.clean c h.
Proof.
  intros Hwf Hw.
  destruct (removeWords_spec _ _ _ _ _ [] ci Hwf Hw) as (h1 & h' & Hrun & _ & H1 & H2);
    [constructor|].
  destruct (apply_text_spec clean _ _ _ _ Hwf) as (h2 & Hrun2 & _ & Hh2).
  rewrite Hrun. unfold Corpus.clean. erewrite bind_Return by exact Hrun2.
  simpl. f_equal. apply map_eq. intros l. rewrite H2, Hh2, H1.
  destruct (h !! l) as [[[t at_]| | |]|]; simpl; try done.
  by rewrite (textAfter_text_only (stripWords (default false ci) [])).
Qed.

(** X11. [removeWords] only ever deletes.  For every array of words and
    either setting of the flag, no text is longer afterwards than it
    was, and a text without any whitespace or period character is
    left exactly as it was, whatever the words are. *)
Theorem removeWords_only_deletes h c a ds w ws ci :
  corpusAt h c a ds →
  h !! w = Some (OArray (VString <$> ws)) →
  Forall (λ s, plainWord s = true) ws →
  ∃ h' : heap,
    Corpus.removeWords c (VRef w) (VBoolean <$> ci) h = (Return (VRef c), h') ∧
    ∀ d doc, h !! d = Some (ODoc doc) →
      String.length (textOf h' d) ≤ String.length (text doc) ∧
      (delimFree (text doc) → textOf h' d = text doc).
Proof.
  intros Hwf Hw Hplain.
  destruct (removeWords_text _ _ _ _ _ _ ci Hwf Hw Hplain) as (h' & Hrun & _ & Htext).
  exists h'. split; [done|]. intros d doc Hdoc. rewrite (Htext _ _ Hdoc). split.
  - apply (textAfter_preserves (λ s, String.length s ≤ String.length (text doc))).
    + apply (textAfter_preserves (λ s, String.length s ≤ String.length (text doc)));
        [done|].
      intros s Hs. etrans; [apply stripWords_length|done].
    + intros s Hs. etrans; [apply clean_length|done].
  - intros Hfree.
    apply (textAfter_preserves (λ s, s = text doc)).
    + apply (textAfter_preserves (λ s, s = text doc)); [done|].
      intros s ->. by apply stripWords_delimFree.
    + intros s ->. by apply clean_delimFree.
Qed.

(** ** addDoc, addDocs and the documents array *)

Lemma unchangedOn_dom (h h' : heap) l : unchangedOn h h' → l ∈ dom h → l ∈ dom h'.
Proof. intros Hu Hl. apply elem_of_dom. rewrite Hu by done. by apply elem_of_dom. Qed.

Lemma corpusAt_ne h c a ds : corpusAt h c a ds → c ≠ a ∧ (c ∉ ds) ∧ (a ∉ ds).
Proof.
  intros [Hc Ha Hd]. split; [intros ->; congruence|].
  rewrite Forall_forall in Hd.
  split; intros [doc Hdoc%docAt_Some]%Hd; congruence.
Qed.

Lemma corpusAt_dom h c a ds :
  corpusAt h c a ds → c ∈ dom h ∧ a ∈ dom h ∧ Forall (λ d, d ∈ dom h) ds.
Proof.
  intros [Hc Ha Hd]. split; [by eapply elem_of_dom_2|]. split; [by eapply elem_of_dom_2|].
  eapply Forall_impl; [exact Hd|]. intros d [doc Hdoc%docAt_Some]. by eapply elem_of_dom_2.
Qed.

(** The documents of a corpus stay Documents where the heap keeps the
    objects it had. *)
Lemma docs_unchanged (h h' : heap) (ds : list loc) :
  (∀ d, d ∈ ds → h' !! d = h !! d) →
  Forall (λ d, is_Some (docAt h (VRef d))) ds →
  Forall (λ d, is_Some (docAt h' (VRef d))) ds.
Proof.
  intros Hsame Hd. apply Forall_forall. intros d Hin.
  rewrite Forall_forall in Hd. destruct (Hd _ Hin) as [doc Hdoc%docAt_Some].
  exists doc. apply docAt_Some. by rewrite Hsame.
Qed.

Lemma textOf_unchanged (h h' : heap) (ds : list loc) :
  (∀ d, d ∈ ds → h' !! d = h !! d) → textOf h' <$> ds = textOf h <$> ds.
Proof.
  intros Hsame. apply list_fmap_ext. intros i d Hi. unfold textOf.
  rewrite Hsame; [done|]. by eapply list_elem_of_lookup_2.
Qed.

(** [addDoc] with a string: the Document is made, then pushed. *)
Lemma addDoc_string_run h c a ds s :
  corpusAt h c a ds →
  let at_ := fresh (dom h) in
  let d := fresh (dom (<[at_:=OObject ∅]> h)) in
  Corpus.addDoc c (VString s) h =
    (Return (), <[a:=OArray (VRef <$> (ds ++ [d]))]>
                  (<[d:=ODoc (Doc s (VRef at_))]> (<[at_:=OObject ∅]> h))) ∧
  (at_ ∉ dom h) ∧ (d ∉ dom h) ∧ d ≠ at_.
Proof.
  intros Hwf at_ d.
  assert (at_ ∉ dom h) as Hat by apply is_fresh.
  assert (d ∉ dom (<[at_:=OObject ∅]> h)) as Hd by apply is_fresh.
  assert ((d ∉ dom h) ∧ d ≠ at_) as [HdH Hda].
  { rewrite dom_insert in Hd. set_solver. }
  split; [|done].
  destruct (corpusAt_dom _ _ _ _ Hwf) as (Hcd & Had & _).
  destruct Hwf as [Hc Ha _].
  unfold Corpus.addDoc. erewrite bind_Return by apply getHeap_run.
  change (isString (VString s)) with true. cbv iota.
  erewrite (bind_Return _ _ h s h) by done.
  erewrite bind_Return by apply newDoc_run. fold at_ d.
  erewrite bind_Return.
  2:{ apply documentsOf_run. rewrite !lookup_insert_ne; [done|intros ->; done..]. }
  erewrite push_run.
  2:{ rewrite !lookup_insert_ne; [done|intros ->; done..]. }
  by rewrite fmap_app.
Qed.

(** X12. [addDoc] puts one document at the end of the corpus.  For a
    string it makes a new Document with that text and pushes it; for
    a Document it pushes the object it was given, not a copy.  Either
    way the documents array is lengthened in place, the documents
    already there keep their places, and no other object of the caller
    changes. *)
Theorem addDoc_appends h c a ds :
  corpusAt h c a ds →
  (∀ s, ∃ (d : loc) (h' : heap),
     Corpus.addDoc c (VString s) h = (Return (), h') ∧
     (d ∉ dom h) ∧
     corpusAt h' c a (ds ++ [d]) ∧
     textsOf h' c = Some ((textOf h <$> ds) ++ [s]) ∧
     (∀ l, l ∈ dom h → l ≠ a → h' !! l = h !! l)) ∧
  (∀ d doc, h !! d = Some (ODoc doc) →
     Corpus.addDoc c (VRef d) h =
       (Return (), <[a:=OArray (VRef <$> (ds ++ [d]))]> h) ∧
     corpusAt (<[a:=OArray (VRef <$> (ds ++ [d]))]> h) c a (ds ++ [d])).
Proof.
  intros Hwf. pose proof (corpusAt_ne _ _ _ _ Hwf) as (Hca & Hcds & Hads).
  pose proof (corpusAt_dom _ _ _ _ Hwf) as (Hcd & Had & Hdsd).
  split.
  - intros s. destruct (addDoc_string_run _ _ _ _ s Hwf) as (Hrun & Hat & Hd & Hda).
    set (at_ := fresh (dom h)) in *.
    set (d := fresh (dom (<[at_:=OObject ∅]> h))) in *.
    set (h' := <[a:=_]> _) in *.
    assert (∀ l, l ∈ dom h → l ≠ a → h' !! l = h !! l) as Hold.
    { intros l Hl Hla. unfold h'. rewrite !lookup_insert_ne; [done|intros <-; done..]. }
    assert (h' !! d = Some (ODoc (Doc s (VRef at_)))) as Hd'.
    { unfold h'. rewrite lookup_insert_ne by (intros <-; done). by rewrite lookup_insert_eq. }
    assert (corpusAt h' c a (ds ++ [d])) as Hwf'.
    { destruct Hwf as [Hc Ha Hds]. split.
      - by rewrite Hold.
      - unfold h'. by rewrite lookup_insert_eq.
      - apply Forall_app. split.
        + eapply docs_unchanged; [|done]. intros d' Hd'in. apply Hold.
          * rewrite Forall_forall in Hdsd. by apply Hdsd.
          * by intros ->.
        + repeat constructor. eexists. by apply docAt_Some. }
    exists d, h'. split; [done|]. split; [done|]. split; [done|]. split; [|done].
    rewrite (textsOf_corpusAt _ _ _ _ Hwf'), fmap_app. f_equal. f_equal.
    + apply textOf_unchanged. intros d' Hd'in. apply Hold.
      * rewrite Forall_forall in Hdsd. by apply Hdsd.
      * by intros ->.
    + simpl. unfold textOf. by rewrite Hd'.
  - intros d doc Hd. destruct Hwf as [Hc Ha Hds].
    assert (a ≠ d) as Had' by (intros ->; congruence).
    split.
    + erewrite addDoc_document by done. by rewrite fmap_app.
    + split.
      * rewrite lookup_insert_ne by done. done.
      * by rewrite lookup_insert_eq.
      * apply Forall_app. split.
        -- eapply docs_unchanged; [|done]. intros d' Hd'in.
           rewrite lookup_insert_ne; [done|]. by intros ->.
        -- repeat constructor. exists doc. apply docAt_Some.
           by rewrite lookup_insert_ne.
Qed.

(** X13. [addDoc] takes a string or a Document and nothing else:
    [undefined], [null], a boolean, a number, an array (also one of
    strings or of Documents) and a Corpus raise InvalidArgument (a
    TypeError), and nothing has changed. *)
Theorem addDoc_rejects h c v :
  (v = VUndefined ∨ v = VNull ∨ (∃ b, v = VBoolean b) ∨ (∃ n, v = VNumber n) ∨
   (∃ l xs, v = VRef l ∧ h !! l = Some (OArray xs)) ∨
   (∃ l ds, v = VRef l ∧ h !! l = Some (OCorpus ds))) →
  Corpus.addDoc c v h = (Throw InvalidArgument, h).
Proof.
  intros Hv. unfold Corpus.addDoc. erewrite bind_Return by apply getHeap_run.
  destruct Hv as [->| [->| [[b ->]| [[n ->]| [(l & xs & -> & Hl)|(l & ds & -> & Hl)]]]]];
    try done; unfold isDoc, isObject; simpl; by rewrite Hl.
Qed.

(** [wrapStrings] makes one Document for each string: new objects,
    no two of them the same. *)
Lemma wrapStrings_fresh (h : heap) l ss :
  h !! l = Some (OArray (VString <$> ss)) →
  ∃ (arr : loc) (ls : list loc) (h' : heap),
    Corpus.wrapStrings (VRef l) h = (Return (VRef arr), h') ∧
    unchangedOn h h' ∧
    (arr ∉ dom h) ∧
    h' !! arr = Some (OArray (VRef <$> ls)) ∧
    NoDup ls ∧ Forall (λ d, d ∉ dom h) ls ∧
    Forall2 (λ d s, ∃ a, h' !! d = Some (ODoc (Doc s a))) ls ss.
Proof.
  intros Hl.
  remember (Corpus.wrapStrings (VRef l) h) as r eqn:Hr.
  unfold Corpus.wrapStrings in Hr.
  erewrite bind_Return in Hr by by eapply lengthOf_run, arrayLike_array.
  rewrite length_fmap in Hr.
  erewrite bind_Return in Hr by apply alloc_run.
  set (n := length ss) in *.
  set (arr := fresh (dom h)) in *.
  set (h1 := <[arr:=OArray (replicate n VUndefined)]> h) in *.
  assert (arr ∉ dom h) as Harr by apply is_fresh.
  assert (unchangedOn h h1) as Hold.
  { intros x Hx. unfold h1. rewrite lookup_insert_ne; [done|]. by apply fresh_ne. }
  assert (l ∈ dom h) as Hld by by apply elem_of_dom.
  edestruct (forRange_inv
    (λ j H,
       unchangedOn h H ∧ arr ∈ dom H ∧
       ∃ ls, length ls = j ∧
         H !! arr = Some (OArray ((VRef <$> ls) ++ replicate (n - j) VUndefined)) ∧
         NoDup ls ∧ Forall (λ d, d ∈ dom H ∧ d ∉ dom h) ls ∧
         Forall2 (λ d s, ∃ a, H !! d = Some (ODoc (Doc s a))) ls (take j ss)))
    as (h' & Hrun & Hinv); [| |erewrite bind_Return in Hr by exact Hrun].
  - split; [done|]. split.
    { unfold h1. rewrite dom_insert. set_solver. }
    exists []. split; [done|]. split; [|repeat constructor].
    unfold h1. rewrite lookup_insert_eq, Nat.sub_0_r. done.
  - intros j H [_ Hj] (HoldH & HarrH & ls & Hlen & Harr' & Hnd & Hdom & Hdocs). simpl in Hj.
    destruct (lookup_lt_is_Some_2 ss j Hj) as [s Hs].
    erewrite bind_Return by (eapply index_run, arrayLike_array; by rewrite HoldH).
    rewrite list_lookup_fmap, Hs.
    change (default VUndefined (VString <$> Some s)) with (VString s).
    erewrite (bind_Return _ _ H s H) by done.
    erewrite bind_Return by apply newDoc_run.
    set (a := fresh (dom H)).
    set (H1 := <[a:=OObject ∅]> H).
    set (d := fresh (dom H1)).
    set (H2 := <[d:=ODoc (Doc s (VRef a))]> H1).
    assert (a ∉ dom H) as Ha by apply is_fresh.
    assert (d ∉ dom H1) as Hd by apply is_fresh.
    assert ((d ∉ dom H) ∧ d ≠ a) as [HdH Hda].
    { unfold H1 in Hd. rewrite dom_insert in Hd. set_solver. }
    assert (∀ x, x ∈ dom H → H2 !! x = H !! x) as HoldH2.
    { intros x Hx. unfold H2, H1. rewrite !lookup_insert_ne; [done|..]; by intros ->. }
    assert (d ∉ dom h) as Hdh.
    { intros Hin. apply HdH. by eapply unchangedOn_dom. }
    eexists. split.
    { apply arraySet_run. by rewrite HoldH2. }
    split; [|split].
    + intros x Hx. rewrite lookup_insert_ne by (intros ->; done).
      rewrite HoldH2; [by apply HoldH|]. by eapply unchangedOn_dom.
    + rewrite dom_insert. set_solver.
    + exists (ls ++ [d]). split; [rewrite length_app; simpl; lia|]. split; [|split; [|split]].
      * rewrite lookup_insert_eq. f_equal. f_equal.
        rewrite insert_app_r_alt by (rewrite length_fmap; lia).
        rewrite length_fmap, Hlen, Nat.sub_diag.
        replace (n - j) with (S (n - S j)) by lia.
        rewrite fmap_app, <- app_assoc. done.
      * apply NoDup_app. split; [done|]. split; [|apply NoDup_singleton].
        intros x Hx ->%list_elem_of_singleton.
        rewrite Forall_forall in Hdom. by destruct (Hdom _ Hx).
      * apply Forall_app. split.
        -- eapply Forall_impl; [exact Hdom|]. intros x [Hx ?]. split; [|done].
           rewrite dom_insert. apply elem_of_union_r. unfold H2, H1.
           rewrite !dom_insert. set_solver.
        -- repeat constructor; [|done]. rewrite dom_insert. apply elem_of_union_r.
           unfold H2. rewrite dom_insert. set_solver.
      * rewrite (take_S_r _ _ _ Hs). apply Forall2_app.
        -- eapply Forall2_impl; [exact Hdocs|]. intros d' s' [a' Hd'].
           exists a'. rewrite lookup_insert_ne.
           ++ rewrite HoldH2; [done|]. by eapply elem_of_dom_2.
           ++ intros <-. rewrite Harr' in Hd'. done.
        -- repeat constructor. eexists. rewrite lookup_insert_ne.
           ++ unfold H2. by rewrite lookup_insert_eq.
           ++ by intros ->.
  - simpl in Hinv. destruct Hinv as (HoldH & _ & ls & Hlen & Harr' & Hnd & Hdom & Hdocs).
    rewrite Nat.sub_diag in Harr'. simpl in Harr'. rewrite app_nil_r in Harr'.
    rewrite take_ge in Hdocs by lia.
    exists arr, ls, h'. subst r. split; [done|]. split; [done|]. split; [done|].
    split; [done|]. split; [done|]. split; [|done].
    eapply Forall_impl; [exact Hdom|]. by intros x [_ ?].
Qed.

Lemma concat_arrays (h : heap) a xs b ys :
  h !! a = Some (OArray xs) → h !! b = Some (OArray ys) →
  concat (VRef a) (VRef b) h =
    (Return (VRef (fresh (dom h))), <[fresh (dom h):=OArray (xs ++ ys)]> h).
Proof.
  intros Ha Hb. unfold concat.
  rewrite (bind_Return _ _ _ _ _ (load_run _ _ _ Ha)). cbv beta iota.
  erewrite bind_Return by apply getHeap_run.
  cbv beta iota zeta. rewrite Hb. done.
Qed.

Lemma textsOf_app h c a (ds ls : list loc) ts ss :
  corpusAt h c a (ds ++ ls) →
  textOf h <$> ds = ts →
  Forall2 (λ d s, ∃ x, h !! d = Some (ODoc (Doc s x))) ls ss →
  textsOf h c = Some (ts ++ ss).
Proof.
  intros Hwf <- Hls. rewrite (textsOf_corpusAt _ _ _ _ Hwf), fmap_app. f_equal. f_equal.
  clear Hwf. induction Hls as [|d s ls ss [x Hd] _ IH]; [done|].
  rewrite fmap_cons, IH. unfold textOf. by rewrite Hd.
Qed.

Lemma Forall2_docs (H : heap) (ls : list loc) (ss : list string) :
  Forall2 (λ d s, ∃ a, H !! d = Some (ODoc (Doc s a))) ls ss →
  Forall (λ d, is_Some (docAt H (VRef d))) ls.
Proof.
  induction 1 as [|d s ls ss [a Hd] _ IH]; constructor; [|done].
  eexists. by apply docAt_Some.
Qed.

Lemma isDocArray_refs h w (xs : list loc) :
  h !! w = Some (OArray (VRef <$> xs)) →
  Forall (λ d, is_Some (docAt h (VRef d))) xs →
  isDocArray h (VRef w) = true.
Proof.
  intros Hw Hxs. apply isDocArray_true. exists (VRef <$> xs).
  split; [by apply arrayLike_array|]. apply Forall_fmap.
  eapply Forall_impl; [exact Hxs|]. intros d [doc Hdoc%docAt_Some]. simpl.
  by eapply isDoc_true.
Qed.

Lemma isDoc_array h w xs : h !! w = Some (OArray xs) → isDoc h (VRef w) = false.
Proof. intros Hw. unfold isDoc, isObject. by rewrite Hw. Qed.

Lemma addDocs_documents_run h c a ds w (xs : list loc) :
  corpusAt h c a ds →
  h !! w = Some (OArray (VRef <$> xs)) →
  Forall (λ d, is_Some (docAt h (VRef d))) xs →
  Corpus.addDocs c (VRef w) h =
    (Return (), <[c:=OCorpus (VRef (fresh (dom h)))]>
                  (<[fresh (dom h):=OArray (VRef <$> (ds ++ xs))]> h)).
Proof.
  intros [Hc Ha Hds] Hw Hxs.
  unfold Corpus.addDocs. erewrite bind_Return by apply getHeap_run.
  rewrite (isStringArray_refs _ _ _ Hw), (isDocArray_refs _ _ _ Hw Hxs).
  erewrite bind_Return by by apply documentsOf_run.
  erewrite bind_Return by by apply concat_arrays.
  by rewrite fmap_app.
Qed.

(** The state [addDocs] leaves with an array of Documents. *)
Lemma addDocs_documents_spec h c a ds w (xs : list loc) :
  corpusAt h c a ds →
  h !! w = Some (OArray (VRef <$> xs)) →
  Forall (λ d, is_Some (docAt h (VRef d))) xs →
  let a' := fresh (dom h) in
  let h' := <[c:=OCorpus (VRef a')]> (<[a':=OArray (VRef <$> (ds ++ xs))]> h) in
  corpusAt h' c a' (ds ++ xs) ∧ (∀ l, l ∈ dom h → l ≠ c → h' !! l = h !! l).
Proof.
  intros Hwf Hw Hxs a' h'.
  pose proof (corpusAt_ne _ _ _ _ Hwf) as (Hca & Hcds & Hads).
  pose proof (corpusAt_dom _ _ _ _ Hwf) as (Hcd & Had & Hdsd).
  assert (a' ∉ dom h) as Ha' by apply is_fresh.
  assert (a' ≠ c) as Hne' by (intros E; by rewrite E in Ha').
  assert (∀ l, l ∈ dom h → l ≠ c → h' !! l = h !! l) as Hold.
  { intros l Hl Hlc. unfold h'. rewrite !lookup_insert_ne; [done|intros <-; done..]. }
  split; [|done]. destruct Hwf as [Hc Ha Hds]. split.
  - unfold h'. by rewrite lookup_insert_eq.
  - unfold h'. rewrite lookup_insert_ne by done. by rewrite lookup_insert_eq.
  - eapply docs_unchanged; [|by apply Forall_app]. intros d Hd.
    apply Hold.
    + apply elem_of_app in Hd as [Hd|Hd].
      * rewrite Forall_forall in Hdsd. by apply Hdsd.
      * rewrite Forall_forall in Hxs. destruct (Hxs _ Hd) as [doc Hdoc%docAt_Some].
        by eapply elem_of_dom_2.
    + intros ->. apply elem_of_app in Hd as [Hd|Hd]; [done|].
      rewrite Forall_forall in Hxs. destruct (Hxs _ Hd) as [doc Hdoc%docAt_Some].
      congruence.
Qed.

Lemma addDocs_strings_run h c a ds w ss :
  corpusAt h c a ds →
  h !! w = Some (OArray (VString <$> ss)) →
  ∃ (a' : loc) (ls : list loc) (h' : heap),
    Corpus.addDocs c (VRef w) h = (Return (), h') ∧
    (a' ∉ dom h) ∧
    corpusAt h' c a' (ds ++ ls) ∧
    length ls = length ss ∧
    NoDup ls ∧ Forall (λ d, d ∉ dom h) ls ∧
    textsOf h' c = Some ((textOf h <$> ds) ++ ss) ∧
    (∀ l, l ∈ dom h → l ≠ c → h' !! l = h !! l).
Proof.
  intros Hwf Hw.
  pose proof (corpusAt_dom _ _ _ _ Hwf) as (Hcd & Had & Hdsd).
  pose proof (corpusAt_ne _ _ _ _ Hwf) as (Hca & Hcds & Hads).
  destruct (decide (ss = [])) as [->|Hss].
  { (* the empty array counts as an array of Documents *)
    destruct (addDocs_documents_spec _ _ _ _ _ [] Hwf Hw (Forall_nil_2 _))
      as [Hwf' Hold].
    eexists (fresh (dom h)), [], _.
    split; [by apply (addDocs_documents_run _ _ _ _ _ [] Hwf Hw)|].
    split; [apply is_fresh|]. split; [exact Hwf'|].
    split; [done|]. split; [constructor|]. split; [constructor|]. split; [|done].
    eapply textsOf_app; [exact Hwf'| |constructor].
    apply textOf_unchanged. intros d Hd. apply Hold.
    - rewrite Forall_forall in Hdsd. by apply Hdsd.
    - by intros ->. }
  destruct (wrapStrings_fresh h w ss Hw)
    as (arr & ls & h1 & Hrun & Hold & Harr & Harr1 & Hnd & Hfresh & Hdocs).
  destruct Hwf as [Hc Ha Hds].
  set (a' := fresh (dom h1)).
  set (h2 := <[a':=OArray ((VRef <$> ds) ++ (VRef <$> ls))]> h1).
  assert (a' ∉ dom h1) as Ha'1 by apply is_fresh.
  assert (a' ∉ dom h) as Ha'.
  { intros Hin. apply Ha'1. by eapply unchangedOn_dom. }
  assert (a' ≠ c) as Ha'c by (intros E; by rewrite E in Ha').
  assert (∀ l, l ∈ dom h → l ≠ c → <[c:=OCorpus (VRef a')]> h2 !! l = h !! l) as Hkeep.
  { intros l Hl Hlc. rewrite lookup_insert_ne by done. unfold h2.
    rewrite lookup_insert_ne by (intros <-; done). by apply Hold. }
  pose proof (Forall2_docs _ _ _ Hdocs) as Hls.
  assert (∀ d doc, h1 !! d = Some (ODoc doc) →
            <[c:=OCorpus (VRef a')]> h2 !! d = Some (ODoc doc)) as Hnew.
  { intros d doc Hd.
    rewrite lookup_insert_ne by (intros <-; rewrite Hold, Hc in Hd; done).
    unfold h2. rewrite lookup_insert_ne; [done|]. intros <-.
    apply Ha'1. by eapply elem_of_dom_2. }
  assert (∀ d, d ∈ ds → <[c:=OCorpus (VRef a')]> h2 !! d = h !! d) as Holdd.
  { intros d Hd. apply Hkeep.
    - rewrite Forall_forall in Hdsd. by apply Hdsd.
    - by intros ->. }
  assert (corpusAt (<[c:=OCorpus (VRef a')]> h2) c a' (ds ++ ls)) as Hwf'.
  { split.
    - by rewrite lookup_insert_eq.
    - rewrite lookup_insert_ne by done. unfold h2. by rewrite lookup_insert_eq, fmap_app.
    - apply Forall_app. split.
      + by eapply docs_unchanged.
      + eapply Forall_impl; [exact Hls|]. intros d [doc Hdoc%docAt_Some].
        exists doc. by apply docAt_Some, Hnew. }
  exists a', ls, (<[c:=OCorpus (VRef a')]> h2). split.
  { unfold Corpus.addDocs. erewrite bind_Return by apply getHeap_run.
    rewrite (isStringArray_strings _ _ ss Hw Hss).
    erewrite bind_Return by exact Hrun.
    erewrite bind_Return by (apply documentsOf_run; by rewrite Hold).
    erewrite bind_Return.
    2:{ apply concat_arrays; [by rewrite Hold|done]. }
    done. }
  split; [done|]. split; [done|]. split; [by eapply Forall2_length|].
  split; [done|]. split; [done|]. split; [|done].
  eapply textsOf_app; [done|by apply textOf_unchanged|].
  eapply Forall2_impl; [exact Hdocs|]. intros d s [x Hd]. exists x.
  by apply Hnew.
Qed.

(** X14. [addDocs] with an array of strings makes one new Document for
    each string, in order, and puts them behind the documents the
    corpus has, so that [nDocs] grows by the length of the array.  The
    new Documents are distinct objects that did not exist before.  The
    corpus gets a new documents array: the array it had, the array of
    strings and every other object of the caller stay as they were. *)
Theorem addDocs_wraps_strings h c a ds w ss :
  corpusAt h c a ds →
  h !! w = Some (OArray (VString <$> ss)) →
  ∃ (a' : loc) (ls : list loc) (h' : heap),
    Corpus.addDocs c (VRef w) h = (Return (), h') ∧
    (a' ∉ dom h) ∧
    corpusAt h' c a' (ds ++ ls) ∧
    nDocs c h' = (Return (length ds + length ss), h') ∧
    NoDup ls ∧ Forall (λ d, d ∉ dom h) ls ∧
    textsOf h' c = Some ((textOf h <$> ds) ++ ss) ∧
    (∀ l, l ∈ dom h → l ≠ c → h' !! l = h !! l).
Proof.
  intros Hwf Hw.
  destruct (addDocs_strings_run _ _ _ _ _ _ Hwf Hw)
    as (a' & ls & h' & Hrun & Ha' & Hwf' & Hlen & Hnd & Hfresh & Htexts & Hold).
  exists a', ls, h'. split; [done|]. split; [done|]. split; [done|]. split; [|done].
  by rewrite (corpusAt_nDocs _ _ _ _ Hwf'), length_app, Hlen.
Qed.

(** X15. [addDocs] with an array of Documents puts these very objects,
    in order, behind the documents the corpus has.  The corpus gets a
    new documents array; the array it had and the array passed in are
    not changed, and neither is any Document. *)
Theorem addDocs_shares_documents h c a ds w (xs : list loc) :
  corpusAt h c a ds →
  h !! w = Some (OArray (VRef <$> xs)) →
  Forall (λ d, is_Some (docAt h (VRef d))) xs →
  ∃ (a' : loc) (h' : heap),
    Corpus.addDocs c (VRef w) h = (Return (), h') ∧
    (a' ∉ dom h) ∧
    corpusAt h' c a' (ds ++ xs) ∧
    (∀ l, l ∈ dom h → l ≠ c → h' !! l = h !! l).
Proof.
  intros Hwf Hw Hxs.
  destruct (addDocs_documents_spec _ _ _ _ _ _ Hwf Hw Hxs) as [Hwf' Hold].
  eexists (fresh (dom h)), _.
  split; [by apply (addDocs_documents_run _ _ _ _ _ _ Hwf Hw)|].
  split; [apply is_fresh|]. split; [exact Hwf'|exact Hold].
Qed.

(** X16. [addDocs] takes an array of strings or an array of Documents.
    A value that is not array-like, and an array that holds a string
    next to anything that is not a string (such as a Document), raise
    InvalidArgument (a TypeError), and nothing has changed. *)
Theorem addDocs_rejects h c docs :
  (arrayLike h docs = None ∨
   ∃ w xs s x, docs = VRef w ∧ h !! w = Some (OArray xs) ∧
     VString s ∈ xs ∧ x ∈ xs ∧ isString x = false) →
  Corpus.addDocs c docs h = (Throw InvalidArgument, h).
Proof.
  intros Hbad. unfold Corpus.addDocs. erewrite bind_Return by apply getHeap_run.
  assert (isStringArray h docs = false) as ->.
  { destruct (isStringArray h docs) eqn:E; [|done].
    apply isStringArray_true in E as (l & ss & -> & Hl & _).
    destruct Hbad as [Hno|(w & xs & s & x & [= <-] & Hw & _ & Hx & Hns)].
    - by erewrite arrayLike_array in Hno.
    - rewrite Hl in Hw. injection Hw as <-.
      apply list_elem_of_fmap in Hx as (s' & -> & _). done. }
  assert (isDocArray h docs = false) as ->; [|done].
  destruct (isDocArray h docs) eqn:E; [|done].
  apply isDocArray_true in E as (ys & Hys & Hall).
  destruct Hbad as [Hno|(w & xs & s & x & -> & Hw & Hs & _)]; [congruence|].
  erewrite arrayLike_array in Hys by done. injection Hys as <-.
  rewrite Forall_forall in Hall. by specialize (Hall _ Hs).
Qed.

Lemma newCorpus_adopts_run h w (xs : list loc) :
  h !! w = Some (OArray (VRef <$> xs)) →
  Forall (λ d, is_Some (docAt h (VRef d))) xs →
  Corpus.newCorpus (VRef w) h =
    (Return (fresh (dom h)), <[fresh (dom h):=OCorpus (VRef w)]> h).
Proof.
  intros Hw Hxs.
  set (c := fresh (dom h)).
  assert (h !! c = None) as Hc' by apply fresh_lookup.
  assert (w ≠ c) as Hwc by (intros ->; congruence).
  unfold Corpus.newCorpus. erewrite bind_Return by apply alloc_run. fold c.
  erewrite (bind_Return _ _ _ () (<[c:=OCorpus (VRef w)]> h)); [reflexivity|].
  unfold Corpus.init. erewrite bind_Return by apply getHeap_run.
  change (isString (VRef w)) with false. cbv iota.
  rewrite isStringArray_fresh_corpus, isDoc_fresh_corpus,
    isDocArray_fresh_corpus by done.
  rewrite (isStringArray_refs _ _ _ Hw), (isDoc_array _ _ _ Hw),
    (isDocArray_refs _ _ _ Hw Hxs).
  unfold setDocuments, store. by rewrite insert_insert_eq.
Qed.

(** X17. A corpus built from an array of Documents keeps that array as
    its own [documents]: nothing is copied.  A later [addDoc] on the
    corpus therefore lengthens the caller's array too, while a later
    [addDocs] gives the corpus a new array and leaves the caller's as
    it is. *)
Theorem constructor_adopts_array h w (xs : list loc) :
  h !! w = Some (OArray (VRef <$> xs)) → xs ≠ [] →
  Forall (λ d, is_Some (docAt h (VRef d))) xs →
  ∃ (c : loc) (h1 : heap),
    Corpus.newCorpus (VRef w) h = (Return c, h1) ∧
    (c ∉ dom h) ∧
    corpusAt h1 c w xs ∧
    (∀ s, ∃ (d : loc) (h2 : heap),
       Corpus.addDoc c (VString s) h1 = (Return (), h2) ∧
       (d ∉ dom h1) ∧ textOf h2 d = s ∧
       h2 !! w = Some (OArray (VRef <$> (xs ++ [d])))) ∧
    (∀ w' ss, h1 !! w' = Some (OArray (VString <$> ss)) →
       ∃ (a' : loc) (h2 : heap),
         Corpus.addDocs c (VRef w') h1 = (Return (), h2) ∧
         a' ≠ w ∧ h2 !! c = Some (OCorpus (VRef a')) ∧
         h2 !! w = Some (OArray (VRef <$> xs))).
Proof.
  intros Hw Hne Hxs.
  set (c := fresh (dom h)).
  assert (c ∉ dom h) as Hc by apply is_fresh.
  assert (h !! c = None) as Hc' by apply fresh_lookup.
  assert (w ≠ c) as Hwc by (intros ->; congruence).
  set (h1 := <[c:=OCorpus (VRef w)]> h).
  assert (corpusAt h1 c w xs) as Hwf.
  { split.
    - unfold h1. by rewrite lookup_insert_eq.
    - unfold h1. by rewrite lookup_insert_ne.
    - eapply docs_unchanged; [|exact Hxs]. intros d Hd. unfold h1.
      rewrite lookup_insert_ne; [done|]. intros <-.
      rewrite Forall_forall in Hxs. destruct (Hxs _ Hd) as [doc Hdoc%docAt_Some].
      congruence. }
  exists c, h1. split.
  { unfold Corpus.newCorpus. erewrite bind_Return by apply alloc_run. fold c.
    erewrite (bind_Return _ _ _ () h1); [reflexivity|].
    unfold Corpus.init. erewrite bind_Return by apply getHeap_run.
    change (isString (VRef w)) with false. cbv iota.
    rewrite isStringArray_fresh_corpus, isDoc_fresh_corpus,
      isDocArray_fresh_corpus by done.
    rewrite (isStringArray_refs _ _ _ Hw), (isDoc_array _ _ _ Hw),
      (isDocArray_refs _ _ _ Hw Hxs).
    unfold setDocuments, store, h1. by rewrite insert_insert_eq. }
  split; [done|]. split; [done|]. split.
  - intros s. destruct (addDoc_string_run _ _ _ _ s Hwf) as (Hrun & Hat & Hd & Hda).
    set (at_ := fresh (dom h1)) in *.
    set (d := fresh (dom (<[at_:=OObject ∅]> h1))) in *.
    exists d. eexists. split; [exact Hrun|]. split; [done|]. split.
    + unfold textOf. rewrite lookup_insert_ne.
      * by rewrite lookup_insert_eq.
      * intros <-. apply Hd. by eapply elem_of_dom_2, Hwf.
    + by rewrite lookup_insert_eq.
  - intros w' ss Hw'.
    destruct (addDocs_strings_run _ _ _ _ _ _ Hwf Hw')
      as (a' & ls & h2 & Hrun & Ha' & Hwf' & _ & _ & _ & _ & Hold).
    pose proof (corpusAt_dom _ _ _ _ Hwf) as (_ & Hwd & _).
    exists a', h2. split; [done|]. split; [by intros ->|]. split; [apply Hwf'|].
    rewrite Hold; [apply Hwf|done|done].
Qed.

(** ** filter *)

Lemma kept_snoc h f ds d :
  kept h f (ds ++ [d]) =
  kept h f ds ++ (if keeps h f (length ds) d then [d] else []).
Proof.
  unfold kept. rewrite imap_app, filter_app, fmap_app. f_equal.
  simpl. rewrite Nat.add_0_r, filter_cons, filter_nil. simpl.
  destruct (keeps h f (length ds) d).
  - by rewrite decide_True.
  - by rewrite decide_False.
Qed.

Lemma kept_elem h f ds d :
  d ∈ kept h f ds ↔ ∃ i, ds !! i = Some d ∧ keeps h f i d = true.
Proof.
  unfold kept. rewrite list_elem_of_fmap. split.
  - intros ([i d'] & -> & [Hk Hin]%list_elem_of_filter).
    apply elem_of_lookup_imap in Hin as (j & x & [= -> ->] & Hj). by exists j.
  - intros (i & Hi & Hk). exists (i, d). split; [done|].
    apply list_elem_of_filter. split; [done|]. by apply elem_of_lookup_imap_2.
Qed.

Lemma kept_sublist h f ds : kept h f ds `sublist_of` ds.
Proof.
  unfold kept. rewrite <- (imap_pair_snd id ds) at 2.
  apply fmap_sublist, sublist_filter.
Qed.

Lemma filter_spec f h c a ds :
  corpusAt h c a ds →
  ∃ (ret ra : loc) (h' : heap),
    Corpus.filter c f h = (Return (VRef ret), h') ∧
    (ret ∉ dom h) ∧ (ra ∉ dom h) ∧
    unchangedOn h h' ∧
    h' !! ret = Some (OCorpus (VRef ra)) ∧
    h' !! ra = Some (OArray (VRef <$> kept h f ds)).
Proof.
  intros Hwf.
  remember (Corpus.filter c f h) as r eqn:Hr. unfold Corpus.filter in Hr.
  erewrite bind_Return in Hr by apply newCorpus_empty_run.
  set (ret := fresh (dom h)) in *.
  set (h0 := <[ret:=OCorpus VUndefined]> h) in *.
  set (ra := fresh (dom h0)) in *.
  set (h1 := <[ret:=OCorpus (VRef ra)]> (<[ra:=OArray []]> h0)) in *.
  assert (ret ∉ dom h) as Hret by apply is_fresh.
  assert (ra ∉ dom h0) as Hra0 by apply is_fresh.
  assert (ra ≠ ret ∧ (ra ∉ dom h)) as [Hne Hra].
  { subst h0. rewrite dom_insert in Hra0. set_solver. }
  assert (unchangedOn h h1) as Hold.
  { intros l Hl. subst h1 h0.
    rewrite !lookup_insert_ne; [done|intros ->; done..]. }
  pose proof Hwf as [Hc Ha Hds].
  pose proof (corpusAt_dom _ _ _ _ Hwf) as (Hcd & Had & Hdsd).
  erewrite bind_Return in Hr.
  2:{ eapply nDocs_run; [by rewrite Hold|]. eapply arrayLike_array. by rewrite Hold. }
  rewrite length_fmap in Hr.
  edestruct (forRange_inv
    (λ j H, H !! ret = Some (OCorpus (VRef ra)) ∧
            H !! ra = Some (OArray (VRef <$> kept h f (take j ds))) ∧
            unchangedOn h H))
    as (h' & Hrun & Hinv); [| |erewrite bind_Return in Hr by exact Hrun].
  - split; [|split; [|done]].
    + subst h1. by rewrite lookup_insert_eq.
    + subst h1. rewrite lookup_insert_ne by done. by rewrite lookup_insert_eq.
  - intros j H [_ Hj] (Hr1 & Hr2 & Hinv). simpl in Hj.
    destruct (lookup_lt_is_Some_2 ds j Hj) as [d Hd].
    destruct (corpusAt_lookup _ _ _ _ _ _ Hwf Hd) as [doc Hdoc].
    assert (d ∈ dom h) as Hdd by by apply elem_of_dom.
    assert (H !! d = Some (ODoc doc)) as HHd by by rewrite Hinv.
    erewrite bind_Return by (apply documentsOf_run; by rewrite Hinv, Hc).
    erewrite bind_Return by (eapply index_run, arrayLike_array; by rewrite Hinv, Ha).
    rewrite list_lookup_fmap, Hd.
    change (default VUndefined (VRef <$> Some d)) with (VRef d).
    rewrite (bind_Return _ _ _ _ _ (getDoc_run _ _ _ HHd)).
    cbv beta iota zeta.
    assert (length (take j ds) = j) as Hlen by (rewrite length_take; lia).
    rewrite (take_S_r _ _ _ Hd), kept_snoc, Hlen.
    assert (keeps h f j d = toBoolean (f (text doc) (attributes doc) j)) as ->
      by (unfold keeps; by rewrite Hdoc).
    destruct (toBoolean (f (text doc) (attributes doc) j)).
    + erewrite addDoc_document by done. eexists. split; [done|].
      split; [|split].
      * rewrite lookup_insert_ne by done. done.
      * by rewrite lookup_insert_eq, fmap_app.
      * intros l Hl. rewrite lookup_insert_ne by (intros <-; done). by apply Hinv.
    + exists H. rewrite app_nil_r. done.
  - simpl in Hinv. rewrite take_ge in Hinv by lia.
    destruct Hinv as (Hr1 & Hr2 & Hinv).
    exists ret, ra, h'. by subst r.
Qed.

Lemma kept_docs (h h' : heap) f (ds : list loc) :
  unchangedOn h h' →
  Forall (λ d, is_Some (docAt h (VRef d))) ds →
  Forall (λ d, is_Some (docAt h' (VRef d))) (kept h f ds).
Proof.
  intros Hold Hds. apply Forall_forall. intros d (i & Hi & _)%kept_elem.
  rewrite Forall_lookup in Hds. destruct (Hds _ _ Hi) as [doc Hdoc%docAt_Some].
  exists doc. apply docAt_Some. rewrite Hold; [done|]. by eapply elem_of_dom_2.
Qed.

(** X18. [filter( fn )] returns a new corpus and changes nothing: the
    receiver, its documents array, every Document and every other
    object of the caller are as before.  The new corpus holds, in the
    receiver's order, the receiver's own Document objects at the
    positions [i] where [fn( text, attributes, i )] is true in a
    condition, and no others. *)
Theorem filter_keeps f h c a ds :
  corpusAt h c a ds →
  ∃ (ret ra : loc) (h' : heap),
    Corpus.filter c f h = (Return (VRef ret), h') ∧
    (ret ∉ dom h) ∧ (ra ∉ dom h) ∧
    unchangedOn h h' ∧
    corpusAt h' c a ds ∧
    corpusAt h' ret ra (kept h f ds) ∧
    kept h f ds `sublist_of` ds ∧
    (∀ d, d ∈ kept h f ds ↔
       ∃ i doc, ds !! i = Some d ∧ h !! d = Some (ODoc doc) ∧
         toBoolean (f (text doc) (attributes doc) i) = true).
Proof.
  intros Hwf.
  destruct (filter_spec f _ _ _ _ Hwf) as (ret & ra & h' & Hrun & Hret & Hra & Hold & Hr1 & Hr2).
  pose proof (corpusAt_dom _ _ _ _ Hwf) as (Hcd & Had & Hdsd).
  exists ret, ra, h'. split; [done|]. split; [done|]. split; [done|]. split; [done|].
  split; [|split; [|split]].
  - destruct Hwf as [Hc Ha Hds]. split.
    + by rewrite Hold.
    + by rewrite Hold.
    + eapply docs_unchanged; [|done]. intros d Hd. apply Hold.
      rewrite Forall_forall in Hdsd. by apply Hdsd.
  - split; [done..|]. eapply kept_docs; [done|apply Hwf].
  - apply kept_sublist.
  - intros d. rewrite kept_elem. split.
    + intros (i & Hi & Hk).
      destruct (corpusAt_lookup _ _ _ _ _ _ Hwf Hi) as [doc Hdoc].
      exists i, doc. unfold keeps in Hk. by rewrite Hdoc in Hk.
    + intros (i & doc & Hi & Hdoc & Hk). exists i. unfold keeps. by rewrite Hdoc.
Qed.

(** X19. [filter] copies no Document: the corpus it returns shares its
    Documents with the receiver.  An [apply( fn )] on the returned
    corpus writes the new texts into the very objects the receiver
    holds, so the receiver, whose documents array is unchanged, shows
    them too; the Documents that were not kept stay as they were. *)
Theorem filter_shares_documents p f h c a ds :
  corpusAt h c a ds →
  ∃ (ret : loc) (h1 h2 : heap),
    Corpus.filter c p h = (Return (VRef ret), h1) ∧
    Corpus.apply ret f h1 = (Return (VRef ret), h2) ∧
    corpusAt h2 c a ds ∧
    (∀ d doc, h !! d = Some (ODoc doc) →
       h2 !! d = Some (ODoc (Doc (textAfter f d 0 (kept h p ds) (text doc)
                                    (attributes doc))
                                 (attributes doc)))) ∧
    (∀ d, d ∈ ds → d ∉ kept h p ds → h2 !! d = h !! d).
Proof.
  intros Hwf.
  destruct (filter_spec p _ _ _ _ Hwf) as (ret & ra & h1 & Hrun & Hret & Hra & Hold & Hr1 & Hr2).
  assert (corpusAt h1 ret ra (kept h p ds)) as Hwf1.
  { split; [done..|]. eapply kept_docs; [done|apply Hwf]. }
  destruct (apply_spec f _ _ _ _ Hwf1) as (h2 & Hrun2 & Hh2).
  pose proof (corpusAt_dom _ _ _ _ Hwf) as (Hcd & Had & Hdsd).
  assert (∀ d doc, h !! d = Some (ODoc doc) →
    h2 !! d = Some (ODoc (Doc (textAfter f d 0 (kept h p ds) (text doc) (attributes doc))
                              (attributes doc)))) as Hdocs.
  { intros d doc Hd. rewrite Hh2, Hold by by eapply elem_of_dom_2. by rewrite Hd. }
  exists ret, h1, h2. split; [done|]. split; [done|]. split; [|split; [done|]].
  - destruct Hwf as [Hc Ha Hds]. split.
    + by rewrite Hh2, Hold, Hc.
    + by rewrite Hh2, Hold, Ha.
    + apply Forall_forall. intros d Hd. rewrite Forall_forall in Hds.
      destruct (Hds _ Hd) as [doc Hdoc%docAt_Some].
      eexists. apply docAt_Some. by apply Hdocs.
  - intros d Hd Hnot. rewrite Forall_forall in Hdsd.
    rewrite Hh2, Hold by by apply Hdsd.
    destruct (h !! d) as [[[]| | |]|]; simpl; try done.
    by rewrite textAfter_notin.
Qed.

Lemma filter_pairs_ext {A} (P Q : A → Prop) `{∀ x, Decision (P x)} `{∀ x, Decision (Q x)}
    (l : list A) :
  (∀ x, x ∈ l → P x ↔ Q x) → filter P l = filter Q l.
Proof.
  induction l as [|x l IH]; intros Hext; [done|].
  rewrite !filter_cons.
  rewrite IH by (intros y Hy; apply Hext; by right).
  destruct (decide (P x)) as [HP|HP], (decide (Q x)) as [HQ|HQ]; try done.
  - destruct HQ. apply Hext; [by left|done].
  - destruct HP. apply Hext; [by left|done].
Qed.

Lemma keeps_unchanged (h h' : heap) f i d :
  h' !! d = h !! d → keeps h' f i d = keeps h f i d.
Proof. unfold keeps. by intros ->. Qed.

Lemma kept_unchanged (h h' : heap) f (ds : list loc) :
  (∀ d, d ∈ ds → h' !! d = h !! d) → kept h' f ds = kept h f ds.
Proof.
  intros Hsame. unfold kept. f_equal. apply filter_pairs_ext.
  intros [i d] (j & x & [= -> ->] & Hj)%elem_of_lookup_imap. simpl.
  rewrite (keeps_unchanged h h'); [done|]. apply Hsame. by eapply list_elem_of_lookup_2.
Qed.

(** Filtering what a filter kept, with a callback that does not look
    at the position. *)
Lemma kept_kept h p q (ds : list loc) :
  positionFree q →
  kept h q (kept h p ds) =
  kept h (λ t a i, VBoolean (toBoolean (p t a i) && toBoolean (q t a i))) ds.
Proof.
  intros Hq. induction ds as [|d ds IH] using rev_ind; [done|].
  rewrite !kept_snoc, <- IH.
  assert (∀ i j, keeps h q i d = keeps h q j d) as Hq'.
  { intros i j. unfold keeps. destruct (h !! d) as [[doc| | |]|]; try done.
    by rewrite (Hq _ _ i j). }
  assert (keeps h (λ t a i, VBoolean (toBoolean (p t a i) && toBoolean (q t a i)))
            (length ds) d
          = keeps h p (length ds) d && keeps h q (length ds) d) as ->.
  { unfold keeps. by destruct (h !! d) as [[doc| | |]|]. }
  destruct (keeps h p (length ds) d) eqn:Ep; simpl.
  - rewrite kept_snoc. by rewrite (Hq' _ (length ds)).
  - by rewrite !app_nil_r.
Qed.

(** X20. Two filters in a row are one filter with both conditions, when
    the second callback does not look at the position (the positions
    in the intermediate corpus are not those in the receiver): the
    corpus [filter( p ).filter( q )] returns holds the same Documents
    in the same order as the corpus that
    [filter( (t, a, i) => p( t, a, i ) && q( t, a, i ) )] returns. *)
Theorem filter_twice p q h c a ds :
  positionFree q →
  corpusAt h c a ds →
  ∃ (r1 r2 r3 : loc) (h1 h2 h3 : heap),
    Corpus.filter c p h = (Return (VRef r1), h1) ∧
    Corpus.filter r1 q h1 = (Return (VRef r2), h2) ∧
    Corpus.filter c (λ t a i, VBoolean (toBoolean (p t a i) && toBoolean (q t a i))) h
      = (Return (VRef r3), h3) ∧
    docsOf h2 r2 = docsOf h3 r3 ∧
    docsOf h2 r2 = Some (VRef <$> kept h q (kept h p ds)).
Proof.
  intros Hq Hwf.
  destruct (filter_spec p _ _ _ _ Hwf) as (r1 & a1 & h1 & Hrun1 & _ & _ & Hold1 & Hr1 & Ha1).
  assert (corpusAt h1 r1 a1 (kept h p ds)) as Hwf1.
  { split; [done..|]. eapply kept_docs; [done|apply Hwf]. }
  destruct (filter_spec q _ _ _ _ Hwf1) as (r2 & a2 & h2 & Hrun2 & _ & _ & _ & Hr2 & Ha2).
  destruct (filter_spec (λ t a i, VBoolean (toBoolean (p t a i) && toBoolean (q t a i)))
              _ _ _ _ Hwf) as (r3 & a3 & h3 & Hrun3 & _ & _ & _ & Hr3 & Ha3).
  exists r1, r2, r3, h1, h2, h3. split; [done|]. split; [done|]. split; [done|].
  assert (kept h1 q (kept h p ds) = kept h q (kept h p ds)) as E.
  { apply kept_unchanged. intros d (i & Hi & _)%kept_elem.
    destruct (corpusAt_lookup _ _ _ _ _ _ Hwf Hi) as [doc Hdoc].
    apply Hold1. by eapply elem_of_dom_2. }
  rewrite (docsOf_run _ _ _ _ Hr2 (arrayLike_array _ _ _ Ha2)).
  rewrite (docsOf_run _ _ _ _ Hr3 (arrayLike_array _ _ _ Ha3)).
  rewrite E. split; [|done]. by rewrite kept_kept.
Qed.

(** ** groupBy and filter *)

Lemma groupOf_kept h f k (ds : list loc) :
  Forall (λ d, is_Some (docAt h (VRef d))) ds →
  groupOf h f k ds = kept h (λ t a i, VBoolean (String.eqb (f t a i) k)) ds.
Proof.
  intros Hds. unfold groupOf, kept, members. f_equal. apply filter_pairs_ext.
  intros [i d] (j & x & [= -> ->] & Hj)%elem_of_lookup_imap. simpl.
  rewrite Forall_lookup in Hds. destruct (Hds _ _ Hj) as [doc Hdoc%docAt_Some].
  unfold keyOf, keeps. rewrite Hdoc. simpl. by rewrite String.eqb_eq.
Qed.

(** X21. A group of [groupBy( fn )] is what [filter] returns for the
    test [fn( text, attributes, i ) === key]: from the same state, the
    corpus stored under a key by [groupBy] and the corpus returned by
    that filter hold the same Document objects in the same order; and
    [groupBy] has no property for a key exactly when the filter keeps
    nothing.  This is so for a callback none of whose keys on the
    corpus is ["__proto__"] or ["hasOwnProperty"], the two names a
    plain object does not store like the others. *)
Theorem groupBy_group_is_filter f k h c a ds :
  corpusAt h c a ds →
  ordinaryKeys h f ds →
  ∃ (corpora ret : loc) (props : gmap string value) (hg hf : heap),
    Corpus.groupBy c f h = (Return (VRef corpora), hg) ∧
    hg !! corpora = Some (OObject props) ∧
    Corpus.filter c (λ t a i, VBoolean (String.eqb (f t a i) k)) h
      = (Return (VRef ret), hf) ∧
    match props !! k with
    | Some v => ∃ gc, v = VRef gc ∧ docsOf hg gc = docsOf hf ret ∧
                      docsOf hf ret ≠ Some []
    | None => docsOf hf ret = Some []
    end.
Proof.
  intros Hwf Hord.
  destruct (groupBy_spec f _ _ _ _ Hwf Hord)
    as (corpora & hg & Hrung & _ & _ & L & HL & Hnone & Hsome & _).
  destruct (filter_spec (λ t a i, VBoolean (String.eqb (f t a i) k)) _ _ _ _ Hwf)
    as (ret & ra & hf & Hrunf & _ & _ & _ & Hr1 & Hr2).
  rewrite <- groupOf_kept in Hr2 by apply Hwf.
  pose proof (docsOf_run _ _ _ _ Hr1 (arrayLike_array _ _ _ Hr2)) as Hdf.
  exists corpora, ret, ((λ p, VRef p.1) <$> L), hg, hf.
  split; [done|]. split; [done|]. split; [done|].
  rewrite lookup_fmap, Hdf. destruct (L !! k) as [[gc ga]|] eqn:E; simpl.
  - destruct (Hsome _ _ _ E) as (Hgc & Hga & _ & _ & Hne).
    exists gc. split; [done|]. split.
    + by rewrite (docsOf_run _ _ _ _ Hgc (arrayLike_array _ _ _ Hga)).
    + intros [= E']. apply fmap_nil_inv in E'. done.
  - by rewrite (Hnone _ E).
Qed.

(** ** A corpus built from strings *)

Lemma newCorpus_strings_fresh (h : heap) w ss :
  h !! w = Some (OArray (VString <$> ss)) → ss ≠ [] →
  ∃ (c a : loc) (ls : list loc) (h' : heap),
    Corpus.newCorpus (VRef w) h = (Return c, h') ∧
    (c ∉ dom h) ∧ (a ∉ dom h) ∧
    unchangedOn h h' ∧
    corpusAt h' c a ls ∧
    NoDup ls ∧ Forall (λ d, d ∉ dom h) ls ∧
    Forall2 (λ d s, ∃ x, h' !! d = Some (ODoc (Doc s x))) ls ss.
Proof.
  intros Hw Hss.
  set (c := fresh (dom h)).
  set (h0 := <[c:=OCorpus VUndefined]> h).
  assert (h !! c = None) as Hc by apply fresh_lookup.
  assert (c ∉ dom h) as Hcd by apply is_fresh.
  assert (w ≠ c) as Hwc by (intros ->; congruence).
  assert (h0 !! w = Some (OArray (VString <$> ss))) as Hw0.
  { unfold h0. by rewrite lookup_insert_ne. }
  assert (∀ l, l ∈ dom h → l ∈ dom h0) as Hsub.
  { intros l Hl. unfold h0. rewrite dom_insert. set_solver. }
  destruct (wrapStrings_fresh h0 w ss Hw0)
    as (a & ls & h1 & Hrun & Hold & Ha & Ha1 & Hnd & Hfresh & Hdocs).
  assert (c ∈ dom h0) as Hc0.
  { unfold h0. rewrite dom_insert. set_solver. }
  assert (a ≠ c) as Hac by (intros E; by rewrite E in Ha).
  assert (∀ d doc, h1 !! d = Some (ODoc doc) →
            <[c:=OCorpus (VRef a)]> h1 !! d = Some (ODoc doc)) as Hkeep.
  { intros d doc Hd. rewrite lookup_insert_ne; [done|]. intros <-.
    rewrite Hold in Hd by done. unfold h0 in Hd. by rewrite lookup_insert_eq in Hd. }
  exists c, a, ls, (<[c:=OCorpus (VRef a)]> h1). split.
  { unfold Corpus.newCorpus.
    erewrite bind_Return by apply alloc_run. fold c h0.
    erewrite (bind_Return _ _ h0 () (<[c:=OCorpus (VRef a)]> h1)); [reflexivity|].
    unfold Corpus.init. erewrite bind_Return by apply getHeap_run.
    change (isString (VRef w)) with false. cbv iota.
    rewrite (isStringArray_strings _ _ ss Hw0 Hss).
    erewrite bind_Return by exact Hrun. done. }
  split; [done|]. split; [by intros ?%Hsub|]. split; [|split; [|split; [done|split]]].
  - intros l Hl. rewrite lookup_insert_ne by (intros <-; done).
    rewrite Hold by by apply Hsub. unfold h0. rewrite lookup_insert_ne; [done|].
    by intros <-.
  - split.
    + by rewrite lookup_insert_eq.
    + by rewrite lookup_insert_ne.
    + eapply Forall_impl; [exact (Forall2_docs _ _ _ Hdocs)|].
      intros d [doc Hdoc%docAt_Some]. exists doc. by apply docAt_Some, Hkeep.
  - eapply Forall_impl; [exact Hfresh|]. intros d Hd ?%Hsub. done.
  - eapply Forall2_impl; [exact Hdocs|]. intros d s [x Hd]. exists x. by apply Hkeep.
Qed.

(** X22. [new Corpus( strings )] with an array of one or more strings
    makes one Document for each string: new objects, pairwise
    distinct, with the strings as texts in order, in a documents array
    of the corpus's own.  The array of strings is not kept, and no
    object of the caller is changed. *)
Theorem constructor_wraps_strings h w ss :
  h !! w = Some (OArray (VString <$> ss)) → ss ≠ [] →
  ∃ (c a : loc) (ls : list loc) (h' : heap),
    Corpus.newCorpus (VRef w) h = (Return c, h') ∧
    (c ∉ dom h) ∧ (a ∉ dom h) ∧ a ≠ w ∧
    unchangedOn h h' ∧
    corpusAt h' c a ls ∧
    NoDup ls ∧ Forall (λ d, d ∉ dom h) ls ∧
    textsOf h' c = Some ss.
Proof.
  intros Hw Hss.
  destruct (newCorpus_strings_fresh h w ss Hw Hss)
    as (c & a & ls & h' & Hrun & Hc & Ha & Hold & Hwf & Hnd & Hfresh & Hdocs).
  exists c, a, ls, h'. split; [done|]. split; [done|]. split; [done|]. split.
  { intros ->. apply Ha. by eapply elem_of_dom_2. }
  split; [done|]. split; [done|]. split; [done|]. split; [done|].
  replace ss with ([] ++ ss) by done.
  by eapply (textsOf_app _ _ _ [] ls).
Qed.

(** The same for any array of strings: the empty array is taken as
    an array of Documents and becomes the documents array itself. *)
Lemma newCorpus_strings_docs (h : heap) w ss :
  h !! w = Some (OArray (VString <$> ss)) →
  ∃ (c a : loc) (ls : list loc) (h' : heap),
    Corpus.newCorpus (VRef w) h = (Return c, h') ∧
    (c ∉ dom h) ∧
    unchangedOn h h' ∧
    corpusAt h' c a ls ∧
    NoDup ls ∧ Forall (λ d, d ∉ dom h) ls ∧
    Forall2 (λ d s, ∃ x, h' !! d = Some (ODoc (Doc s x))) ls ss.
Proof.
  intros Hw. destruct (decide (ss = [])) as [->|Hss].
  - assert (h !! fresh (dom h) = None) as Hc by apply fresh_lookup.
    exists (fresh (dom h)), w, [], (<[fresh (dom h):=OCorpus (VRef w)]> h).
    split; [by apply (newCorpus_adopts_run h w [])|].
    split; [apply is_fresh|]. split.
    { intros l Hl. rewrite lookup_insert_ne; [done|]. by apply fresh_ne. }
    split; [|by repeat constructor]. split.
    + by rewrite lookup_insert_eq.
    + rewrite lookup_insert_ne; [done|]. intros E. by rewrite E, Hw in Hc.
    + constructor.
  - destruct (newCorpus_strings_fresh h w ss Hw Hss)
      as (c & a & ls & h' & Hrun & Hc & Ha & Hold & Hwf & Hnd & Hfresh & Hdocs).
    by exists c, a, ls, h'.
Qed.

Lemma NoDup_once (ls : list loc) i d :
  NoDup ls → ls !! i = Some d → ∀ j, j ≠ i → ls !! j ≠ Some d.
Proof. intros Hnd Hi j Hne Hj. apply Hne. by eapply NoDup_lookup. Qed.

(** X23. On a corpus built from an array of strings, [apply( fn )] with
    a callback of the text and the position leaves the text
    [fn( s_i, i )] at every position [i], where [s_i] is the string the
    corpus was built from: every Document is rewritten exactly once.
    The objects of the caller are not changed. *)
Theorem strings_then_apply h w ss (g : string → nat → string) :
  h !! w = Some (OArray (VString <$> ss)) →
  ∃ (c : loc) (h1 h2 : heap),
    Corpus.newCorpus (VRef w) h = (Return c, h1) ∧
    Corpus.apply c (λ t _ i, g t i) h1 = (Return (VRef c), h2) ∧
    textsOf h1 c = Some ss ∧
    textsOf h2 c = Some (imap (λ i s, g s i) ss) ∧
    unchangedOn h h2.
Proof.
  intros Hw.
  destruct (newCorpus_strings_docs h w ss Hw)
    as (c & a & ls & h1 & Hrun & Hc & Hold & Hwf & Hnd & Hfresh & Hdocs).
  set (f := λ (t : string) (_ : value) (i : nat), g t i).
  destruct (apply_spec f _ _ _ _ Hwf) as (h2 & Hrun2 & Hh2).
  assert (corpusAt h2 c a ls) as Hwf2.
  { by apply (corpusAt_retext h1 h2 c a ls (λ l, textAfter f l 0 ls)). }
  exists c, h1, h2. split; [done|]. split; [done|]. split; [|split].
  - replace ss with ([] ++ ss) by done.
    eapply (textsOf_app _ _ _ [] ls); [done|done|done].
  - rewrite (textsOf_corpusAt _ _ _ _ Hwf2). f_equal.
    apply list_eq. intros i. rewrite list_lookup_fmap, list_lookup_imap.
    destruct (ls !! i) as [d|] eqn:Hi.
    + destruct (Forall2_lookup_l _ _ _ _ _ Hdocs Hi) as (s & Hs & x & Hd).
      rewrite Hs. simpl. f_equal. unfold textOf. rewrite Hh2, Hd. simpl.
      rewrite (textAfter_once f d 0 ls i); [done|done|by apply NoDup_once].
    + apply lookup_ge_None in Hi. rewrite (Forall2_length _ _ _ Hdocs) in Hi.
      apply lookup_ge_None in Hi. by rewrite Hi.
  - intros l Hl. rewrite Hh2, Hold by done.
    destruct (h !! l) as [[[]| | |]|] eqn:E; simpl; try done.
    rewrite textAfter_notin; [done|]. intros Hin.
    rewrite Forall_forall in Hfresh. by apply (Hfresh _ Hin).
Qed.

(** X24. On a corpus built from an array of strings [groupBy( fn )] is
    a partition of the documents: every Document of the corpus is in
    the group of one key and in no other group.  This is so for a
    callback that never returns ["__proto__"] or ["hasOwnProperty"],
    the two names a plain object does not store like the others. *)
Theorem strings_then_groupBy f h w ss :
  (∀ t a i, ordinaryKey (f t a i)) →
  h !! w = Some (OArray (VString <$> ss)) →
  ∃ (c a corpora : loc) (ls : list loc) (props : gmap string value) (h1 h2 : heap),
    Corpus.newCorpus (VRef w) h = (Return c, h1) ∧
    corpusAt h1 c a ls ∧ length ls = length ss ∧
    Corpus.groupBy c f h1 = (Return (VRef corpora), h2) ∧
    h2 !! corpora = Some (OObject props) ∧
    (∀ k, match props !! k with
          | Some v => ∃ gc, v = VRef gc ∧
                        docsOf h2 gc = Some (VRef <$> groupOf h1 f k ls)
          | None => groupOf h1 f k ls = []
          end) ∧
    (∀ d, d ∈ ls →
       ∃ k, d ∈ groupOf h1 f k ls ∧ ∀ k', d ∈ groupOf h1 f k' ls → k' = k).
Proof.
  intros Hf Hw.
  destruct (newCorpus_strings_docs h w ss Hw)
    as (c & a & ls & h1 & Hrun & Hc & Hold & Hwf & Hnd & Hfresh & Hdocs).
  assert (ordinaryKeys h1 f ls) as Hord.
  { intros i d Hi. destruct (corpusAt_lookup _ _ _ _ _ _ Hwf Hi) as [doc Hdoc].
    unfold keyOf. rewrite Hdoc. apply Hf. }
  destruct (groupBy_spec f _ _ _ _ Hwf Hord)
    as (corpora & h2 & Hrung & _ & _ & L & HL & Hnone & Hsome & _).
  exists c, a, corpora, ls, ((λ p, VRef p.1) <$> L), h1, h2.
  split; [done|]. split; [done|]. split; [by eapply Forall2_length|].
  split; [done|]. split; [done|]. split.
  - intros k. rewrite lookup_fmap. destruct (L !! k) as [[gc ga]|] eqn:E; simpl.
    + destruct (Hsome _ _ _ E) as (Hgc & Hga & _).
      exists gc. split; [done|]. by eapply docsOf_run, arrayLike_array.
    + by apply Hnone.
  - intros d [i Hi]%list_elem_of_lookup_1. exists (keyOf h1 f i d). split.
    + apply groupOf_elem. by exists i.
    + intros k' (j & Hj & <-)%groupOf_elem.
      by rewrite (NoDup_lookup _ _ _ _ Hnd Hi Hj).
Qed.

(** ** These statements on a concrete heap *)

Lemma removeInterpunctuation_blanks_witness :
  corpusAt sampleHeap 1 2 [3; 4; 3]%positive ∧
  ∃ h' : heap,
    Corpus.removeInterpunctuation 1 sampleHeap = (Return (VRef 1), h') ∧
    corpusAt h' 1 2 [3; 4; 3]%positive.
Proof.
  split; [demo_corpus|].
  destruct (removeInterpunctuation_blanks sampleHeap 1 2 [3; 4; 3]%positive)
    as (h' & Hrun & Hwf & _); [demo_corpus|].
  exists h'. split; [exact Hrun|exact Hwf].
Defined.

Lemma removeDigits_filters_witness :
  corpusAt sampleHeap 1 2 [3; 4; 3]%positive ∧
  ∃ h' : heap,
    Corpus.removeDigits 1 sampleHeap = (Return (VRef 1), h') ∧
    corpusAt h' 1 2 [3; 4; 3]%positive.
Proof.
  split; [demo_corpus|].
  destruct (removeDigits_filters sampleHeap 1 2 [3; 4; 3]%positive)
    as (h' & Hrun & Hwf & _); [demo_corpus|].
  exists h'. split; [exact Hrun|exact Hwf].
Defined.

Lemma removeNewlines_no_line_break_witness :
  corpusAt sampleHeap 1 2 [3; 4; 3]%positive ∧
  ∃ h' : heap,
    Corpus.removeNewlines 1 sampleHeap = (Return (VRef 1), h') ∧
    corpusAt h' 1 2 [3; 4; 3]%positive.
Proof.
  split; [demo_corpus|].
  destruct (removeNewlines_no_line_break sampleHeap 1 2 [3; 4; 3]%positive)
    as (h' & Hrun & Hwf & _); [demo_corpus|].
  exists h'. split; [exact Hrun|exact Hwf].
Defined.

Lemma toLower_idempotent_witness :
  corpusAt sampleHeap 1 2 [3; 4; 3]%positive ∧
  ∃ h' : heap,
    Corpus.toLower 1 sampleHeap = (Return (VRef 1), h') ∧
    Corpus.toLower 1 h' = (Return (VRef 1), h').
Proof.
  split; [demo_corpus|].
  destruct (toLower_idempotent sampleHeap 1 2 [3; 4; 3]%positive)
    as (h' & Hrun & _ & _ & _ & Hagain); [demo_corpus|].
  exists h'. split; [exact Hrun|exact Hagain].
Defined.

Lemma toLower_removeInterpunctuation_commute_witness :
  corpusAt sampleHeap 1 2 [3; 4; 3]%positive ∧
  ∃ h1 h2 h' : heap,
    Corpus.toLower 1 sampleHeap = (Return (VRef 1), h1) ∧
    Corpus.removeInterpunctuation 1 h1 = (Return (VRef 1), h') ∧
    Corpus.removeInterpunctuation 1 sampleHeap = (Return (VRef 1), h2) ∧
    Corpus.toLower 1 h2 = (Return (VRef 1), h').
Proof.
  split; [demo_corpus|].
  apply (toLower_removeInterpunctuation_commute sampleHeap 1 2 [3; 4; 3]%positive).
  demo_corpus.
Defined.

Lemma clean_absorbs_trim_witness :
  corpusAt sampleHeap 1 2 [3; 4; 3]%positive ∧
  ∃ h1 h' : heap,
    Corpus.clean 1 sampleHeap = (Return (VRef 1), h') ∧
    Corpus.clean 1 h' = (Return (VRef 1), h') ∧
    Corpus.trim 1 h' = (Return (VRef 1), h') ∧
    Corpus.trim 1 sampleHeap = (Return (VRef 1), h1) ∧
    Corpus.clean 1 h1 = (Return (VRef 1), h').
Proof.
  split; [demo_corpus|].
  apply (clean_absorbs_trim sampleHeap 1 2 [3; 4; 3]%positive). demo_corpus.
Defined.

Lemma apply_in_place_witness :
  corpusAt sampleHeap 1 2 [3; 4; 3]%positive ∧
  ∃ h' : heap,
    Corpus.apply 1 (λ t _ i, t +:+ pretty i) sampleHeap = (Return (VRef 1), h') ∧
    corpusAt h' 1 2 [3; 4; 3]%positive ∧
    dom h' = dom sampleHeap.
Proof.
  split; [demo_corpus|].
  destruct (apply_in_place (λ t _ i, t +:+ pretty i) sampleHeap 1 2 [3; 4; 3]%positive)
    as (h' & Hrun & Hwf & Hdom & _); [demo_corpus|].
  exists h'. split; [exact Hrun|split; [exact Hwf|exact Hdom]].
Defined.

Lemma map_agrees_with_apply_witness :
  corpusAt sampleHeap 1 2 [3; 4; 3]%positive ∧
  ∃ (ret : loc) (hm ha : heap),
    Corpus.map 1 (λ t _ i, t +:+ pretty i) sampleHeap = (Return (VRef ret), hm) ∧
    Corpus.apply 1 (λ t _ i, t +:+ pretty i) sampleHeap = (Return (VRef 1), ha) ∧
    (ret ∉ dom sampleHeap) ∧
    (∀ l, l ∈ dom sampleHeap → hm !! l = ha !! l) ∧
    textsOf hm ret = textsOf ha 1.
Proof.
  split; [demo_corpus|].
  apply (map_agrees_with_apply (λ t _ i, t +:+ pretty i) sampleHeap 1 2 [3; 4; 3]%positive).
  demo_corpus.
Defined.

Lemma removeWords_argument_checks_witness :
  (arrayLike sampleHeap VUndefined = None ∨
   ∃ v, Some (VBoolean true) = Some v ∧ ∀ b, v ≠ VBoolean b) ∧
  Corpus.removeWords 1 VUndefined (Some (VBoolean true)) sampleHeap
    = (Throw InvalidArgument, sampleHeap).
Proof.
  assert (arrayLike sampleHeap VUndefined = None ∨
          ∃ v, Some (VBoolean true) = Some v ∧ ∀ b, v ≠ VBoolean b) as H
    by (left; reflexivity).
  split; [exact H|].
  exact (removeWords_argument_checks sampleHeap 1 VUndefined (Some (VBoolean true)) H).
Defined.

Lemma removeWords_no_words_witness :
  (corpusAt sampleHeap 1 2 [3; 4; 3]%positive ∧
   sampleHeap !! 7%positive = Some (OArray [])) ∧
  Corpus.removeWords 1 (VRef 7) (VBoolean <$> None) sampleHeap
    = Corpus.clean 1 sampleHeap.
Proof.
  split; [split; [demo_corpus|demo_lookup]|].
  apply (removeWords_no_words sampleHeap 1 2 [3; 4; 3]%positive 7 None).
  - demo_corpus.
  - demo_lookup.
Defined.

Lemma removeWords_only_deletes_witness :
  (corpusAt sampleHeap 1 2 [3; 4; 3]%positive ∧
   sampleHeap !! 9%positive = Some (OArray (VString <$> ["x"; "y"])) ∧
   Forall (λ s, plainWord s = true) ["x"; "y"]) ∧
  ∃ h' : heap,
    Corpus.removeWords 1 (VRef 9) (VBoolean <$> Some true) sampleHeap
      = (Return (VRef 1), h').
Proof.
  assert (Forall (λ s, plainWord s = true) ["x"; "y"]) as Hplain
    by (repeat constructor).
  split; [split; [demo_corpus|split; [demo_lookup|exact Hplain]]|].
  destruct (removeWords_only_deletes sampleHeap 1 2 [3; 4; 3]%positive 9
              ["x"; "y"] (Some true)) as (h' & Hrun & _);
    [demo_corpus|demo_lookup|exact Hplain|].
  exists h'. exact Hrun.
Defined.

Lemma addDoc_appends_witness :
  corpusAt sampleHeap 1 2 [3; 4; 3]%positive ∧
  ∃ (d : loc) (h' : heap),
    Corpus.addDoc 1 (VString "new") sampleHeap = (Return (), h') ∧
    corpusAt h' 1 2 ([3; 4; 3]%positive ++ [d]) ∧
    textsOf h' 1 = Some ((textOf sampleHeap <$> [3; 4; 3]%positive) ++ ["new"]).
Proof.
  split; [demo_corpus|].
  destruct (proj1 (addDoc_appends sampleHeap 1 2 [3; 4; 3]%positive
                     ltac:(demo_corpus)) "new")
    as (d & h' & Hrun & _ & Hwf & Htexts & _).
  exists d, h'. split; [exact Hrun|split; [exact Hwf|exact Htexts]].
Defined.

Lemma addDoc_rejects_witness :
  (VRef 7 = VUndefined ∨ VRef 7 = VNull ∨ (∃ b, VRef 7 = VBoolean b) ∨
   (∃ n, VRef 7 = VNumber n) ∨
   (∃ l xs, VRef 7 = VRef l ∧ sampleHeap !! l = Some (OArray xs)) ∨
   (∃ l ds, VRef 7 = VRef l ∧ sampleHeap !! l = Some (OCorpus ds))) ∧
  Corpus.addDoc 1 (VRef 7) sampleHeap = (Throw InvalidArgument, sampleHeap).
Proof.
  assert (VRef 7 = VUndefined ∨ VRef 7 = VNull ∨ (∃ b, VRef 7 = VBoolean b) ∨
          (∃ n, VRef 7 = VNumber n) ∨
          (∃ l xs, VRef 7 = VRef l ∧ sampleHeap !! l = Some (OArray xs)) ∨
          (∃ l ds, VRef 7 = VRef l ∧ sampleHeap !! l = Some (OCorpus ds))) as H.
  { do 4 right. left. exists 7%positive, []. split; [reflexivity|demo_lookup]. }
  split; [exact H|]. exact (addDoc_rejects sampleHeap 1 (VRef 7) H).
Defined.

Lemma addDocs_wraps_strings_witness :
  (corpusAt sampleHeap 1 2 [3; 4; 3]%positive ∧
   sampleHeap !! 9%positive = Some (OArray (VString <$> ["x"; "y"]))) ∧
  ∃ (a' : loc) (ls : list loc) (h' : heap),
    Corpus.addDocs 1 (VRef 9) sampleHeap = (Return (), h') ∧
    corpusAt h' 1 a' ([3; 4; 3]%positive ++ ls) ∧
    textsOf h' 1 = Some ((textOf sampleHeap <$> [3; 4; 3]%positive) ++ ["x"; "y"]).
Proof.
  split; [split; [demo_corpus|demo_lookup]|].
  destruct (addDocs_wraps_strings sampleHeap 1 2 [3; 4; 3]%positive 9 ["x"; "y"])
    as (a' & ls & h' & Hrun & _ & Hwf & _ & _ & _ & Htexts & _);
    [demo_corpus|demo_lookup|].
  exists a', ls, h'. split; [exact Hrun|split; [exact Hwf|exact Htexts]].
Defined.

Lemma addDocs_shares_documents_witness :
  (corpusAt sampleHeap 1 2 [3; 4; 3]%positive ∧
   sampleHeap !! 2%positive = Some (OArray (VRef <$> [3; 4; 3]%positive)) ∧
   Forall (λ d, is_Some (docAt sampleHeap (VRef d))) [3; 4; 3]%positive) ∧
  ∃ (a' : loc) (h' : heap),
    Corpus.addDocs 1 (VRef 2) sampleHeap = (Return (), h') ∧
    corpusAt h' 1 a' ([3; 4; 3]%positive ++ [3; 4; 3]%positive).
Proof.
  assert (Forall (λ d, is_Some (docAt sampleHeap (VRef d))) [3; 4; 3]%positive) as Hdocs
    by (repeat constructor; eexists; demo_lookup).
  split; [split; [demo_corpus|split; [demo_lookup|exact Hdocs]]|].
  destruct (addDocs_shares_documents sampleHeap 1 2 [3; 4; 3]%positive 2
              [3; 4; 3]%positive) as (a' & h' & Hrun & _ & Hwf & _);
    [demo_corpus|demo_lookup|exact Hdocs|].
  exists a', h'. split; [exact Hrun|exact Hwf].
Defined.

Lemma addDocs_rejects_witness :
  (arrayLike sampleHeap (VRef 8) = None ∨
   ∃ w xs s x, VRef 8 = VRef w ∧ sampleHeap !! w = Some (OArray xs) ∧
     VString s ∈ xs ∧ x ∈ xs ∧ isString x = false) ∧
  Corpus.addDocs 1 (VRef 8) sampleHeap = (Throw InvalidArgument, sampleHeap).
Proof.
  assert (arrayLike sampleHeap (VRef 8) = None ∨
          ∃ w xs s x, VRef 8 = VRef w ∧ sampleHeap !! w = Some (OArray xs) ∧
            VString s ∈ xs ∧ x ∈ xs ∧ isString x = false) as H.
  { right. exists 8%positive, [VString "a"; VRef 3], "a", (VRef 3).
    split; [reflexivity|]. split; [demo_lookup|].
    split; [apply list_elem_of_here|].
    split; [apply list_elem_of_further, list_elem_of_here|reflexivity]. }
  split; [exact H|]. exact (addDocs_rejects sampleHeap 1 (VRef 8) H).
Defined.

Lemma constructor_adopts_array_witness :
  (sampleHeap !! 2%positive = Some (OArray (VRef <$> [3; 4; 3]%positive)) ∧
   [3; 4; 3]%positive ≠ [] ∧
   Forall (λ d, is_Some (docAt sampleHeap (VRef d))) [3; 4; 3]%positive) ∧
  ∃ (c : loc) (h1 : heap),
    Corpus.newCorpus (VRef 2) sampleHeap = (Return c, h1) ∧
    corpusAt h1 c 2 [3; 4; 3]%positive.
Proof.
  assert (Forall (λ d, is_Some (docAt sampleHeap (VRef d))) [3; 4; 3]%positive) as Hdocs
    by (repeat constructor; eexists; demo_lookup).
  split; [split; [demo_lookup|split; [discriminate|exact Hdocs]]|].
  destruct (constructor_adopts_array sampleHeap 2 [3; 4; 3]%positive)
    as (c & h1 & Hrun & _ & Hwf & _); [demo_lookup|discriminate|exact Hdocs|].
  exists c, h1. split; [exact Hrun|exact Hwf].
Defined.

Lemma filter_keeps_witness :
  corpusAt sampleHeap 1 2 [3; 4; 3]%positive ∧
  ∃ (ret ra : loc) (h' : heap),
    Corpus.filter 1 (λ _ _ i, VNumber (Z.of_nat i)) sampleHeap = (Return (VRef ret), h') ∧
    unchangedOn sampleHeap h' ∧
    corpusAt h' ret ra (kept sampleHeap (λ _ _ i, VNumber (Z.of_nat i)) [3; 4; 3]%positive).
Proof.
  split; [demo_corpus|].
  destruct (filter_keeps (λ _ _ i, VNumber (Z.of_nat i)) sampleHeap 1 2 [3; 4; 3]%positive)
    as (ret & ra & h' & Hrun & _ & _ & Hold & _ & Hwf & _); [demo_corpus|].
  exists ret, ra, h'. split; [exact Hrun|split; [exact Hold|exact Hwf]].
Defined.

Lemma filter_shares_documents_witness :
  corpusAt sampleHeap 1 2 [3; 4; 3]%positive ∧
  ∃ (ret : loc) (h1 h2 : heap),
    Corpus.filter 1 (λ _ _ i, VNumber (Z.of_nat i)) sampleHeap = (Return (VRef ret), h1) ∧
    Corpus.apply ret (λ t _ i, t +:+ pretty i) h1 = (Return (VRef ret), h2) ∧
    corpusAt h2 1 2 [3; 4; 3]%positive.
Proof.
  split; [demo_corpus|].
  destruct (filter_shares_documents (λ _ _ i, VNumber (Z.of_nat i))
              (λ t _ i, t +:+ pretty i) sampleHeap 1 2 [3; 4; 3]%positive)
    as (ret & h1 & h2 & H1 & H2 & H3 & _); [demo_corpus|].
  exists ret, h1, h2. split; [exact H1|split; [exact H2|exact H3]].
Defined.

Lemma filter_twice_witness :
  (positionFree (λ (t : string) (_ : value) (_ : nat), VString t) ∧
   corpusAt sampleHeap 1 2 [3; 4; 3]%positive) ∧
  ∃ (r1 r2 r3 : loc) (h1 h2 h3 : heap),
    Corpus.filter 1 (λ _ _ i, VNumber (Z.of_nat i)) sampleHeap = (Return (VRef r1), h1) ∧
    Corpus.filter r1 (λ t _ _, VString t) h1 = (Return (VRef r2), h2) ∧
    Corpus.filter 1
      (λ t a i, VBoolean (toBoolean (VNumber (Z.of_nat i)) && toBoolean (VString t)))
      sampleHeap = (Return (VRef r3), h3) ∧
    docsOf h2 r2 = docsOf h3 r3.
Proof.
  assert (positionFree (λ (t : string) (_ : value) (_ : nat), VString t)) as Hq
    by (intros t a i j; reflexivity).
  split; [split; [exact Hq|demo_corpus]|].
  destruct (filter_twice (λ _ _ i, VNumber (Z.of_nat i)) (λ t _ _, VString t)
              sampleHeap 1 2 [3; 4; 3]%positive Hq)
    as (r1 & r2 & r3 & h1 & h2 & h3 & H1 & H2 & H3 & H4 & _); [demo_corpus|].
  exists r1, r2, r3, h1, h2, h3. split; [exact H1|split; [exact H2|split; [exact H3|exact H4]]].
Defined.

Lemma groupBy_group_is_filter_witness :
  (corpusAt sampleHeap 1 2 [3; 4; 3]%positive ∧
   ordinaryKeys sampleHeap (λ t _ _, t) [3; 4; 3]%positive) ∧
  ∃ (corpora ret : loc) (props : gmap string value) (hg hf : heap),
    Corpus.groupBy 1 (λ t _ _, t) sampleHeap = (Return (VRef corpora), hg) ∧
    hg !! corpora = Some (OObject props) ∧
    Corpus.filter 1 (λ t a i, VBoolean (String.eqb t "Hello, World! 42")) sampleHeap
      = (Return (VRef ret), hf).
Proof.
  assert (ordinaryKeys sampleHeap (λ t _ _, t) [3; 4; 3]%positive) as Hord.
  { intros [|[|[|i]]] d [= <-]; split; vm_compute; discriminate. }
  split; [split; [demo_corpus|exact Hord]|].
  destruct (groupBy_group_is_filter (λ t _ _, t) "Hello, World! 42"
              sampleHeap 1 2 [3; 4; 3]%positive)
    as (corpora & ret & props & hg & hf & H1 & H2 & H3 & _); [demo_corpus|exact Hord|].
  exists corpora, ret, props, hg, hf. split; [exact H1|split; [exact H2|exact H3]].
Defined.

Lemma constructor_wraps_strings_witness :
  (sampleHeap !! 9%positive = Some (OArray (VString <$> ["x"; "y"])) ∧
   ["x"; "y"] ≠ []) ∧
  ∃ (c a : loc) (ls : list loc) (h' : heap),
    Corpus.newCorpus (VRef 9) sampleHeap = (Return c, h') ∧
    corpusAt h' c a ls ∧ NoDup ls.
Proof.
  split; [split; [demo_lookup|discriminate]|].
  destruct (constructor_wraps_strings sampleHeap 9 ["x"; "y"])
    as (c & a & ls & h' & Hrun & _ & _ & _ & _ & Hwf & Hnd & _); [demo_lookup|discriminate|].
  exists c, a, ls, h'. split; [exact Hrun|split; [exact Hwf|exact Hnd]].
Defined.

Lemma strings_then_apply_witness :
  sampleHeap !! 9%positive = Some (OArray (VString <$> ["x"; "y"])) ∧
  ∃ (c : loc) (h1 h2 : heap),
    Corpus.newCorpus (VRef 9) sampleHeap = (Return c, h1) ∧
    Corpus.apply c (λ t _ i, t +:+ pretty i) h1 = (Return (VRef c), h2) ∧
    textsOf h2 c = Some (imap (λ i s, s +:+ pretty i) ["x"; "y"]).
Proof.
  split; [demo_lookup|].
  destruct (strings_then_apply sampleHeap 9 ["x"; "y"] (λ t i, t +:+ pretty i))
    as (c & h1 & h2 & H1 & H2 & _ & H3 & _); [demo_lookup|].
  exists c, h1, h2. split; [exact H1|split; [exact H2|exact H3]].
Defined.

Lemma strings_then_groupBy_witness :
  ((∀ (t : string) (a : value) (i : nat), ordinaryKey "k") ∧
   sampleHeap !! 9%positive = Some (OArray (VString <$> ["x"; "y"]))) ∧
  ∃ (c a corpora : loc) (ls : list loc) (props : gmap string value) (h1 h2 : heap),
    Corpus.newCorpus (VRef 9) sampleHeap = (Return c, h1) ∧
    corpusAt h1 c a ls ∧
    Corpus.groupBy c (λ _ _ _, "k") h1 = (Return (VRef corpora), h2) ∧
    h2 !! corpora = Some (OObject props).
Proof.
  assert (∀ (t : string) (a : value) (i : nat), ordinaryKey "k") as Hk
    by (intros; split; discriminate).
  split; [split; [exact Hk|demo_lookup]|].
  destruct (strings_then_groupBy (λ _ _ _, "k") sampleHeap 9 ["x"; "y"])
    as (c & a & corpora & ls & props & h1 & h2 & H1 & H2 & _ & H3 & H4 & _);
    [exact Hk|demo_lookup|].
  exists c, a, corpora, ls, props, h1, h2. split; [exact H1|split; [exact H2|split; [exact H3|exact H4]]].
Defined.

